(** * Bayut scraper: discovery, dedup and anti-bot detail fetching

    A shallow embedding of the listing harvesters
    ([bayut_ldjson_to_mongo.py], [bayut_csv_scraper.py],
    [bayut_incremental_scraper.py]), of the detail scrapers
    ([bayut_detail_scraper.py], [bayut_detail_scraper_async.py]) and of
    the parts of the page extractor that they rely on
    ([z_bayut_complete_extractor.py]).

    Conventions of the embedding.
    - A Python [str] is the list of its Unicode code points.
    - A decoded JSON value, and every other dynamically typed Python
      value, is a [pyval]; a [dict] keeps its insertion order.
    - A MongoDB collection is the list of its rows; an update touches the
      first row that matches its filter.  Storage calls are taken to
      succeed.
    - Code that may raise returns [exc]; a try/except around it becomes a
      match on the result.
    - The clock, the network, the HTML extractor and the shutdown signal
      are inputs of the functions that consult them.
    - A Python [float] is an IEEE 754 binary64 number, with the
      arithmetic of [SpecFloat]. *)

From Stdlib Require Import String Ascii ZArith NArith QArith Bool Lia List.
From Stdlib Require SpecFloat.
Import ListNotations.

Set Warnings "-register-all".

(** ** Python values *)

Module Py.

Definition str := list N.

(** A source literal, as code points. *)
Definition lit (s : string) : str := map N_of_ascii (list_ascii_of_string s).

Inductive pyval :=
  | PNone
  | PBool (b : bool)
  | PInt (n : Z)
  | PFloat (q : Q)
  | PStr (s : str)
  | PList (l : list pyval)
  | PDict (d : list (str * pyval)).

Definition is_empty {A} (l : list A) : bool :=
  match l with [] => true | _ => false end.

(** [bool(v)] *)
Definition truthy (v : pyval) : bool :=
  match v with
  | PNone => false
  | PBool b => b
  | PInt n => negb (n =? 0)%Z
  | PFloat q => negb (Qeq_bool q 0)
  | PStr s => negb (is_empty s)
  | PList l => negb (is_empty l)
  | PDict d => negb (is_empty d)
  end.

(** [a or b] *)
Definition py_or (a b : pyval) : pyval := if truthy a then a else b.

Fixpoint str_eqb (a b : str) : bool :=
  match a, b with
  | [], [] => true
  | x :: a', y :: b' => (x =? y)%N && str_eqb a' b'
  | _, _ => false
  end.

Fixpoint lookup (k : str) (d : list (str * pyval)) : option pyval :=
  match d with
  | [] => None
  | (k', v) :: d' => if str_eqb k k' then Some v else lookup k d'
  end.

(** [d.get(k, default)] *)
Definition get_default (k : str) (dflt : pyval) (d : list (str * pyval)) : pyval :=
  match lookup k d with Some v => v | None => dflt end.

(** [d.get(k)] *)
Definition get (k : str) (d : list (str * pyval)) : pyval := get_default k PNone d.

(** [k in d] *)
Definition has_key (k : str) (d : list (str * pyval)) : bool :=
  match lookup k d with Some _ => true | None => false end.

(** [s.startswith(p)] *)
Fixpoint starts_with (p s : str) : bool :=
  match p, s with
  | [], _ => true
  | x :: p', y :: s' => (x =? y)%N && starts_with p' s'
  | _ :: _, [] => false
  end.

(** [needle in hay] for two strings *)
Fixpoint contains (needle hay : str) : bool :=
  starts_with needle hay ||
  match hay with
  | [] => false
  | _ :: hay' => contains needle hay'
  end.

(** One code point in UTF-8; a lone surrogate cannot be encoded and
    [errors="ignore"] drops it. *)
Definition utf8_char (c : N) : list N :=
  (if c <? 0x80 then [c]
   else if c <? 0x800 then [0xC0 + c / 64; 0x80 + c mod 64]
   else if (0xD800 <=? c) && (c <=? 0xDFFF) then []
   else if c <? 0x10000 then
     [0xE0 + c / 4096; 0x80 + (c / 64) mod 64; 0x80 + c mod 64]
   else
     [0xF0 + c / 262144; 0x80 + (c / 4096) mod 64;
      0x80 + (c / 64) mod 64; 0x80 + c mod 64])%N.

(** [s.encode("utf-8", errors="ignore")] *)
Definition encode_utf8_ignore (s : str) : list N := flat_map utf8_char s.

(** Lower case of the ASCII letters, a stand-in for [str.lower] on
  examples. *)
Definition ascii_lower (s : str) : str :=
  map (fun c => if (65 <=? c) && (c <=? 90) then c + 32 else c)%N s.

(** Code that may raise. *)
Inductive exc (A : Type) :=
  | Ok (a : A)
  | Raised.
Arguments Ok {A} a.
Arguments Raised {A}.

Definition bind {A B} (e : exc A) (k : A -> exc B) : exc B :=
  match e with Ok a => k a | Raised => Raised end.

Definition exc_map {A B} (f : A -> B) (e : exc A) : exc B :=
  match e with Ok a => Ok (f a) | Raised => Raised end.

Lemma str_eqb_eq (a b : str) : str_eqb a b = true <-> a = b.
Proof.
  revert b; induction a as [|x a IH]; intros [|y b]; simpl;
  try (split; [discriminate | intros [=]]); [split; reflexivity|].
  rewrite andb_true_iff, N.eqb_eq, IH.
  split; [intros [-> ->]; reflexivity | intros [= -> ->]; split; reflexivity].
Qed.

Lemma str_eqb_refl (a : str) : str_eqb a a = true.
Proof. apply str_eqb_eq; reflexivity. Qed.

Lemma str_eqb_neq (a b : str) : str_eqb a b = false <-> a <> b.
Proof.
  rewrite <- str_eqb_eq. destruct (str_eqb a b); split; congruence.
Qed.

End Py.

Import Py.

Notation "x <- e ;; k" := (Py.bind e (fun x => k))
  (at level 61, e at next level, right associativity).
Notation "f <$> e" := (Py.exc_map f e) (at level 62, left associativity).
Notation "' p <- e ;; k" := (Py.bind e (fun p => k))
  (at level 61, p pattern, e at next level, right associativity).

(** ** Identity resolver

    [property_id_from_url] and the opening lines shared by [doc_from_item]
    (ldjson and csv harvesters) and [extract_property_from_item]
    (incremental harvester). *)

Module Identity.

Section Resolver.

(** Unicode category Nd beyond ASCII, which [\d] of a [str] pattern
    consults; [json.dumps(., ensure_ascii=False)]; and
    [hashlib.md5(.).hexdigest()]. *)
Variable unicode_Nd : N -> bool.
Variable dumps : pyval -> str.
Variable md5_hexdigest : list N -> str.

(** [\d] *)
Definition is_decimal (c : N) : bool :=
  (if c <? 128 then (48 <=? c) && (c <=? 57) else unicode_Nd c)%N.

Definition DETAIL_PREFIX : str := lit "details-".
Definition DETAIL_SUFFIX : str := lit ".html".

Fixpoint strip (p s : str) : option str :=
  match p, s with
  | [], _ => Some s
  | x :: p', y :: s' => if (x =? y)%N then strip p' s' else None
  | _ :: _, [] => None
  end.

(** The longest run of digits at the front of [s], and what follows. *)
Fixpoint span_digits (s : str) : str * str :=
  match s with
  | c :: s' =>
      if is_decimal c
      then let (ds, rest) := span_digits s' in (c :: ds, rest)
      else ([], s)
  | [] => ([], [])
  end.

(** [details-(\d+)\.html] anchored at the front of [s].  [\d+] is
    greedy; giving a digit back never helps, since the character that
    would then face [\.] is a digit. *)
Definition match_here (s : str) : option str :=
  match strip DETAIL_PREFIX s with
  | None => None
  | Some s1 =>
      let (ds, rest) := span_digits s1 in
      if is_empty ds then None
      else if starts_with DETAIL_SUFFIX rest then Some ds else None
  end.

(** [DETAIL_ID_RE.search(s)], group 1 of the leftmost match. *)
Fixpoint search (s : str) : option str :=
  match match_here s with
  | Some ds => Some ds
  | None =>
      match s with
      | [] => None
      | _ :: s' => search s'
      end
  end.

(** [url] is what [main.get("url") or None] gave. *)
Definition property_id_from_url (u : pyval) : exc (option str) :=
  if negb (truthy u) then Ok None
  else match u with
       | PStr s => Ok (search s)
       | _ => Raised
       end.

(** [offers[0]] for a truthy [offers]. *)
Definition first_of (offers : pyval) : exc pyval :=
  match offers with
  | PList (x :: _) => Ok x
  | PStr (c :: _) => Ok (PStr [c])
  | _ => Raised
  end.

(** [x.get(k)] on a value that need not be a dict. *)
Definition attr_get (k : str) (x : pyval) : exc pyval :=
  match x with
  | PDict d => Ok (get k d)
  | _ => Raised
  end.

Definition price_of (main : list (str * pyval)) : exc pyval :=
  let offers := get_default (lit "offers") (PList []) main in
  if truthy offers then
    o <- first_of offers ;;
    match o with
    | PDict od =>
        attr_get (lit "price")
          (get_default (lit "priceSpecification") (PDict []) od)
    | _ => Ok PNone
    end
  else Ok PNone.

(** The text that is hashed when the URL carries no id. *)
Definition hash_base (url main : pyval) : str :=
  firstn 256
    (match py_or url (PStr (dumps main)) with
     | PStr s => s
     | _ => []
     end).

Definition HASH_PREFIX : str := lit "hash_".

Definition hash_id (url main : pyval) : str :=
  HASH_PREFIX ++ md5_hexdigest (encode_utf8_ignore (hash_base url main)).

Record identified := {
  i_position : pyval;
  i_url : pyval;
  i_price : pyval;
  i_pid : str
  }.

(** From [pos = item.get("position")] to the assignment of [pid]. *)
Definition identify (item : pyval) : exc identified :=
  match item with
  | PDict it =>
      let pos := get (lit "position") it in
      let main := get (lit "mainEntity") it in
      ' (url, price) <-
        match main with
        | PDict m =>
            p <- price_of m ;;
            Ok (py_or (get (lit "url") m) PNone, p)
        | _ => Ok (PNone, PNone)
        end ;;
      pid <- property_id_from_url url ;;
      Ok {| i_position := pos; i_url := url; i_price := price;
            i_pid := match pid with
                     | Some tok => if is_empty tok then hash_id url main else tok
                     | None => hash_id url main
                     end |}
  | _ => Raised
  end.

(** What a harvester knows about where a page came from: a row of the
    sub-location CSV, a plain location name, or neither. *)
Record csv_row := {
  city : str;
  sublocation : str;
  location_url : str;
  listings : str
}.

Inductive doc_location :=
  | LocCsv (row : csv_row)
  | LocPlain (location : str)
  | LocAbsent.

(** The document handed to the bulk upsert. *)
Record harvest_doc := {
  upsert_key : str;
  property_id : str;
  position : pyval;
  detailed_url : pyval;
  page_number : Z;
  fetched_at : Z;
  raw_item : pyval;
  price : pyval;
  purpose : str;
  doc_loc : doc_location
}.

(** [doc_from_item] of [bayut_ldjson_to_mongo.py]. *)
Definition doc_from_item (item : pyval) (page_num : Z) (fetched : Z)
    (location_info : option csv_row) (location : option str) (purp : str)
  : exc harvest_doc :=
  r <- identify item ;;
  Ok {| upsert_key := i_pid r;
        property_id := i_pid r;
        position := i_position r;
        detailed_url := i_url r;
        page_number := page_num;
        fetched_at := fetched;
        raw_item := item;
        price := i_price r;
        purpose := purp;
        doc_loc := match location_info with
                   | Some row => LocCsv row
                   | None =>
                       match location with
                       | Some l => if is_empty l then LocAbsent else LocPlain l
                       | None => LocAbsent
                       end
                   end |}.

(** [extract_property_from_item] of [bayut_incremental_scraper.py]; [now]
    is the reading of [datetime.utcnow()].  The whole body sits in a
    try/except that returns [None]. *)
Definition extract_property_from_item (item : pyval) (page_num : Z) (now : Z)
  : option harvest_doc :=
  match identify item with
  | Ok r =>
      Some {| upsert_key := i_pid r;
              property_id := i_pid r;
              position := i_position r;
              detailed_url := i_url r;
              page_number := page_num;
              fetched_at := now;
              raw_item := item;
              price := i_price r;
              purpose := lit "for-sale";
              doc_loc := LocPlain (lit "UAE") |}
  | Raised => None
  end.

(** *** Properties of the matcher *)

Definition all_decimal (tok : str) : Prop := forallb is_decimal tok = true.

(** [u] carries [tok] as a detail id: [... details-<tok>.html ...]. *)
Definition carries (u tok : str) : Prop :=
  exists pre post, u = pre ++ DETAIL_PREFIX ++ tok ++ DETAIL_SUFFIX ++ post.

Lemma strip_app (p s r : str) : strip p s = Some r <-> s = p ++ r.
Proof.
  revert s; induction p as [|x p IH]; intros s; simpl.
  - split; [intros [= ->]; reflexivity | intros ->; reflexivity].
  - destruct s as [|y s]; [split; discriminate|].
    destruct (N.eqb_spec x y) as [->|Hne].
    + rewrite IH. split; [intros ->; reflexivity | intros [= ->]; reflexivity].
    + split; [discriminate | intros [= E _]; congruence].
Qed.

Lemma starts_with_app (p s : str) :
  starts_with p s = true <-> exists r, s = p ++ r.
Proof.
  revert s; induction p as [|x p IH]; intros s; simpl.
  - split; [intros _; exists s; reflexivity | reflexivity].
  - destruct s as [|y s]; [split; [discriminate | intros [r [=]]]|].
    rewrite andb_true_iff, N.eqb_eq, IH. split.
    + intros [-> [r ->]]. exists r; reflexivity.
    + intros [r [= -> ->]]. split; [reflexivity | exists r; reflexivity].
Qed.

Lemma span_digits_split (s ds rest : str) :
  span_digits s = (ds, rest) -> s = ds ++ rest /\ all_decimal ds.
Proof.
  unfold all_decimal.
  revert ds rest; induction s as [|c s IH]; intros ds rest; simpl.
  - intros [= <- <-]. split; reflexivity.
  - destruct (is_decimal c) eqn:Hc.
    + destruct (span_digits s) as [ds' rest'] eqn:Hs.
      intros [= <- <-]. destruct (IH _ _ eq_refl) as [-> Hd].
      split; [reflexivity | simpl; rewrite Hc; exact Hd].
    + intros [= <- <-]. split; reflexivity.
Qed.

Lemma span_digits_stop (ds rest : str) (c : N) :
  all_decimal ds -> is_decimal c = false ->
  span_digits (ds ++ c :: rest) = (ds, c :: rest).
Proof.
  unfold all_decimal. intros Hd Hc.
  induction ds as [|d ds IH]; simpl.
  - rewrite Hc; reflexivity.
  - simpl in Hd. apply andb_true_iff in Hd as [Hd1 Hd2].
    rewrite Hd1, (IH Hd2); reflexivity.
Qed.

Lemma match_here_sound (s tok : str) :
  match_here s = Some tok ->
  tok <> [] /\ all_decimal tok /\
  exists post, s = DETAIL_PREFIX ++ tok ++ DETAIL_SUFFIX ++ post.
Proof.
  unfold match_here.
  destruct (strip DETAIL_PREFIX s) as [s1|] eqn:Hs; [|discriminate].
  apply strip_app in Hs.
  destruct (span_digits s1) as [ds rest] eqn:Hd.
  apply span_digits_split in Hd as [-> Hall].
  destruct ds as [|d ds]; cbn [is_empty]; [discriminate|].
  destruct (starts_with DETAIL_SUFFIX rest) eqn:Hsuf; [|discriminate].
  apply starts_with_app in Hsuf as [post ->].
  intros [= <-]. repeat split; [discriminate | exact Hall |].
  exists post. exact Hs.
Qed.

Lemma match_here_complete (tok post : str) :
  tok <> [] -> all_decimal tok ->
  match_here (DETAIL_PREFIX ++ tok ++ DETAIL_SUFFIX ++ post) = Some tok.
Proof.
  intros Hne Hall. unfold match_here.
  assert (Hs : strip DETAIL_PREFIX (DETAIL_PREFIX ++ tok ++ DETAIL_SUFFIX ++ post)
               = Some (tok ++ DETAIL_SUFFIX ++ post)) by (apply strip_app; reflexivity).
  rewrite Hs.
  change (DETAIL_SUFFIX ++ post) with (46%N :: lit "html" ++ post).
  rewrite span_digits_stop by (assumption || reflexivity).
  destruct tok; [congruence|]. reflexivity.
Qed.

Lemma search_eq (s : str) :
  search s =
  match match_here s with
  | Some ds => Some ds
  | None => match s with [] => None | _ :: s' => search s' end
  end.
Proof. destruct s; reflexivity. Qed.

Lemma search_sound (s tok : str) :
  search s = Some tok -> tok <> [] /\ all_decimal tok /\ carries s tok.
Proof.
  induction s as [|c s IH]; rewrite search_eq;
    destruct (match_here _) eqn:Hm; try discriminate.
  - intros [= <-]. apply match_here_sound in Hm as (H1 & H2 & post & H3).
    repeat split; try assumption. exists [], post. exact H3.
  - intros H. destruct (IH H) as (H1 & H2 & pre & post & H3).
    repeat split; try assumption. exists (c :: pre), post. rewrite H3. reflexivity.
Qed.

Lemma search_complete (s tok : str) :
  tok <> [] -> all_decimal tok -> carries s tok -> search s <> None.
Proof.
  intros Hne Hall (pre & post & ->).
  induction pre as [|c pre IH]; rewrite search_eq.
  - rewrite app_nil_l, match_here_complete by assumption. discriminate.
  - destruct (match_here _); [discriminate | exact IH].
Qed.

(** *** Properties of the resolver *)

(** The [mainEntity] of a raw item, [None] when there is none. *)
Definition main_of (item : pyval) : pyval :=
  match item with
  | PDict it => get (lit "mainEntity") it
  | _ => PNone
  end.

(** The id that the URL itself carries, if any. *)
Definition url_token (url : pyval) : option str :=
  match url with
  | PStr u => search u
  | _ => None
  end.

Lemma utf8_char_length (c : N) : (length (utf8_char c) <= 4)%nat.
Proof.
  unfold utf8_char.
  repeat match goal with |- context [if ?b then _ else _] => destruct b end;
    simpl; lia.
Qed.

Lemma encode_utf8_length (s : str) :
  (length (encode_utf8_ignore s) <= 4 * length s)%nat.
Proof.
  unfold encode_utf8_ignore.
  induction s as [|c s IH]; simpl; [lia|].
  rewrite length_app. pose proof (utf8_char_length c). lia.
Qed.

Lemma hash_base_length (url main : pyval) :
  (length (hash_base url main) <= 256)%nat.
Proof. unfold hash_base. rewrite length_firstn. lia. Qed.

Lemma identify_inv (item : pyval) (r : identified) :
  identify item = Ok r ->
  (i_url r = PNone \/ exists u, i_url r = PStr u /\ u <> []) /\
  i_pid r = match url_token (i_url r) with
            | Some tok => tok
            | None => hash_id (i_url r) (main_of item)
            end.
Proof.
  unfold identify, main_of.
  destruct item as [| | | | | |it]; try discriminate.
  set (main := get (lit "mainEntity") it). clearbody main.
  assert (Hurl : forall url price,
    url = PNone \/ truthy url = true ->
    (pid <- property_id_from_url url ;;
     Ok {| i_position := get (lit "position") it; i_url := url; i_price := price;
           i_pid := match pid with
                    | Some tok => if is_empty tok then hash_id url main else tok
                    | None => hash_id url main
                    end |}) = Ok r ->
    (i_url r = PNone \/ exists u, i_url r = PStr u /\ u <> []) /\
    i_pid r = match url_token (i_url r) with
              | Some tok => tok
              | None => hash_id (i_url r) main
              end).
  { intros url price [-> | Ht].
    - cbn. intros [= <-]. cbn. split; [now left | reflexivity].
    - unfold property_id_from_url. rewrite Ht. cbn [negb].
      destruct url as [| | | |u| |]; try discriminate.
      cbn [Py.bind]. intros [= <-]; cbn [i_url i_pid url_token].
      split.
      + right. exists u. split; [reflexivity|]. destruct u; [discriminate Ht | discriminate].
      + destruct (search u) as [tok|] eqn:Hs; [|reflexivity].
        apply search_sound in Hs as (Hne & _). destruct tok; [congruence | reflexivity]. }
  destruct main as [| | | | | |m];
    try (cbn [Py.bind]; apply Hurl; now left).
  destruct (price_of m) as [p|]; cbn [Py.bind]; [|discriminate].
  apply Hurl. unfold py_or.
  destruct (truthy (get (lit "url") m)) eqn:Ht; [right; exact Ht | now left].
Qed.

(** [main.get("url") or None], [None] when [main] is not a dict. *)
Definition url_of (main : pyval) : pyval :=
  match main with
  | PDict m => py_or (get (lit "url") m) PNone
  | _ => PNone
  end.

Lemma identify_url (item : pyval) (r : identified) :
  identify item = Ok r -> i_url r = url_of (main_of item).
Proof.
  unfold identify, main_of, url_of.
  destruct item as [| | | | | |it]; try discriminate.
  destruct (get (lit "mainEntity") it) as [| | | | | |m]; cbn [Py.bind];
    try (destruct (property_id_from_url PNone); cbn [Py.bind];
         [intros [= <-]; reflexivity | discriminate]).
  destruct (price_of m) as [p|]; cbn [Py.bind]; [|discriminate].
  destruct (property_id_from_url (py_or (get (lit "url") m) PNone));
    cbn [Py.bind]; [intros [= <-]; reflexivity | discriminate].
Qed.

Lemma natural_id_not_hashed (tok rest : str) :
  tok <> [] -> all_decimal tok -> tok <> HASH_PREFIX ++ rest.
Proof.
  intros Hne Hall E. subst tok.
  change (HASH_PREFIX ++ rest) with (104%N :: lit "ash_" ++ rest) in Hall.
  unfold all_decimal in Hall. cbn [forallb] in Hall.
  apply andb_true_iff in Hall as [Hh _]. discriminate Hh.
Qed.

(** C9 (as amended).  For a raw item that the resolver accepts: every
    document built from it carries the same id, whatever the page, the
    clock, the location or the harvester; when the detail-URL pattern
    matches, the id is the captured run of decimal digits; otherwise it is
    ["hash_"] followed by the digest of the first 256 characters (code
    points, hence at most 1024 bytes of UTF-8) of the URL if there is one
    and of the serialized [mainEntity] if not; an id of the first kind
    never equals an id of the second kind; and two raw items with the same
    [mainEntity] get the same id, whatever else they hold. *)
Theorem resolver_identity (item : pyval) (r : identified) :
  identify item = Ok r ->
  (forall page t li l p, exists d,
      doc_from_item item page t li l p = Ok d /\
      property_id d = i_pid r /\ upsert_key d = i_pid r) /\
  (forall page now, exists d,
      extract_property_from_item item page now = Some d /\
      property_id d = i_pid r /\ upsert_key d = i_pid r) /\
  (forall tok, url_token (i_url r) = Some tok ->
      i_pid r = tok /\ tok <> [] /\ all_decimal tok /\
      exists u, i_url r = PStr u /\ carries u tok) /\
  (url_token (i_url r) = None ->
      let text := match i_url r with
                  | PStr u => u
                  | _ => dumps (main_of item)
                  end in
      let base := firstn 256 text in
      i_pid r = HASH_PREFIX ++ md5_hexdigest (encode_utf8_ignore base) /\
      (length base <= 256)%nat /\
      (length (encode_utf8_ignore base) <= 1024)%nat) /\
  (forall item' r', identify item' = Ok r' ->
      url_token (i_url r) <> None -> url_token (i_url r') = None ->
      i_pid r <> i_pid r') /\
  (forall item' r', identify item' = Ok r' ->
      main_of item' = main_of item -> i_pid r' = i_pid r).
Proof.
  intros H. destruct (identify_inv item r H) as [Hu Hp].
  split; [|split; [|split; [|split; [|split]]]].
  - intros. unfold doc_from_item. rewrite H. cbn [Py.bind].
    eexists; repeat split.
  - intros. unfold extract_property_from_item. rewrite H.
    eexists; repeat split.
  - intros tok Ht. rewrite Ht in Hp.
    destruct (i_url r) as [| | | |u| |]; try discriminate Ht.
    cbn [url_token] in Ht. apply search_sound in Ht as (Hne & Hall & Hc).
    repeat split; try assumption. exists u. split; [reflexivity | exact Hc].
  - intros Hn. rewrite Hn in Hp. cbv zeta. rewrite Hp.
    assert (Hb : hash_base (i_url r) (main_of item)
                 = firstn 256 match i_url r with
                              | PStr u => u
                              | _ => dumps (main_of item)
                              end).
    { unfold hash_base, py_or.
      destruct Hu as [-> | (u & -> & Hne)]; [reflexivity|].
      destruct u; [congruence | reflexivity]. }
    unfold hash_id. rewrite Hb. split; [reflexivity|].
    set (text := match i_url r with PStr u => u | _ => dumps (main_of item) end).
    assert (Hl : (length (firstn 256 text) <= 256)%nat)
      by (rewrite length_firstn; lia).
    split; [exact Hl|].
    pose proof (encode_utf8_length (firstn 256 text)). lia.
  - intros item' r' H' Hnat Hsyn E.
    destruct (identify_inv item' r' H') as [_ Hp'].
    rewrite Hsyn in Hp'.
    destruct (url_token (i_url r)) as [tok|] eqn:Ht; [|congruence].
    rewrite Hp in E.
    destruct (i_url r) as [| | | |u| |]; try discriminate Ht.
    cbn [url_token] in Ht. apply search_sound in Ht as (Hne & Hall & _).
    rewrite Hp' in E. unfold hash_id in E.
    exact (natural_id_not_hashed tok _ Hne Hall E).
  - intros item' r' H' Hmain.
    destruct (identify_inv item' r' H') as [_ Hp'].
    rewrite Hp, Hp', (identify_url item r H), (identify_url item' r' H'), Hmain.
    reflexivity.
Qed.

(** *** The id that a detail URL carries *)

Definition LETTER_D : N := 100.

Lemma match_here_needs_d (c : N) (s : str) :
  c <> LETTER_D -> match_here (c :: s) = None.
Proof.
  intros Hc. unfold match_here.
  change DETAIL_PREFIX with (LETTER_D :: lit "etails-"). cbn [strip].
  destruct (N.eqb_spec LETTER_D c) as [E | _]; [congruence | reflexivity].
Qed.

Lemma search_after (pre s : str) :
  ~ In LETTER_D pre -> search (pre ++ s) = search s.
Proof.
  induction pre as [|c pre IH]; intros H; [reflexivity|].
  cbn [app]. rewrite search_eq, match_here_needs_d.
  - apply IH. intros Hin. apply H. now right.
  - intros ->. apply H. now left.
Qed.

Lemma search_finds_token (pre tok post : str) :
  ~ In LETTER_D pre -> tok <> [] -> all_decimal tok ->
  search (pre ++ DETAIL_PREFIX ++ tok ++ DETAIL_SUFFIX ++ post) = Some tok.
Proof.
  intros Hpre Hne Hall.
  rewrite (search_after pre _ Hpre), search_eq, match_here_complete by assumption.
  reflexivity.
Qed.

(** X28.  A listing whose URL reads [details-<digits>.html], after a
    front part that holds no letter d and before anything at all, gets
    exactly those digits as its id, all of them: never a part of the
    run, never a [hash_] id. *)
Theorem detail_url_gives_its_id (item : pyval) (r : identified)
    (pre tok post : str) :
  identify item = Ok r ->
  i_url r = PStr (pre ++ DETAIL_PREFIX ++ tok ++ DETAIL_SUFFIX ++ post) ->
  ~ In LETTER_D pre -> tok <> [] -> all_decimal tok ->
  i_pid r = tok.
Proof.
  intros H Hu Hpre Hne Hall.
  destruct (identify_inv item r H) as [_ Hp].
  rewrite Hp, Hu. cbn [url_token].
  rewrite (search_finds_token pre tok post Hpre Hne Hall). reflexivity.
Qed.

End Resolver.

(** Stand-ins for the interpreter's tables and libraries, for running the
    resolver on examples: no digit beyond ASCII, a serializer that prints
    [null], and a digest that hands back the bytes it was given, so that
    what is hashed can be read off the id. *)
Definition ascii_Nd : N -> bool := fun _ => false.
Definition null_dumps : pyval -> str := fun _ => lit "null".
Definition echo_digest : list N -> str := fun bytes => bytes.

Definition sample_item (url : str) : pyval :=
  PDict [(lit "position", PInt 1);
         (lit "mainEntity", PDict [(lit "url", PStr url)])].

Definition detail_url (id : string) : str :=
  lit "https://www.bayut.com/property/details-" ++ lit id ++ lit ".html".

(** A raw item whose detail URL carries [id]. *)
Definition item_n (id : string) : pyval := sample_item (detail_url id).

(** The document the incremental harvester builds from [item_n id]. *)
Definition doc_n (id : string) (page_num t : Z) : harvest_doc :=
  {| upsert_key := lit id;
     property_id := lit id;
     position := PInt 1;
     detailed_url := PStr (detail_url id);
     page_number := page_num;
     fetched_at := t;
     raw_item := item_n id;
     price := PNone;
     purpose := lit "for-sale";
     doc_loc := LocPlain (lit "UAE") |}.

Lemma resolver_identity_witness :
  identify ascii_Nd null_dumps echo_digest
    (sample_item (lit "https://www.bayut.com/property/details-8412345.html"))
  = Ok {| i_position := PInt 1;
          i_url := PStr (lit "https://www.bayut.com/property/details-8412345.html");
          i_price := PNone;
          i_pid := lit "8412345" |} /\
  all_decimal ascii_Nd (lit "8412345").
Proof.
  assert (H : identify ascii_Nd null_dumps echo_digest
    (sample_item (lit "https://www.bayut.com/property/details-8412345.html"))
  = Ok {| i_position := PInt 1;
          i_url := PStr (lit "https://www.bayut.com/property/details-8412345.html");
          i_price := PNone;
          i_pid := lit "8412345" |}) by (vm_compute; reflexivity).
  split; [exact H|].
  destruct (resolver_identity ascii_Nd null_dumps echo_digest _ _ H) as (_ & _ & Hnat & _).
  destruct (Hnat (lit "8412345")) as (_ & _ & Hall & _);
    [vm_compute; reflexivity | exact Hall].
Defined.

(** C9, the claim as worded, fails on the bound in bytes: a URL of 300
    copies of U+00E9 carries no detail id, is cut to 256 characters, and
    the text that is hashed is 512 bytes long. *)
Lemma hashed_text_exceeds_256_bytes :
  url_token ascii_Nd (PStr (repeat 233%N 300)) = None /\
  i_pid <$> identify ascii_Nd null_dumps echo_digest (sample_item (repeat 233%N 300))
  = Ok (HASH_PREFIX ++ encode_utf8_ignore (repeat 233%N 256)) /\
  length (encode_utf8_ignore (repeat 233%N 256)) = 512%nat.
Proof. vm_compute. repeat split. Qed.

Lemma detail_url_gives_its_id_witness :
  i_pid <$> identify ascii_Nd null_dumps echo_digest
              (sample_item (lit "https://www.bayut.com/property/details-8412345.html?hl=en"))
  = Ok (lit "8412345").
Proof.
  destruct (identify ascii_Nd null_dumps echo_digest
              (sample_item (lit "https://www.bayut.com/property/details-8412345.html?hl=en")))
    as [r|] eqn:H; [|vm_compute in H; discriminate H].
  cbn [exc_map]. f_equal.
  apply (detail_url_gives_its_id ascii_Nd null_dumps echo_digest _ r
           (lit "https://www.bayut.com/property/") (lit "8412345") (lit "?hl=en") H).
  - vm_compute in H. injection H as <-. reflexivity.
  - vm_compute. intuition discriminate.
  - discriminate.
  - reflexivity.
Defined.

End Identity.

(** ** Dedup store

    The items collection and the upsert that [bulk_upsert_items]
    (ldjson harvester) and [_bulk_insert_properties] (incremental
    harvester) send for each document. *)

Module Store.

Import Identity.

(** One entry of [appearances]. *)
Record appearance := {
  a_page_number : Z;
  a_position : pyval;
  a_location : str;
  a_price : pyval;
  a_scraped_at : Z
}.

(** One row of the items collection. *)
Record item_row := {
  row_id : str;
  row_detailed_url : pyval;
  last_raw_item : pyval;
  last_seen : Z;
  last_page : Z;
  last_position : pyval;
  last_location : str;
  current_price : pyval;
  row_purpose : str;
  locations_seen : list str;
  appearances : list appearance;
  first_seen : Z;
  first_page : Z;
  first_location : str;
  detail_scraped : bool;
  created_at : Z;
  detail_scraped_at : option Z
}.

Definition APPEARANCES_KEPT : nat := 100.

(** [$addToSet] *)
Definition add_to_set (x : str) (s : list str) : list str :=
  if existsb (str_eqb x) s then s else s ++ [x].

(** [$push] of one element with [$slice: -n]. *)
Definition push_slice {A} (n : nat) (x : A) (l : list A) : list A :=
  skipn (length (l ++ [x]) - n) (l ++ [x]).

(** [find_one({"property_id": key})] *)
Fixpoint find_row (key : str) (coll : list item_row) : option item_row :=
  match coll with
  | [] => None
  | row :: rest => if str_eqb (row_id row) key then Some row else find_row key rest
  end.

(** [UpdateOne({"property_id": key}, ..., upsert=True)]: the first row
    with that id is updated, and a row is inserted when there is none. *)
Fixpoint update_one (key : str) (upd : item_row -> item_row) (ins : item_row)
    (coll : list item_row) : list item_row :=
  match coll with
  | [] => [ins]
  | row :: rest =>
      if str_eqb (row_id row) key then upd row :: rest
      else row :: update_one key upd ins rest
  end.

Inductive harvester := Ldjson | Incremental.

(** [d.get("location") or f"{d.get('city', '')}/{d.get('sublocation', '')}"]
    for the ldjson harvester, [prop["location"]] for the incremental one
    (whose documents always carry a plain location). *)
Definition location_str (h : harvester) (d : harvest_doc) : str :=
  match h, doc_loc d with
  | Ldjson, LocPlain l => if is_empty l then lit "/" else l
  | Ldjson, LocCsv row => city row ++ lit "/" ++ sublocation row
  | Ldjson, LocAbsent => lit "/"
  | Incremental, LocPlain l => l
  | Incremental, _ => []
  end.

Definition appearance_of (h : harvester) (d : harvest_doc) : appearance :=
  {| a_page_number := page_number d;
     a_position := position d;
     a_location := location_str h d;
     a_price := price d;
     a_scraped_at := fetched_at d |}.

(** The update applied to a row that exists: [$set], [$addToSet] and
    [$push]; [$setOnInsert] is skipped. *)
Definition on_match (h : harvester) (d : harvest_doc) (row : item_row) : item_row :=
  {| row_id := property_id d;
     row_detailed_url := detailed_url d;
     last_raw_item := raw_item d;
     last_seen := fetched_at d;
     last_page := page_number d;
     last_position := position d;
     last_location := location_str h d;
     current_price := price d;
     row_purpose := purpose d;
     locations_seen := add_to_set (location_str h d) (locations_seen row);
     appearances := push_slice APPEARANCES_KEPT (appearance_of h d) (appearances row);
     first_seen := first_seen row;
     first_page := first_page row;
     first_location := first_location row;
     detail_scraped := match h with
                       | Ldjson => detail_scraped row
                       | Incremental => false
                       end;
     created_at := created_at row;
     detail_scraped_at := detail_scraped_at row |}.

(** The row inserted when none matches: the filter's equality and every
    operator, [$setOnInsert] included. *)
Definition on_insert (h : harvester) (d : harvest_doc) : item_row :=
  {| row_id := property_id d;
     row_detailed_url := detailed_url d;
     last_raw_item := raw_item d;
     last_seen := fetched_at d;
     last_page := page_number d;
     last_position := position d;
     last_location := location_str h d;
     current_price := price d;
     row_purpose := purpose d;
     locations_seen := add_to_set (location_str h d) [];
     appearances := push_slice APPEARANCES_KEPT (appearance_of h d) [];
     first_seen := fetched_at d;
     first_page := page_number d;
     first_location := location_str h d;
     detail_scraped := false;
     created_at := fetched_at d;
     detail_scraped_at := None |}.

Definition upsert (h : harvester) (coll : list item_row) (d : harvest_doc)
  : list item_row :=
  update_one (upsert_key d) (on_match h d) (on_insert h d) coll.

(** [bulk_upsert_items] / [_bulk_insert_properties]: one upsert per
    document.  The write is unordered, so the store may take the
    operations in any order; [docs] is the order it took them in. *)
Definition bulk_upsert_items (h : harvester) (coll : list item_row)
    (docs : list harvest_doc) : list item_row :=
  fold_left (upsert h) docs coll.

(** A document as the harvesters build it: keyed by its own id. *)
Definition keyed (d : harvest_doc) : Prop := upsert_key d = property_id d.

(** The observations of [id] among [docs], in order. *)
Definition observations (h : harvester) (id : str) (docs : list harvest_doc)
  : list appearance :=
  map (appearance_of h) (filter (fun d => str_eqb (upsert_key d) id) docs).

(** The last [n] elements of a list. *)
Definition last_n {A} (n : nat) (l : list A) : list A := skipn (length l - n) l.

Definition item_inv (row : item_row) : Prop :=
  (length (appearances row) <= APPEARANCES_KEPT)%nat /\ NoDup (locations_seen row).

Definition store_inv (coll : list item_row) : Prop :=
  NoDup (map row_id coll) /\ Forall item_inv coll.

(** *** Lists kept to their last elements *)

Lemma last_n_length {A} (n : nat) (l : list A) :
  length (last_n n l) = Nat.min n (length l).
Proof. unfold last_n. rewrite length_skipn. lia. Qed.

Lemma last_n_short {A} (n : nat) (l : list A) :
  (length l <= n)%nat -> last_n n l = l.
Proof.
  intros H. unfold last_n. replace (length l - n)%nat with 0%nat by lia.
  reflexivity.
Qed.

Lemma last_n_app {A} (n : nat) (l m : list A) :
  last_n n (last_n n l ++ m) = last_n n (l ++ m).
Proof.
  destruct (Nat.le_gt_cases (length l) n) as [Hle | Hgt].
  - rewrite (last_n_short n l Hle). reflexivity.
  - unfold last_n at 1 3. rewrite !length_app, last_n_length.
    replace (Nat.min n (length l) + length m - n)%nat with (length m) by lia.
    replace (length l + length m - n)%nat
      with (length m + (length l - n))%nat by lia.
    rewrite <- skipn_skipn. f_equal.
    rewrite skipn_app.
    replace (length l - n - length l)%nat with 0%nat by lia.
    reflexivity.
Qed.

Lemma push_slice_last_n {A} (n : nat) (x : A) (l : list A) :
  push_slice n x l = last_n n (l ++ [x]).
Proof. reflexivity. Qed.

Lemma push_slice_bound {A} (n : nat) (x : A) (l : list A) :
  (length (push_slice n x l) <= n)%nat.
Proof. rewrite push_slice_last_n, last_n_length. lia. Qed.

(** *** Sets kept as lists *)

Lemma existsb_str_eqb (x : str) (s : list str) :
  existsb (str_eqb x) s = true <-> In x s.
Proof.
  rewrite existsb_exists. split.
  - intros (y & Hy & E). apply str_eqb_eq in E. subst y. exact Hy.
  - intros H. exists x. split; [exact H | apply str_eqb_refl].
Qed.

Lemma add_to_set_NoDup (x : str) (s : list str) :
  NoDup s -> NoDup (add_to_set x s).
Proof.
  intros H. unfold add_to_set.
  destruct (existsb (str_eqb x) s) eqn:E; [exact H|].
  apply NoDup_app; [exact H | repeat constructor; intros [] | ].
  intros y Hy [<- | []].
  apply existsb_str_eqb in Hy. congruence.
Qed.

Lemma add_to_set_In (x y : str) (s : list str) :
  In y (add_to_set x s) <-> y = x \/ In y s.
Proof.
  unfold add_to_set.
  destruct (existsb (str_eqb x) s) eqn:E.
  - apply existsb_str_eqb in E. split; [now right | intros [-> | H]; assumption].
  - rewrite in_app_iff. simpl. intuition congruence.
Qed.

(** *** One upsert *)

Lemma find_row_None (key : str) (coll : list item_row) :
  find_row key coll = None <-> ~ In key (map row_id coll).
Proof.
  induction coll as [|row rest IH]; simpl; [tauto|].
  destruct (str_eqb (row_id row) key) eqn:E.
  - apply str_eqb_eq in E. split; [discriminate | tauto].
  - apply str_eqb_neq in E. rewrite IH. tauto.
Qed.

Lemma find_row_id (key : str) (coll : list item_row) (row : item_row) :
  find_row key coll = Some row -> row_id row = key.
Proof.
  induction coll as [|r rest IH]; simpl; [discriminate|].
  destruct (str_eqb (row_id r) key) eqn:E; [|exact IH].
  intros [= <-]. apply str_eqb_eq; exact E.
Qed.

Lemma upsert_ids (h : harvester) (coll : list item_row) (d : harvest_doc) :
  keyed d ->
  map row_id (upsert h coll d) =
  match find_row (upsert_key d) coll with
  | Some _ => map row_id coll
  | None => map row_id coll ++ [upsert_key d]
  end.
Proof.
  intros Hk. unfold upsert.
  induction coll as [|row rest IH]; simpl.
  - rewrite <- Hk. reflexivity.
  - destruct (str_eqb (row_id row) (upsert_key d)) eqn:E; simpl.
    + apply str_eqb_eq in E. rewrite <- Hk, E. reflexivity.
    + rewrite IH. destruct (find_row (upsert_key d) rest); reflexivity.
Qed.

Lemma upsert_find_same (h : harvester) (coll : list item_row) (d : harvest_doc) :
  keyed d ->
  find_row (upsert_key d) (upsert h coll d) =
  Some match find_row (upsert_key d) coll with
       | Some row => on_match h d row
       | None => on_insert h d
       end.
Proof.
  intros Hk. unfold upsert.
  induction coll as [|row rest IH]; simpl.
  - rewrite <- Hk, str_eqb_refl. reflexivity.
  - destruct (str_eqb (row_id row) (upsert_key d)) eqn:E; simpl.
    + rewrite <- Hk, str_eqb_refl. reflexivity.
    + rewrite E. exact IH.
Qed.

Lemma upsert_find_other (h : harvester) (coll : list item_row) (d : harvest_doc)
    (id : str) :
  keyed d -> upsert_key d <> id ->
  find_row id (upsert h coll d) = find_row id coll.
Proof.
  intros Hk Hne. unfold upsert.
  assert (Hf : str_eqb (property_id d) id = false)
    by (apply str_eqb_neq; rewrite <- Hk; exact Hne).
  induction coll as [|row rest IH]; simpl.
  - rewrite Hf. reflexivity.
  - destruct (str_eqb (row_id row) (upsert_key d)) eqn:E; simpl.
    + apply str_eqb_eq in E. rewrite Hf.
      destruct (str_eqb (row_id row) id) eqn:E'; [|reflexivity].
      apply str_eqb_eq in E'. congruence.
    + rewrite IH. reflexivity.
Qed.

Lemma on_match_inv (h : harvester) (d : harvest_doc) (row : item_row) :
  item_inv row -> item_inv (on_match h d row).
Proof.
  intros [_ Hn]. split; unfold on_match; cbn [appearances locations_seen].
  - apply push_slice_bound.
  - apply add_to_set_NoDup; exact Hn.
Qed.

Lemma on_insert_inv (h : harvester) (d : harvest_doc) : item_inv (on_insert h d).
Proof.
  split; unfold on_insert; cbn [appearances locations_seen].
  - apply push_slice_bound.
  - apply add_to_set_NoDup; constructor.
Qed.

Lemma upsert_rows_inv (h : harvester) (coll : list item_row) (d : harvest_doc) :
  Forall item_inv coll -> Forall item_inv (upsert h coll d).
Proof.
  unfold upsert. induction 1 as [|row rest Hrow Hrest IH]; simpl.
  - constructor; [apply on_insert_inv | constructor].
  - destruct (str_eqb (row_id row) (upsert_key d)).
    + constructor; [apply on_match_inv; exact Hrow | exact Hrest].
    + constructor; [exact Hrow | exact IH].
Qed.

Lemma upsert_store_inv (h : harvester) (coll : list item_row) (d : harvest_doc) :
  keyed d -> store_inv coll -> store_inv (upsert h coll d).
Proof.
  intros Hk [Hnd Hrows]. split; [|apply upsert_rows_inv; exact Hrows].
  rewrite (upsert_ids h coll d Hk).
  destruct (find_row (upsert_key d) coll) eqn:E; [exact Hnd|].
  apply find_row_None in E.
  apply NoDup_app; [exact Hnd | repeat constructor; intros [] |].
  intros y Hy [<- | []]. exact (E Hy).
Qed.

(** *** A batch of upserts *)

Lemma find_row_In (key : str) (coll : list item_row) (row : item_row) :
  find_row key coll = Some row -> In row coll.
Proof.
  induction coll as [|r rest IH]; simpl; [discriminate|].
  destruct (str_eqb (row_id r) key); [intros [= <-]; now left | right; auto].
Qed.

Lemma bulk_store_inv (h : harvester) (docs : list harvest_doc) :
  forall coll, Forall keyed docs -> store_inv coll ->
  store_inv (bulk_upsert_items h coll docs).
Proof.
  unfold bulk_upsert_items.
  induction docs as [|d ds IH]; intros coll Hk Hinv; simpl; [exact Hinv|].
  inversion Hk as [|? ? Hd Hds]; subst.
  apply IH; [exact Hds | apply upsert_store_inv; assumption].
Qed.

Lemma observations_cons (h : harvester) (id : str) (d : harvest_doc)
    (ds : list harvest_doc) :
  observations h id (d :: ds) =
  if str_eqb (upsert_key d) id
  then appearance_of h d :: observations h id ds
  else observations h id ds.
Proof.
  unfold observations. simpl.
  destruct (str_eqb (upsert_key d) id); reflexivity.
Qed.

Lemma bulk_existing (h : harvester) (docs : list harvest_doc) :
  forall coll id row,
  Forall keyed docs ->
  (length (appearances row) <= APPEARANCES_KEPT)%nat ->
  find_row id coll = Some row ->
  exists row',
    find_row id (bulk_upsert_items h coll docs) = Some row' /\
    first_seen row' = first_seen row /\
    first_page row' = first_page row /\
    first_location row' = first_location row /\
    created_at row' = created_at row /\
    appearances row' =
      last_n APPEARANCES_KEPT (appearances row ++ observations h id docs).
Proof.
  unfold bulk_upsert_items.
  induction docs as [|d ds IH]; intros coll id row Hk Hlen Hf; simpl.
  - exists row. rewrite app_nil_r, last_n_short by exact Hlen. tauto.
  - inversion Hk as [|? ? Hd Hds]; subst.
    rewrite observations_cons.
    destruct (str_eqb (upsert_key d) id) eqn:E.
    + apply str_eqb_eq in E. subst id.
      pose proof (upsert_find_same h coll d Hd) as Hs. rewrite Hf in Hs.
      destruct (IH _ _ (on_match h d row) Hds (push_slice_bound _ _ _) Hs)
        as (row' & H1 & H2 & H3 & H4 & H5 & H6).
      exists row'. repeat (split; [assumption|]).
      rewrite H6. unfold on_match; cbn [appearances].
      rewrite push_slice_last_n, last_n_app, <- app_assoc. reflexivity.
    + apply str_eqb_neq in E.
      pose proof (upsert_find_other h coll d id Hd E) as Ho. rewrite Hf in Ho.
      exact (IH _ _ _ Hds Hlen Ho).
Qed.

Lemma bulk_fresh (h : harvester) (docs : list harvest_doc) :
  forall coll id d rest,
  Forall keyed docs ->
  find_row id coll = None ->
  filter (fun d => str_eqb (upsert_key d) id) docs = d :: rest ->
  exists row',
    find_row id (bulk_upsert_items h coll docs) = Some row' /\
    first_seen row' = fetched_at d /\
    first_page row' = page_number d /\
    first_location row' = location_str h d /\
    created_at row' = fetched_at d /\
    appearances row' = last_n APPEARANCES_KEPT (observations h id docs).
Proof.
  induction docs as [|d0 ds IH]; intros coll id d rest Hk Hf Hfil;
    [discriminate|].
  inversion Hk as [|? ? Hd Hds]; subst.
  simpl in Hfil. rewrite observations_cons.
  destruct (str_eqb (upsert_key d0) id) eqn:E.
  - injection Hfil as -> _.
    apply str_eqb_eq in E. subst id.
    pose proof (upsert_find_same h coll d Hd) as Hs. rewrite Hf in Hs.
    destruct (bulk_existing h ds _ _ (on_insert h d) Hds (push_slice_bound _ _ _) Hs)
      as (row' & H1 & H2 & H3 & H4 & H5 & H6).
    exists row'. split; [exact H1|]. repeat (split; [assumption|]).
    rewrite H6. unfold on_insert; cbn [appearances].
    rewrite push_slice_last_n, last_n_app. reflexivity.
  - apply str_eqb_neq in E.
    pose proof (upsert_find_other h coll d0 id Hd E) as Ho. rewrite Hf in Ho.
    exact (IH _ _ _ _ Hds Ho Hfil).
Qed.

Lemma bulk_absent (h : harvester) (docs : list harvest_doc) :
  forall coll id,
  Forall keyed docs ->
  find_row id coll = None ->
  filter (fun d => str_eqb (upsert_key d) id) docs = [] ->
  find_row id (bulk_upsert_items h coll docs) = None.
Proof.
  induction docs as [|d0 ds IH]; intros coll id Hk Hf Hfil; [exact Hf|].
  inversion Hk as [|? ? Hd Hds]; subst.
  simpl in Hfil.
  destruct (str_eqb (upsert_key d0) id) eqn:E; [discriminate|].
  apply str_eqb_neq in E.
  pose proof (upsert_find_other h coll d0 id Hd E) as Ho. rewrite Hf in Ho.
  exact (IH _ _ Hds Ho Hfil).
Qed.

Lemma bulk_keeps_known (h : harvester) (docs : list harvest_doc) :
  forall coll id,
  Forall keyed docs ->
  find_row id coll <> None ->
  find_row id (bulk_upsert_items h coll docs) <> None.
Proof.
  unfold bulk_upsert_items.
  induction docs as [|d ds IH]; intros coll id Hk Hf; simpl; [exact Hf|].
  inversion Hk as [|? ? Hd Hds]; subst.
  apply IH; [exact Hds|].
  destruct (str_eqb (upsert_key d) id) eqn:E.
  - apply str_eqb_eq in E. subst id.
    rewrite (upsert_find_same h coll d Hd). discriminate.
  - apply str_eqb_neq in E.
    rewrite (upsert_find_other h coll d id Hd E). exact Hf.
Qed.

(** C7.  Starting from a collection whose ids are distinct and whose
    rows satisfy the item invariant, any batch of upserts, taken in any
    order, leaves a collection with distinct ids whose rows have at most
    100 appearances and duplicate-free [locations_seen].  A row that
    existed keeps its [first_seen], [first_page], [first_location] and
    [created_at], and its appearances are the last 100 of the old ones
    followed by the new observations of its id, in arrival order.  An id
    that was absent gets one row, created by the first document that
    names it, and no row appears for an id that no document names. *)
Theorem upsert_keeps_item_invariant (h : harvester) (coll : list item_row)
    (docs : list harvest_doc) :
  Forall keyed docs ->
  store_inv coll ->
  let coll' := bulk_upsert_items h coll docs in
  store_inv coll' /\
  (forall id row, find_row id coll = Some row ->
     exists row',
       find_row id coll' = Some row' /\
       first_seen row' = first_seen row /\
       first_page row' = first_page row /\
       first_location row' = first_location row /\
       created_at row' = created_at row /\
       appearances row' =
         last_n APPEARANCES_KEPT (appearances row ++ observations h id docs)) /\
  (forall id d rest, find_row id coll = None ->
     filter (fun d => str_eqb (upsert_key d) id) docs = d :: rest ->
     exists row',
       find_row id coll' = Some row' /\
       first_seen row' = fetched_at d /\
       first_page row' = page_number d /\
       first_location row' = location_str h d /\
       created_at row' = fetched_at d /\
       appearances row' = last_n APPEARANCES_KEPT (observations h id docs)) /\
  (forall id, find_row id coll = None ->
     filter (fun d => str_eqb (upsert_key d) id) docs = [] ->
     find_row id coll' = None).
Proof.
  intros Hk Hinv coll'. subst coll'.
  split; [apply bulk_store_inv; assumption|].
  split; [|split].
  - intros id row Hf. apply bulk_existing; try assumption.
    destruct Hinv as [_ Hrows]. rewrite Forall_forall in Hrows.
    exact (proj1 (Hrows row (find_row_In id coll row Hf))).
  - intros id d rest Hf Hfil. exact (bulk_fresh h docs coll id d rest Hk Hf Hfil).
  - intros id Hf Hfil. exact (bulk_absent h docs coll id Hk Hf Hfil).
Qed.

(** One sighting at time 10, then a hundred at time 20. *)
Definition sightings : list harvest_doc :=
  doc_n "7" 1 10 :: repeat (doc_n "7" 2 20) 100.

Lemma upsert_keeps_item_invariant_witness :
  exists row,
    find_row (lit "7") (bulk_upsert_items Ldjson [] sightings) = Some row /\
    first_seen row = 10%Z /\
    last_seen row = 20%Z /\
    length (appearances row) = 100%nat /\
    map a_scraped_at (appearances row) = repeat 20%Z 100.
Proof.
  assert (Hk : Forall keyed sightings).
  { unfold sightings. constructor; [reflexivity|].
    apply Forall_forall. intros d Hd. apply repeat_spec in Hd. subst d.
    reflexivity. }
  assert (Hi : store_inv []) by (split; constructor).
  destruct (upsert_keeps_item_invariant Ldjson [] sightings Hk Hi)
    as (_ & _ & Hfresh & _).
  destruct (Hfresh (lit "7") (doc_n "7" 1 10) (repeat (doc_n "7" 2 20) 100))
    as (row & Hf & H1 & _ & _ & _ & Happ); [reflexivity | vm_compute; reflexivity |].
  exists row. split; [exact Hf|]. split; [exact H1|].
  rewrite Happ.
  assert (Hl : Some (last_seen row) = Some 20%Z)
    by (change (Some (last_seen row)) with (option_map last_seen (Some row));
        rewrite <- Hf; vm_compute; reflexivity).
  injection Hl as ->.
  split; [reflexivity|]. vm_compute. split; reflexivity.
Defined.

(** *** What a batch leaves in a row *)

(** The documents of a batch that name [id], in arrival order. *)
Definition mentions (id : str) (docs : list harvest_doc) : list harvest_doc :=
  filter (fun d => str_eqb (upsert_key d) id) docs.

(** The row carries the [$set] fields of [d]. *)
Definition latest (h : harvester) (d : harvest_doc) (row : item_row) : Prop :=
  row_id row = property_id d /\
  row_detailed_url row = detailed_url d /\
  last_raw_item row = raw_item d /\
  last_seen row = fetched_at d /\
  last_page row = page_number d /\
  last_position row = position d /\
  last_location row = location_str h d /\
  current_price row = price d /\
  row_purpose row = purpose d.

Lemma bulk_app (h : harvester) (coll : list item_row) (docs more : list harvest_doc) :
  bulk_upsert_items h coll (docs ++ more) =
  bulk_upsert_items h (bulk_upsert_items h coll docs) more.
Proof. unfold bulk_upsert_items. apply fold_left_app. Qed.

Lemma mentions_app (id : str) (docs more : list harvest_doc) :
  mentions id (docs ++ more) = mentions id docs ++ mentions id more.
Proof. unfold mentions. apply filter_app. Qed.

Lemma bulk_untouched (h : harvester) (docs : list harvest_doc) :
  forall coll id,
  Forall keyed docs -> mentions id docs = [] ->
  find_row id (bulk_upsert_items h coll docs) = find_row id coll.
Proof.
  induction docs as [|d ds IH]; intros coll id Hk Hm; [reflexivity|].
  inversion Hk as [|? ? Hd Hds]; subst.
  unfold mentions in Hm. cbn [filter] in Hm.
  destruct (str_eqb (upsert_key d) id) eqn:E; [discriminate|].
  apply str_eqb_neq in E.
  change (bulk_upsert_items h coll (d :: ds))
    with (bulk_upsert_items h (upsert h coll d) ds).
  rewrite (IH _ _ Hds Hm). apply upsert_find_other; assumption.
Qed.

Lemma upsert_latest (h : harvester) (coll : list item_row) (d : harvest_doc) :
  keyed d ->
  exists row, find_row (upsert_key d) (upsert h coll d) = Some row /\ latest h d row.
Proof.
  intros Hk. rewrite (upsert_find_same h coll d Hk).
  destruct (find_row (upsert_key d) coll) as [row|];
    eexists; (split; [reflexivity|]); repeat split.
Qed.

Lemma bulk_latest (h : harvester) (docs : list harvest_doc) :
  forall coll id pre d,
  Forall keyed docs -> mentions id docs = pre ++ [d] ->
  exists row, find_row id (bulk_upsert_items h coll docs) = Some row /\ latest h d row.
Proof.
  induction docs as [|x docs IH] using rev_ind; intros coll id pre d Hk Hm.
  - destruct pre; discriminate Hm.
  - apply Forall_app in Hk as [Hdocs Hx].
    inversion Hx as [|? ? Hkx _]; subst.
    rewrite mentions_app in Hm. unfold mentions at 2 in Hm. cbn [filter] in Hm.
    rewrite bulk_app.
    change (bulk_upsert_items h (bulk_upsert_items h coll docs) [x])
      with (upsert h (bulk_upsert_items h coll docs) x).
    destruct (str_eqb (upsert_key x) id) eqn:E.
    + apply app_inj_tail in Hm as [_ ->].
      apply str_eqb_eq in E. subst id. apply upsert_latest; exact Hkx.
    + rewrite app_nil_r in Hm. apply str_eqb_neq in E.
      rewrite (upsert_find_other h _ x id Hkx E).
      exact (IH coll id pre d Hdocs Hm).
Qed.

(** X1.  After a batch of upserts the row of an id that the batch names
    carries the url, raw item, time, page, position, location, price and
    purpose of the last document that names it, whatever the earlier
    ones said; and the lookup of an id that no document names gives
    what it gave before, the row untouched in every field. *)
Theorem batch_last_write_wins (h : harvester) (coll : list item_row)
    (docs : list harvest_doc) :
  Forall keyed docs ->
  (forall id pre d, mentions id docs = pre ++ [d] ->
     exists row,
       find_row id (bulk_upsert_items h coll docs) = Some row /\ latest h d row) /\
  (forall id, mentions id docs = [] ->
     find_row id (bulk_upsert_items h coll docs) = find_row id coll).
Proof.
  intros Hk. split.
  - intros id pre d Hm. exact (bulk_latest h docs coll id pre d Hk Hm).
  - intros id Hm. exact (bulk_untouched h docs coll id Hk Hm).
Qed.

Lemma batch_last_write_wins_witness :
  exists row,
    find_row (lit "7") (bulk_upsert_items Ldjson [] sightings) = Some row /\
    last_seen row = 20%Z /\ last_page row = 2%Z /\
    find_row (lit "8") (bulk_upsert_items Ldjson [] sightings) = None.
Proof.
  assert (Hk : Forall keyed sightings).
  { unfold sightings. constructor; [reflexivity|].
    apply Forall_forall. intros d Hd. apply repeat_spec in Hd. subst d.
    reflexivity. }
  destruct (batch_last_write_wins Ldjson [] sightings Hk) as [Hlast Hframe].
  destruct (Hlast (lit "7") (doc_n "7" 1 10 :: repeat (doc_n "7" 2 20) 99)
              (doc_n "7" 2 20)) as (row & Hf & Hl);
    [vm_compute; reflexivity|].
  exists row. split; [exact Hf|].
  destruct Hl as (_ & _ & _ & Hs & Hp & _).
  split; [exact Hs|]. split; [exact Hp|].
  rewrite Hframe; [reflexivity | vm_compute; reflexivity].
Defined.

Lemma bulk_seen (h : harvester) (docs : list harvest_doc) :
  forall coll id row,
  Forall keyed docs -> find_row id coll = Some row ->
  exists row',
    find_row id (bulk_upsert_items h coll docs) = Some row' /\
    (forall l, In l (locations_seen row') <->
       In l (locations_seen row) \/
       exists d, In d (mentions id docs) /\ location_str h d = l) /\
    detail_scraped_at row' = detail_scraped_at row /\
    (h = Ldjson -> detail_scraped row' = detail_scraped row) /\
    (h = Incremental -> mentions id docs <> [] -> detail_scraped row' = false).
Proof.
  induction docs as [|d ds IH]; intros coll id row Hk Hf.
  - exists row. split; [exact Hf|]. split; [|split; [|split]]; try reflexivity.
    + intros l. split; [now left | intros [H | (d & [] & _)]; exact H].
    + intros _ H. exfalso. apply H. reflexivity.
  - inversion Hk as [|? ? Hd Hds]; subst.
    change (bulk_upsert_items h coll (d :: ds))
      with (bulk_upsert_items h (upsert h coll d) ds).
    unfold mentions. cbn [filter]. fold (mentions id ds).
    destruct (str_eqb (upsert_key d) id) eqn:E.
    + apply str_eqb_eq in E. subst id.
      pose proof (upsert_find_same h coll d Hd) as Hs. rewrite Hf in Hs.
      destruct (IH _ _ (on_match h d row) Hds Hs)
        as (row' & H1 & H2 & H3 & H4 & H5).
      exists row'. split; [exact H1|]. split; [|split; [|split]].
      * intros l. rewrite H2. unfold on_match at 1; cbn [locations_seen].
        rewrite add_to_set_In. split.
        -- intros [[-> | H] | (d' & Hin & Hl)].
           ++ right. exists d. split; [now left | reflexivity].
           ++ now left.
           ++ right. exists d'. split; [now right | exact Hl].
        -- intros [H | (d' & [<- | Hin] & Hl)].
           ++ left. now right.
           ++ left. left. symmetry. exact Hl.
           ++ right. exists d'. split; assumption.
      * rewrite H3. reflexivity.
      * intros ->. rewrite (H4 eq_refl). reflexivity.
      * intros -> _.
        destruct (mentions (upsert_key d) ds) as [|d' rest] eqn:Hm.
        -- pose proof (bulk_untouched Incremental ds (upsert Incremental coll d)
                         (upsert_key d) Hds Hm) as Hu.
           rewrite H1, Hs in Hu. injection Hu as ->. reflexivity.
        -- apply (H5 eq_refl). discriminate.
    + apply str_eqb_neq in E.
      pose proof (upsert_find_other h coll d id Hd E) as Ho. rewrite Hf in Ho.
      exact (IH _ _ row Hds Ho).
Qed.

(** X2.  Over a batch, [locations_seen] of a row that existed behaves as
    a set: afterwards it holds exactly the locations it held and the
    locations of the documents that name the row.  The batch never
    touches [detail_scraped_at]; the ldjson harvester leaves
    [detail_scraped] as it was, so a listing whose detail page was
    scraped is not queued again by being seen again, while an upsert of
    the incremental harvester clears the flag. *)
Theorem batch_locations_and_detail_flag (h : harvester) (coll : list item_row)
    (docs : list harvest_doc) (id : str) (row : item_row) :
  Forall keyed docs ->
  find_row id coll = Some row ->
  exists row',
    find_row id (bulk_upsert_items h coll docs) = Some row' /\
    (forall l, In l (locations_seen row') <->
       In l (locations_seen row) \/
       exists d, In d (mentions id docs) /\ location_str h d = l) /\
    detail_scraped_at row' = detail_scraped_at row /\
    (h = Ldjson -> detail_scraped row' = detail_scraped row) /\
    (h = Incremental -> mentions id docs <> [] -> detail_scraped row' = false).
Proof. intros Hk Hf. exact (bulk_seen h docs coll id row Hk Hf). Qed.

(** A row whose detail page was scraped at time 15. *)
Definition scraped_row : item_row :=
  {| row_id := lit "7";
     row_detailed_url := PStr (detail_url "7");
     last_raw_item := item_n "7";
     last_seen := 10; last_page := 1; last_position := PInt 1;
     last_location := lit "Dubai/Dubai Marina";
     current_price := PNone; row_purpose := lit "for-sale";
     locations_seen := [lit "Dubai/Dubai Marina"];
     appearances := [];
     first_seen := 10; first_page := 1;
     first_location := lit "Dubai/Dubai Marina";
     detail_scraped := true; created_at := 10;
     detail_scraped_at := Some 15%Z |}.

Lemma batch_locations_and_detail_flag_witness :
  exists row',
    find_row (lit "7")
      (bulk_upsert_items Ldjson [scraped_row] [doc_n "7" 2 20; doc_n "8" 2 20])
    = Some row' /\
    In (lit "UAE") (locations_seen row') /\
    In (lit "Dubai/Dubai Marina") (locations_seen row') /\
    detail_scraped row' = true /\
    detail_scraped_at row' = Some 15%Z.
Proof.
  destruct (batch_locations_and_detail_flag Ldjson [scraped_row]
              [doc_n "7" 2 20; doc_n "8" 2 20] (lit "7") scraped_row)
    as (row' & Hf & Hl & Ht & Hd & _).
  - repeat constructor.
  - vm_compute. reflexivity.
  - exists row'. split; [exact Hf|].
    split; [|split; [|split]].
    + apply Hl. right. exists (doc_n "7" 2 20).
      split; [vm_compute; left; reflexivity | vm_compute; reflexivity].
    + apply Hl. left. vm_compute. left. reflexivity.
    + rewrite (Hd eq_refl). reflexivity.
    + rewrite Ht. reflexivity.
Defined.

Lemma find_row_known (key : str) (coll : list item_row) (row : item_row) :
  find_row key coll = Some row -> In key (map row_id coll).
Proof.
  intros H. rewrite <- (find_row_id key coll row H).
  apply in_map. exact (find_row_In key coll row H).
Qed.

Lemma bulk_ids (h : harvester) (docs : list harvest_doc) :
  forall coll, Forall keyed docs ->
  exists added,
    map row_id (bulk_upsert_items h coll docs) = map row_id coll ++ added /\
    forall id, In id added <->
      ~ In id (map row_id coll) /\ exists d, In d docs /\ upsert_key d = id.
Proof.
  induction docs as [|d ds IH]; intros coll Hk.
  - exists []. split; [cbn; rewrite app_nil_r; reflexivity|].
    intros id. split; [intros [] | intros (_ & d & [] & _)].
  - inversion Hk as [|? ? Hd Hds]; subst.
    change (bulk_upsert_items h coll (d :: ds))
      with (bulk_upsert_items h (upsert h coll d) ds).
    destruct (IH (upsert h coll d) Hds) as (added & Hids & Hin).
    rewrite (upsert_ids h coll d Hd) in Hids, Hin.
    destruct (find_row (upsert_key d) coll) as [row|] eqn:Hf.
    + exists added. split; [exact Hids|].
      intros id. rewrite Hin. split.
      * intros (Hn & d' & Hd' & E). split; [exact Hn|].
        exists d'. split; [now right | exact E].
      * intros (Hn & d' & [<- | Hd'] & E).
        -- exfalso. apply Hn. rewrite <- E.
           exact (find_row_known _ _ _ Hf).
        -- split; [exact Hn|]. exists d'. split; assumption.
    + apply find_row_None in Hf.
      exists (upsert_key d :: added). split.
      * rewrite Hids, <- app_assoc. reflexivity.
      * intros id. cbn [In]. rewrite Hin, in_app_iff. cbn [In].
        destruct (str_eqb (upsert_key d) id) eqn:E.
        -- apply str_eqb_eq in E. subst id. split.
           ++ intros _. split; [exact Hf|]. exists d. split; [now left | reflexivity].
           ++ intros _. now left.
        -- apply str_eqb_neq in E. split.
           ++ intros [H | (Hn & d' & Hd' & E')]; [contradiction|].
              split; [tauto|]. exists d'. split; [now right | exact E'].
           ++ intros (Hn & d' & [<- | Hd'] & E'); [contradiction|].
              right. split; [tauto|]. exists d'. split; assumption.
Qed.

(** X3.  A batch of upserts never deletes or moves a row: the ids of
    the collection afterwards are the ids before, in the same order,
    followed by the ids that were added, and an id was added exactly
    when it was not in the collection and some document names it. *)
Theorem batch_only_adds_rows (h : harvester) (coll : list item_row)
    (docs : list harvest_doc) :
  Forall keyed docs ->
  exists added,
    map row_id (bulk_upsert_items h coll docs) = map row_id coll ++ added /\
    forall id, In id added <->
      ~ In id (map row_id coll) /\ exists d, In d docs /\ upsert_key d = id.
Proof. intros Hk. exact (bulk_ids h docs coll Hk). Qed.

Lemma batch_only_adds_rows_witness :
  exists added,
    map row_id
      (bulk_upsert_items Ldjson [scraped_row] [doc_n "8" 1 20; doc_n "7" 1 20])
    = [lit "7"] ++ added /\
    In (lit "8") added /\ ~ In (lit "7") added.
Proof.
  destruct (batch_only_adds_rows Ldjson [scraped_row] [doc_n "8" 1 20; doc_n "7" 1 20])
    as (added & Hids & Hin); [repeat constructor|].
  exists added. split; [exact Hids|]. split.
  - apply Hin. split.
    + intros [H | []]. vm_compute in H. discriminate H.
    + exists (doc_n "8" 1 20). split; [now left | reflexivity].
  - intros H. apply Hin in H as [Hn _]. apply Hn. now left.
Defined.

End Store.

(** ** The identity resolver of the CSV scraper

    [DETAIL_ID_RE], [property_id_from_url] and [doc_from_item] of
    [bayut_csv_scraper.py].  The lines are those of the other
    harvesters; the pattern is not: it is written
    [r"details-(\\d+)\\.html"], with doubled backslashes in a raw
    string. *)

Module CsvScraper.

Import Identity.

Definition BACKSLASH : N := 92.
Definition LETTER_D : N := 100.
Definition NEWLINE : N := 10.

(** The longest run of the letter d at the front of [s], and what
    follows. *)
Fixpoint span_d (s : str) : str * str :=
  match s with
  | c :: s' =>
      if (c =? LETTER_D)%N
      then let (ds, rest) := span_d s' in (c :: ds, rest)
      else ([], s)
  | [] => ([], [])
  end.

(** [details-(\\d+)\\.html] anchored at the front of [s]: the prefix, a
    backslash, one or more letters d, a backslash, any character but a
    newline, and [html].  Group 1 is the first backslash and the letters.
    [d+] is greedy; giving a letter back never helps, since the character
    that would then face the backslash is a d. *)
Definition match_here (s : str) : option str :=
  match strip DETAIL_PREFIX s with
  | Some (c :: s1) =>
      if (c =? BACKSLASH)%N then
        let (ds, rest) := span_d s1 in
        if is_empty ds then None
        else
          match rest with
          | b :: any :: rest' =>
              if (b =? BACKSLASH)%N && negb (any =? NEWLINE)%N &&
                 starts_with (lit "html") rest'
              then Some (c :: ds) else None
          | _ => None
          end
      else None
  | _ => None
  end.

(** [DETAIL_ID_RE.search(s)], group 1 of the leftmost match. *)
Fixpoint search (s : str) : option str :=
  match match_here s with
  | Some tok => Some tok
  | None =>
      match s with
      | [] => None
      | _ :: s' => search s'
      end
  end.

Definition property_id_from_url (u : pyval) : exc (option str) :=
  if negb (truthy u) then Ok None
  else match u with
       | PStr s => Ok (search s)
       | _ => Raised
       end.

Section Resolver.

Variable dumps : pyval -> str.
Variable md5_hexdigest : list N -> str.

(** From [pos = item.get("position")] to the assignment of [pid]. *)
Definition identify (item : pyval) : exc identified :=
  match item with
  | PDict it =>
      let pos := get (lit "position") it in
      let main := get (lit "mainEntity") it in
      ' (url, price) <-
        match main with
        | PDict m =>
            p <- price_of m ;;
            Ok (py_or (get (lit "url") m) PNone, p)
        | _ => Ok (PNone, PNone)
        end ;;
      pid <- property_id_from_url url ;;
      Ok {| i_position := pos; i_url := url; i_price := price;
            i_pid := match pid with
                     | Some tok =>
                         if is_empty tok then hash_id dumps md5_hexdigest url main
                         else tok
                     | None => hash_id dumps md5_hexdigest url main
                     end |}
  | _ => Raised
  end.

(** [doc_from_item].  The document has the keys of the CSV-mode document
    of [bayut_ldjson_to_mongo.py], with [details_url] where that one
    has [detailed_url], but for [purpose]: the script gives its documents
    none, and the field is left empty. *)
Definition doc_from_item (item : pyval) (page_num : Z) (fetched : Z)
    (location_info : csv_row) : exc harvest_doc :=
  r <- identify item ;;
  Ok {| upsert_key := i_pid r;
        property_id := i_pid r;
        position := i_position r;
        detailed_url := i_url r;
        page_number := page_num;
        fetched_at := fetched;
        raw_item := item;
        price := i_price r;
        purpose := [];
        doc_loc := LocCsv location_info |}.

Lemma match_needs_backslash (s : str) :
  ~ In BACKSLASH s -> match_here s = None.
Proof.
  intros H. unfold match_here.
  destruct (strip DETAIL_PREFIX s) as [[|c s1]|] eqn:Hs; try reflexivity.
  apply strip_app in Hs.
  destruct (N.eqb_spec c BACKSLASH) as [-> | _]; [|reflexivity].
  exfalso. apply H. rewrite Hs. apply in_or_app. right. now left.
Qed.

Lemma search_needs_backslash (s : str) :
  ~ In BACKSLASH s -> search s = None.
Proof.
  induction s as [|c s IH]; intros H; cbn [search];
    rewrite (match_needs_backslash _ H); [reflexivity|].
  apply IH. intros Hin. apply H. now right.
Qed.

Lemma identify_without_backslash (unicode_Nd : N -> bool) (item : pyval)
    (r : identified) :
  Identity.identify unicode_Nd dumps md5_hexdigest item = Ok r ->
  (forall u, i_url r = PStr u -> ~ In BACKSLASH u) ->
  identify item =
  Ok {| i_position := i_position r; i_url := i_url r; i_price := i_price r;
        i_pid := hash_id dumps md5_hexdigest (i_url r) (main_of item) |}.
Proof.
  unfold Identity.identify, identify, main_of.
  destruct item as [| | | | | |it]; try discriminate.
  set (main := get (lit "mainEntity") it). clearbody main.
  assert (Hurl : forall url price,
    (pid <- Identity.property_id_from_url unicode_Nd url ;;
     Ok {| i_position := get (lit "position") it; i_url := url; i_price := price;
           i_pid := match pid with
                    | Some tok =>
                        if is_empty tok then hash_id dumps md5_hexdigest url main
                        else tok
                    | None => hash_id dumps md5_hexdigest url main
                    end |}) = Ok r ->
    (forall u, i_url r = PStr u -> ~ In BACKSLASH u) ->
    (pid <- property_id_from_url url ;;
     Ok {| i_position := get (lit "position") it; i_url := url; i_price := price;
           i_pid := match pid with
                    | Some tok =>
                        if is_empty tok then hash_id dumps md5_hexdigest url main
                        else tok
                    | None => hash_id dumps md5_hexdigest url main
                    end |}) =
    Ok {| i_position := i_position r; i_url := i_url r; i_price := i_price r;
          i_pid := hash_id dumps md5_hexdigest (i_url r) main |}).
  { intros url price.
    unfold Identity.property_id_from_url, property_id_from_url.
    destruct (negb (truthy url)).
    - cbn [Py.bind]. intros [= <-] _. reflexivity.
    - destruct url as [| | | |u| |]; try discriminate.
      cbn [Py.bind]. intros [= <-] Hb. cbn [i_url] in Hb.
      rewrite (search_needs_backslash u (Hb u eq_refl)). reflexivity. }
  destruct main as [| | | | | |m]; cbn [Py.bind]; try apply Hurl.
  destruct (price_of m) as [p|]; cbn [Py.bind]; [apply Hurl | discriminate].
Qed.

(** X22.  The id pattern of [bayut_csv_scraper.py] asks for a backslash
    after [details-], so it finds nothing in a URL that holds no
    backslash.  For such a URL the script accepts the items the other
    harvesters accept, with the same position, URL and price, but the id
    it gives is always a [hash_] id; where the other harvesters read the
    id off the URL, the two ids of the one listing differ. *)
Theorem csv_scraper_ids_are_hashes (unicode_Nd : N -> bool) (item : pyval)
    (r : identified) :
  Identity.identify unicode_Nd dumps md5_hexdigest item = Ok r ->
  (forall u, i_url r = PStr u -> ~ In BACKSLASH u) ->
  (forall u, i_url r = PStr u -> search u = None) /\
  (exists r',
      identify item = Ok r' /\
      i_position r' = i_position r /\ i_url r' = i_url r /\
      i_price r' = i_price r /\
      i_pid r' = hash_id dumps md5_hexdigest (i_url r) (main_of item) /\
      (url_token unicode_Nd (i_url r) <> None -> i_pid r' <> i_pid r)).
Proof.
  intros H Hb. split.
  - intros u Hu. apply search_needs_backslash. exact (Hb u Hu).
  - rewrite (identify_without_backslash unicode_Nd item r H Hb).
    eexists. split; [reflexivity|]. cbn [i_position i_url i_price i_pid].
    repeat (split; [reflexivity|]).
    intros Hnat E.
    destruct (identify_inv unicode_Nd dumps md5_hexdigest item r H) as [_ Hp].
    destruct (url_token unicode_Nd (i_url r)) as [tok|] eqn:Ht; [|congruence].
    destruct (i_url r) as [| | | |u| |]; try discriminate Ht.
    cbn [url_token] in Ht.
    apply search_sound in Ht as (Hne & Hall & _).
    rewrite Hp in E. unfold hash_id in E.
    exact (natural_id_not_hashed unicode_Nd tok _ Hne Hall (eq_sym E)).
Qed.

End Resolver.

Lemma csv_scraper_ids_are_hashes_witness :
  i_pid <$> identify null_dumps echo_digest (item_n "8412345")
  = Ok (HASH_PREFIX ++ detail_url "8412345") /\
  i_pid <$> Identity.identify ascii_Nd null_dumps echo_digest (item_n "8412345")
  = Ok (lit "8412345").
Proof.
  assert (H : Identity.identify ascii_Nd null_dumps echo_digest (item_n "8412345")
              = Ok {| i_position := PInt 1;
                      i_url := PStr (detail_url "8412345");
                      i_price := PNone;
                      i_pid := lit "8412345" |}) by (vm_compute; reflexivity).
  destruct (csv_scraper_ids_are_hashes null_dumps echo_digest ascii_Nd
              (item_n "8412345") _ H) as (_ & r' & Hr' & _ & _ & _ & Hp & _).
  - intros u [= <-]. vm_compute. intuition discriminate.
  - rewrite Hr', H. cbn [exc_map]. rewrite Hp. split; vm_compute; reflexivity.
Defined.

End CsvScraper.

(** ** Listing harvester: the page loop of a sub-location

    [run_csv_mode] of [bayut_ldjson_to_mongo.py] and [run] of
    [bayut_csv_scraper.py], from [consecutive_empty_pages = 0] to the end
    of the [for page_num in range(1, max_pages + 1)] loop. *)

Module Harvester.

Import Identity.

(** What [sess.get] did. *)
Inductive response :=
  | FetchRaised
  | Response (status : Z) (text : str).

(** What the world gives for one page: the response, the result of
    [extract_single_ldjson] on its text, and the reading of the clock. *)
Record page_env := {
  fetched : response;
  parsed : exc pyval;
  now : Z
}.

Inductive script := CsvMode | CsvScraper.

Definition MIN_BODY : nat := 1000.
Definition EMPTY_PAGES_LIMIT : nat := 5.

(** [for el in v] *)
Definition iterate (v : pyval) : exc (list pyval) :=
  match v with
  | PList l => Ok l
  | PDict d => Ok (map (fun kv => PStr (fst kv)) d)
  | PStr s => Ok (map (fun c => PStr [c]) s)
  | _ => Raised
  end.

Section Crawl.

Variable unicode_Nd : N -> bool.
Variable dumps : pyval -> str.
Variable md5_hexdigest : list N -> str.

(** [str.lower] *)
Variable lower : str -> str.

(** The store and the batch write of the script at hand. *)
Variable store : Type.
Variable commit : store -> list harvest_doc -> store.

(** The documents of the elements that the script's own [doc_from_item]
    accepts; an element it raises on is skipped with a warning.  In
    [run_csv_mode] the purpose is read off the URL of the page, which is
    on the for-sale tree. *)
Fixpoint docs_from (v : script) (elts : list pyval) (page_num : Z) (t : Z)
    (loc : csv_row) : list harvest_doc :=
  match elts with
  | [] => []
  | el :: rest =>
      match match v with
            | CsvMode =>
                doc_from_item unicode_Nd dumps md5_hexdigest el page_num t
                  (Some loc) None (lit "for-sale")
            | CsvScraper =>
                CsvScraper.doc_from_item dumps md5_hexdigest el page_num t loc
            end with
      | Ok d => d :: docs_from v rest page_num t loc
      | Raised => docs_from v rest page_num t loc
      end
  end.

(** [items], from [if isinstance(ldjson, dict)] on. *)
Definition items_of (v : script) (ld : pyval) (page_num : Z) (t : Z)
    (loc : csv_row) : exc (list harvest_doc) :=
  match ld with
  | PDict d =>
      elts <- iterate (py_or (get (lit "itemListElement") d) (PList [])) ;;
      Ok (docs_from v elts page_num t loc)
  | _ => Ok []
  end.

(** The blocking check of [bayut_csv_scraper.py]. *)
Definition looks_blocked (html : str) : bool :=
  contains (lit "captcha") (lower html) || contains (lit "cloudflare") (lower html).

(** One turn of the loop body, after the test of the counter: the new
    value of [consecutive_empty_pages] and the store. *)
Definition visit (v : script) (loc : csv_row) (c : nat) (st : store)
    (page_num : Z) (pg : page_env) : nat * store :=
  match fetched pg with
  | FetchRaised => (c + 1, st)%nat
  | Response status html =>
      if negb (status =? 200)%Z then (c + 1, st)%nat
      else if (length html <? MIN_BODY)%nat then (c + 1, st)%nat
      else if match v with
              | CsvScraper => looks_blocked html
              | CsvMode => false
              end
      then (c + 1, st)%nat
      else
        match parsed pg with
        | Raised => (c + 1, st)%nat
        | Ok ld =>
            if match v with
               | CsvMode => negb (truthy ld)
               | CsvScraper => false
               end
            then (c + 1, st)%nat
            else
              match items_of v ld page_num (now pg) loc with
              | Raised => (c + 1, st)%nat
              | Ok [] => (c + 1, st)%nat
              | Ok items => (0%nat, commit st items)
              end
        end
  end.

(** The loop over the pages [page_num], [page_num + 1], ...: the pages
    requested, the final counter and the final store. *)
Fixpoint crawl (v : script) (loc : csv_row) (c : nat) (st : store)
    (page_num : Z) (pages : list page_env) : list Z * nat * store :=
  match pages with
  | [] => ([], c, st)
  | pg :: rest =>
      if (EMPTY_PAGES_LIMIT <=? c)%nat then ([], c, st)
      else
        let '(c', st') := visit v loc c st page_num pg in
        let '(log, c'', st'') := crawl v loc c' st' (page_num + 1) rest in
        (page_num :: log, c'', st'')
  end.

(** The ways a page counts as empty or invalid. *)
Inductive empty_page (v : script) (loc : csv_row) (page_num : Z) (pg : page_env)
  : Prop :=
  | fetch_error :
      fetched pg = FetchRaised -> empty_page v loc page_num pg
  | bad_status status html :
      fetched pg = Response status html -> status <> 200%Z ->
      empty_page v loc page_num pg
  | small_body html :
      fetched pg = Response 200 html -> (length html < MIN_BODY)%nat ->
      empty_page v loc page_num pg
  | blocked html :
      v = CsvScraper ->
      fetched pg = Response 200 html -> (MIN_BODY <= length html)%nat ->
      looks_blocked html = true ->
      empty_page v loc page_num pg
  | parse_error html :
      fetched pg = Response 200 html -> (MIN_BODY <= length html)%nat ->
      (v = CsvScraper -> looks_blocked html = false) ->
      parsed pg = Raised ->
      empty_page v loc page_num pg
  | no_items html ld :
      fetched pg = Response 200 html -> (MIN_BODY <= length html)%nat ->
      (v = CsvScraper -> looks_blocked html = false) ->
      parsed pg = Ok ld ->
      items_of v ld page_num (now pg) loc = Ok [] ->
      empty_page v loc page_num pg
  | items_error html ld :
      fetched pg = Response 200 html -> (MIN_BODY <= length html)%nat ->
      (v = CsvScraper -> looks_blocked html = false) ->
      parsed pg = Ok ld ->
      items_of v ld page_num (now pg) loc = Raised ->
      empty_page v loc page_num pg.

(** A page that yields items. *)
Definition good_page (v : script) (loc : csv_row) (page_num : Z) (pg : page_env)
    (items : list harvest_doc) : Prop :=
  exists html ld,
    fetched pg = Response 200 html /\ (MIN_BODY <= length html)%nat /\
    (v = CsvScraper -> looks_blocked html = false) /\
    parsed pg = Ok ld /\
    items_of v ld page_num (now pg) loc = Ok items /\ items <> [].

(** [k] empty pages in a row, numbered from [page_num]. *)
Fixpoint empty_run (v : script) (loc : csv_row) (page_num : Z)
    (pages : list page_env) : Prop :=
  match pages with
  | [] => True
  | pg :: rest => empty_page v loc page_num pg /\ empty_run v loc (page_num + 1) rest
  end.

(** The page numbers [page_num], ..., [page_num + k - 1]. *)
Fixpoint numbered (page_num : Z) (k : nat) : list Z :=
  match k with
  | O => []
  | S k' => page_num :: numbered (page_num + 1) k'
  end.

Lemma blocked_dec (v : script) (html : str) :
  (v = CsvScraper -> looks_blocked html = false) ->
  match v with CsvScraper => looks_blocked html | CsvMode => false end = false.
Proof. destruct v; [reflexivity | intros H; apply H; reflexivity]. Qed.

Lemma visit_empty (v : script) (loc : csv_row) (c : nat) (st : store)
    (page_num : Z) (pg : page_env) :
  empty_page v loc page_num pg -> visit v loc c st page_num pg = ((c + 1)%nat, st).
Proof.
  unfold visit.
  intros [Hf | status html Hf Hs | html Hf Hl | html Hv Hf Hl Hb
          | html Hf Hl Hb Hp
          | html ld Hf Hl Hb Hp Hi | html ld Hf Hl Hb Hp Hi];
    rewrite Hf; try reflexivity.
  - apply Z.eqb_neq in Hs. rewrite Hs. reflexivity.
  - apply Nat.ltb_lt in Hl. cbn [Z.eqb negb Pos.eqb]. rewrite Hl. reflexivity.
  - apply Nat.ltb_ge in Hl. cbn [Z.eqb negb Pos.eqb].
    rewrite Hl, Hv, Hb. reflexivity.
  - apply Nat.ltb_ge in Hl. cbn [Z.eqb negb Pos.eqb].
    rewrite Hl, (blocked_dec v html Hb), Hp. reflexivity.
  - apply Nat.ltb_ge in Hl. cbn [Z.eqb negb Pos.eqb].
    rewrite Hl, (blocked_dec v html Hb), Hp, Hi.
    destruct (match v with CsvMode => negb (truthy ld) | CsvScraper => false end);
      reflexivity.
  - apply Nat.ltb_ge in Hl. cbn [Z.eqb negb Pos.eqb].
    rewrite Hl, (blocked_dec v html Hb), Hp, Hi.
    destruct (match v with CsvMode => negb (truthy ld) | CsvScraper => false end);
      reflexivity.
Qed.

Lemma items_truthy (v : script) (ld : pyval) (page_num t : Z) (loc : csv_row)
    (items : list harvest_doc) :
  items_of v ld page_num t loc = Ok items -> items <> [] -> truthy ld = true.
Proof.
  destruct ld as [| | | | | |d]; cbn [items_of]; try (intros [= <-]; congruence).
  destruct d; [|reflexivity].
  cbn. intros [= <-]. congruence.
Qed.

Lemma visit_good (v : script) (loc : csv_row) (c : nat) (st : store)
    (page_num : Z) (pg : page_env) (items : list harvest_doc) :
  good_page v loc page_num pg items ->
  visit v loc c st page_num pg = (0%nat, commit st items).
Proof.
  intros (html & ld & Hf & Hl & Hb & Hp & Hi & Hne).
  unfold visit. rewrite Hf. cbn [Z.eqb negb Pos.eqb].
  apply Nat.ltb_ge in Hl.
  rewrite Hl, (blocked_dec v html Hb), Hp, Hi,
    (items_truthy v ld page_num (now pg) loc items Hi Hne).
  destruct v; cbn [negb]; destruct items; congruence.
Qed.

Lemma crawl_stopped (v : script) (loc : csv_row) (c : nat) (st : store)
    (page_num : Z) (pages : list page_env) :
  (EMPTY_PAGES_LIMIT <= c)%nat -> crawl v loc c st page_num pages = ([], c, st).
Proof.
  intros H. destruct pages as [|pg rest]; [reflexivity|].
  cbn [crawl]. apply Nat.leb_le in H. rewrite H. reflexivity.
Qed.

Lemma crawl_step (v : script) (loc : csv_row) (c : nat) (st : store)
    (page_num : Z) (pg : page_env) (rest : list page_env) :
  (c < EMPTY_PAGES_LIMIT)%nat ->
  crawl v loc c st page_num (pg :: rest) =
  let '(c', st') := visit v loc c st page_num pg in
  let '(log, c'', st'') := crawl v loc c' st' (page_num + 1) rest in
  (page_num :: log, c'', st'').
Proof.
  intros H. cbn [crawl]. apply Nat.leb_gt in H. rewrite H. reflexivity.
Qed.

Lemma crawl_empty_run (v : script) (loc : csv_row) (st : store)
    (es rest : list page_env) :
  forall c page_num,
  empty_run v loc page_num es ->
  (c + length es <= EMPTY_PAGES_LIMIT)%nat ->
  crawl v loc c st page_num (es ++ rest) =
  let '(log, c', st') :=
    crawl v loc (c + length es) st (page_num + Z.of_nat (length es)) rest in
  (numbered page_num (length es) ++ log, c', st').
Proof.
  induction es as [|pg es IH]; intros c page_num Hrun Hc.
  - cbn [length app numbered]. rewrite Nat.add_0_r, Z.add_0_r.
    destruct (crawl v loc c st page_num rest) as [[log c'] st']. reflexivity.
  - destruct Hrun as [Hpg Hrun]. cbn [length] in Hc.
    cbn [app]. rewrite crawl_step by lia.
    rewrite (visit_empty v loc c st page_num pg Hpg).
    rewrite (IH (c + 1)%nat (page_num + 1)%Z Hrun) by lia.
    cbn [length numbered].
    replace (c + 1 + length es)%nat with (c + S (length es))%nat by lia.
    replace (page_num + 1 + Z.of_nat (length es))%Z
      with (page_num + Z.of_nat (S (length es)))%Z by lia.
    destruct (crawl v loc (c + S (length es)) st
                (page_num + Z.of_nat (S (length es))) rest) as [[log c'] st'].
    reflexivity.
Qed.

(** *** The loop as a whole *)

Lemma docs_from_keyed (v : script) (elts : list pyval) (page_num t : Z)
    (loc : csv_row) :
  Forall Store.keyed (docs_from v elts page_num t loc).
Proof.
  induction elts as [|el rest IH]; cbn [docs_from]; [constructor|].
  destruct v.
  - destruct (doc_from_item unicode_Nd dumps md5_hexdigest el page_num t
                (Some loc) None (lit "for-sale")) as [d|] eqn:E; [|exact IH].
    constructor; [|exact IH].
    unfold doc_from_item in E.
    destruct (identify unicode_Nd dumps md5_hexdigest el); [|discriminate].
    injection E as <-. reflexivity.
  - destruct (CsvScraper.doc_from_item dumps md5_hexdigest el page_num t loc)
      as [d|] eqn:E; [|exact IH].
    constructor; [|exact IH].
    unfold CsvScraper.doc_from_item in E.
    destruct (CsvScraper.identify dumps md5_hexdigest el); [|discriminate].
    injection E as <-. reflexivity.
Qed.

Lemma items_of_keyed (v : script) (ld : pyval) (page_num t : Z) (loc : csv_row)
    (items : list harvest_doc) :
  items_of v ld page_num t loc = Ok items -> Forall Store.keyed items.
Proof.
  destruct ld as [| | | | | |d]; cbn [items_of]; try (intros [= <-]; constructor).
  destruct (iterate (py_or (get (lit "itemListElement") d) (PList [])));
    cbn [bind]; [|discriminate].
  intros [= <-]. apply docs_from_keyed.
Qed.

(** The counter after a page is the counter plus one or zero, and the
    store changes only by a commit of keyed documents. *)
Lemma visit_cases (v : script) (loc : csv_row) (c : nat) (st : store)
    (page_num : Z) (pg : page_env) :
  visit v loc c st page_num pg = ((c + 1)%nat, st) \/
  exists items,
    items <> [] /\ Forall Store.keyed items /\
    visit v loc c st page_num pg = (0%nat, commit st items).
Proof.
  unfold visit.
  destruct (fetched pg) as [|status html]; [now left|].
  destruct (negb (status =? 200)%Z); [now left|].
  destruct (length html <? MIN_BODY)%nat; [now left|].
  destruct (match v with CsvScraper => looks_blocked html | CsvMode => false end);
    [now left|].
  destruct (parsed pg) as [ld|]; [|now left].
  destruct (match v with CsvMode => negb (truthy ld) | CsvScraper => false end);
    [now left|].
  destruct (items_of v ld page_num (now pg) loc) as [items|] eqn:E; [|now left].
  destruct items as [|d items]; [now left|].
  right. exists (d :: items).
  split; [discriminate|]. split; [|reflexivity].
  exact (items_of_keyed v ld page_num (now pg) loc _ E).
Qed.

Lemma crawl_shape (v : script) (loc : csv_row) (pages : list page_env) :
  forall c st page_num,
  let '(log, c', _) := crawl v loc c st page_num pages in
  log = numbered page_num (length log) /\
  (length log <= length pages)%nat /\
  ((length log < length pages)%nat -> (EMPTY_PAGES_LIMIT <= c')%nat) /\
  ((c <= EMPTY_PAGES_LIMIT)%nat -> (c' <= EMPTY_PAGES_LIMIT)%nat).
Proof.
  induction pages as [|pg rest IH]; intros c st page_num.
  - cbn. repeat split; lia.
  - cbn [crawl]. destruct (EMPTY_PAGES_LIMIT <=? c)%nat eqn:Hc.
    + apply Nat.leb_le in Hc. cbn [length]. repeat split; lia.
    + apply Nat.leb_gt in Hc.
      destruct (visit v loc c st page_num pg) as [c1 st1] eqn:Hv.
      specialize (IH c1 st1 (page_num + 1)%Z).
      destruct (crawl v loc c1 st1 (page_num + 1) rest) as [[log c'] st'].
      destruct IH as (Hlog & Hlen & Hstop & Hbound).
      assert (Hc1 : (c1 <= EMPTY_PAGES_LIMIT)%nat).
      { destruct (visit_cases v loc c st page_num pg) as [H | (items & _ & _ & H)];
          rewrite Hv in H; injection H as -> _; lia. }
      cbn [length numbered]. rewrite <- Hlog.
      repeat split; lia.
Qed.

(** X4.  The page loop of a sub-location requests pages with
    consecutive numbers, each of them once, starting from the first: it
    never retries a page and never skips one.  It leaves pages
    unrequested only when the empty-page counter has reached 5, and a
    counter that starts at 5 or less never passes 5. *)
Theorem crawl_requests_consecutive_pages (v : script) (loc : csv_row)
    (c : nat) (st : store) (page_num : Z) (pages : list page_env) :
  let '(log, c', _) := crawl v loc c st page_num pages in
  log = numbered page_num (length log) /\
  (length log <= length pages)%nat /\
  ((length log < length pages)%nat -> (EMPTY_PAGES_LIMIT <= c')%nat) /\
  ((c <= EMPTY_PAGES_LIMIT)%nat -> (c' <= EMPTY_PAGES_LIMIT)%nat).
Proof. apply crawl_shape. Qed.

(** A property of the store that every commit of keyed documents keeps
    is kept by the whole loop. *)
Lemma crawl_preserves (P : store -> Prop) :
  (forall st items, Forall Store.keyed items -> P st -> P (commit st items)) ->
  forall v loc pages c st page_num,
  P st -> P (snd (crawl v loc c st page_num pages)).
Proof.
  intros Hcommit v loc pages.
  induction pages as [|pg rest IH]; intros c st page_num Hst; [exact Hst|].
  cbn [crawl]. destruct (EMPTY_PAGES_LIMIT <=? c)%nat; [exact Hst|].
  destruct (visit_cases v loc c st page_num pg) as [H | (items & _ & Hk & H)];
    rewrite H.
  - specialize (IH (c + 1)%nat st (page_num + 1)%Z Hst).
    destruct (crawl v loc (c + 1) st (page_num + 1) rest) as [[log c'] st'].
    exact IH.
  - specialize (IH 0%nat (commit st items) (page_num + 1)%Z (Hcommit _ _ Hk Hst)).
    destruct (crawl v loc 0 (commit st items) (page_num + 1) rest) as [[log c'] st'].
    exact IH.
Qed.

End Crawl.

(** A page that is not there. *)
Definition not_found : page_env :=
  {| fetched := Response 404 []; parsed := Raised; now := 0 |}.

Definition marina : csv_row :=
  {| city := lit "Dubai";
     sublocation := lit "Dubai Marina";
     location_url := lit "https://www.bayut.com/for-sale/property/dubai/dubai-marina/";
     listings := lit "1,234" |}.

(** X5.  Run against the items collection with the upsert of
    [bayut_ldjson_to_mongo.py], the page loop of a sub-location keeps the
    collection well formed whatever the site answers: ids stay distinct,
    no row holds more than 100 appearances and no [locations_seen] holds
    a location twice. *)
Theorem csv_mode_crawl_keeps_store_well_formed
    (unicode_Nd : N -> bool) (dumps : pyval -> str) (md5_hexdigest : list N -> str)
    (lower : str -> str) (loc : csv_row) (c : nat) (coll : list Store.item_row)
    (page_num : Z) (pages : list page_env) :
  Store.store_inv coll ->
  Store.store_inv
    (snd (crawl unicode_Nd dumps md5_hexdigest lower
            (list Store.item_row) (Store.bulk_upsert_items Store.Ldjson)
            CsvMode loc c coll page_num pages)).
Proof.
  apply (crawl_preserves unicode_Nd dumps md5_hexdigest lower
           (list Store.item_row) (Store.bulk_upsert_items Store.Ldjson)
           Store.store_inv).
  intros st items Hk Hst. apply Store.bulk_store_inv; assumption.
Qed.

(** A results page with two listings. *)
Definition two_listings : page_env :=
  {| fetched := Response 200 (repeat 32%N 1000);
     parsed := Ok (PDict [(lit "itemListElement",
                           PList [item_n "8412345"; item_n "8412346"])]);
     now := 10 |}.

Lemma csv_mode_crawl_keeps_store_well_formed_witness :
  Store.store_inv
    (snd (crawl ascii_Nd null_dumps echo_digest ascii_lower
            (list Store.item_row) (Store.bulk_upsert_items Store.Ldjson)
            CsvMode marina 0 [] 1 [two_listings; not_found; two_listings])) /\
  map Store.row_id
    (snd (crawl ascii_Nd null_dumps echo_digest ascii_lower
            (list Store.item_row) (Store.bulk_upsert_items Store.Ldjson)
            CsvMode marina 0 [] 1 [two_listings; not_found; two_listings]))
  = [lit "8412345"; lit "8412346"].
Proof.
  split; [|vm_compute; reflexivity].
  apply csv_mode_crawl_keeps_store_well_formed. split; constructor.
Defined.

End Harvester.

(** ** Incremental harvester

    [property_exists], [_process_properties], [process_page] and [run]
    of [bayut_incremental_scraper.py]. *)

Module Incremental.

Import Identity Store Harvester.

Definition CONSECUTIVE_EXISTING_LIMIT : nat := 2.

(** [self.stats], with the pages whose processing raised in [errors]. *)
Record stats := {
  pages_scraped : nat;
  new_properties : nat;
  existing_properties : nat;
  consecutive_existing : nat;
  errors : list Z
}.

(** The scraper: its collection, its statistics, and the pages it has
    requested so far. *)
Record scraper := {
  properties_coll : list item_row;
  stat : stats;
  requested : list Z
}.

(** What a page contributed. *)
Record page_result := {
  res_new : nat;
  res_existing : nat;
  res_errors : nat
}.

Definition no_result : page_result :=
  {| res_new := 0; res_existing := 0; res_errors := 0 |}.
Definition error_result : page_result :=
  {| res_new := 0; res_existing := 0; res_errors := 1 |}.

(** A page as the world gives it: whether the shutdown flag is up when
    the loop tests it, and the page itself. *)
Record turn := {
  interrupted : bool;
  page : page_env
}.

Inductive reason := Completed | ConsecutiveExisting | Shutdown.

Record summary := {
  sum_pages_scraped : nat;
  sum_new_properties : nat;
  sum_existing_properties : nat;
  stopped_early : bool;
  why : reason
}.

(** [property_exists] *)
Definition property_exists (id : str) (coll : list item_row) : bool :=
  match find_row id coll with Some _ => true | None => false end.

Section Scraper.

Variable unicode_Nd : N -> bool.
Variable dumps : pyval -> str.
Variable md5_hexdigest : list N -> str.

(** The [for el in elts] loop: the new documents, the local counter of
    consecutive existing properties and the tallies, when the loop ends
    or breaks. *)
Fixpoint scan (coll : list item_row) (page_num t : Z) (elts : list pyval)
    (news : list harvest_doc) (consecutive : nat) (res : page_result)
  : list harvest_doc * nat * page_result :=
  match elts with
  | [] => (news, consecutive, res)
  | el :: rest =>
      match extract_property_from_item unicode_Nd dumps md5_hexdigest
              el page_num t with
      | None =>
          scan coll page_num t rest news consecutive
            {| res_new := res_new res; res_existing := res_existing res;
               res_errors := res_errors res + 1 |}
      | Some prop_doc =>
          if property_exists (property_id prop_doc) coll then
            let res' := {| res_new := res_new res;
                           res_existing := res_existing res + 1;
                           res_errors := res_errors res |} in
            if (CONSECUTIVE_EXISTING_LIMIT <=? consecutive + 1)%nat
            then (news, (consecutive + 1)%nat, res')
            else scan coll page_num t rest news (consecutive + 1)%nat res'
          else
            scan coll page_num t rest (news ++ [prop_doc]) 0%nat
              {| res_new := res_new res + 1; res_existing := res_existing res;
                 res_errors := res_errors res |}
      end
  end.

Definition set_consecutive (n : nat) (s : stats) : stats :=
  {| pages_scraped := pages_scraped s;
     new_properties := new_properties s;
     existing_properties := existing_properties s;
     consecutive_existing := n;
     errors := errors s |}.

(** [_process_properties]; it raises when [elts] cannot be iterated. *)
Definition _process_properties (s : scraper) (ldjson : pyval) (page_num t : Z)
  : exc (scraper * page_result) :=
  match ldjson with
  | PDict d =>
      let elts := py_or (get (lit "itemListElement") d) (PList []) in
      if negb (truthy elts) then Ok (s, no_result)
      else
        l <- iterate elts ;;
        let '(news, consecutive, res) :=
          scan (properties_coll s) page_num t l [] 0%nat no_result in
        Ok ({| properties_coll :=
                 if is_empty news then properties_coll s
                 else bulk_upsert_items Incremental (properties_coll s) news;
               stat :=
                 if (CONSECUTIVE_EXISTING_LIMIT <=? consecutive)%nat
                 then set_consecutive consecutive (stat s)
                 else stat s;
               requested := requested s |},
            res)
  | _ => Ok (s, no_result)
  end.

Definition record_error (page_num : Z) (s : scraper) : scraper :=
  {| properties_coll := properties_coll s;
     stat := {| pages_scraped := pages_scraped (stat s);
                new_properties := new_properties (stat s);
                existing_properties := existing_properties (stat s);
                consecutive_existing := consecutive_existing (stat s);
                errors := errors (stat s) ++ [page_num] |};
     requested := requested s |}.

Definition request (page_num : Z) (s : scraper) : scraper :=
  {| properties_coll := properties_coll s;
     stat := stat s;
     requested := requested s ++ [page_num] |}.

(** [process_page] *)
Definition process_page (s : scraper) (page_num : Z) (pg : page_env)
  : scraper * page_result :=
  let s := request page_num s in
  match fetched pg with
  | FetchRaised => (record_error page_num s, error_result)
  | Response status html =>
      if negb (status =? 200)%Z then (s, error_result)
      else if (length html <? MIN_BODY)%nat then (s, error_result)
      else
        match parsed pg with
        | Raised => (record_error page_num s, error_result)
        | Ok ldjson =>
            if negb (truthy ldjson) then (s, error_result)
            else
              match _process_properties s ldjson page_num (now pg) with
              | Ok r => r
              | Raised => (record_error page_num s, error_result)
              end
        end
  end.

Definition tally (r : page_result) (s : scraper) : scraper :=
  {| properties_coll := properties_coll s;
     stat := {| pages_scraped := pages_scraped (stat s) + 1;
                new_properties := new_properties (stat s) + res_new r;
                existing_properties := existing_properties (stat s) + res_existing r;
                consecutive_existing := consecutive_existing (stat s);
                errors := errors (stat s) |};
     requested := requested s |}.

(** The [while] loop of [run]; [turns] are the pages from [page_num] to
    [max_pages]. *)
Fixpoint run_loop (s : scraper) (page_num : Z) (turns : list turn)
  : scraper * option reason :=
  match turns with
  | [] => (s, None)
  | tn :: rest =>
      if interrupted tn then (s, Some Shutdown)
      else
        let '(s1, r) := process_page s page_num (page tn) in
        let s2 := tally r s1 in
        if (CONSECUTIVE_EXISTING_LIMIT <=? consecutive_existing (stat s2))%nat
        then (s2, Some ConsecutiveExisting)
        else run_loop s2 (page_num + 1) rest
  end.

(** [run]; [late_signal] tells whether the shutdown flag is up when the
    summary is built. *)
Definition run (s : scraper) (turns : list turn) (late_signal : bool)
  : scraper * summary :=
  let '(s', stop) := run_loop s 1 turns in
  let should_stop := match stop with Some ConsecutiveExisting => true | _ => false end in
  let shutdown := match stop with
                  | Some Shutdown => true
                  | Some _ => late_signal
                  | None => late_signal
                  end in
  (s', {| sum_pages_scraped := pages_scraped (stat s');
          sum_new_properties := new_properties (stat s');
          sum_existing_properties := existing_properties (stat s');
          stopped_early := should_stop || shutdown;
          why := if should_stop then ConsecutiveExisting
                 else if shutdown then Shutdown else Completed |}).

(** A scraper as [__init__] leaves it. *)
Definition fresh (coll : list item_row) : scraper :=
  {| properties_coll := coll;
     stat := {| pages_scraped := 0; new_properties := 0;
                existing_properties := 0; consecutive_existing := 0;
                errors := [] |};
     requested := [] |}.

(** A well-formed listing page with the elements [elts]. *)
Definition listing (html : str) (elts : list pyval) (t : Z) : turn :=
  {| interrupted := false;
     page := {| fetched := Response 200 html;
                parsed := Ok (PDict [(lit "itemListElement", PList elts)]);
                now := t |} |}.

(** The id the resolver gives a raw item. *)
Definition item_id (el : pyval) : option str :=
  match identify unicode_Nd dumps md5_hexdigest el with
  | Ok r => Some (i_pid r)
  | Raised => None
  end.

Inductive label := New | Known | Unreadable.

(** How the loop sees an element, given the collection. *)
Definition label_of (coll : list item_row) (el : pyval) : label :=
  match item_id el with
  | None => Unreadable
  | Some id => if property_exists id coll then Known else New
  end.

(** A stretch of [ls] without a new item that holds [n] known ones. *)
Definition knowns (ls : list label) : nat :=
  length (filter (fun l => match l with Known => true | _ => false end) ls).

Definition has_stretch (n : nat) (ls : list label) : Prop :=
  exists pre mid post,
    ls = pre ++ mid ++ post /\ ~ In New mid /\ (n <= knowns mid)%nat.

(** The local counter as a function of the labels alone. *)
Fixpoint count_run (ls : list label) (c : nat) : nat :=
  match ls with
  | [] => c
  | Unreadable :: rest => count_run rest c
  | Known :: rest =>
      if (CONSECUTIVE_EXISTING_LIMIT <=? c + 1)%nat then (c + 1)%nat
      else count_run rest (c + 1)
  | New :: rest => count_run rest 0
  end.

(** *** The loop over the elements of a page *)

Lemma extract_keyed (el : pyval) (page_num t : Z) (d : harvest_doc) :
  extract_property_from_item unicode_Nd dumps md5_hexdigest el page_num t = Some d ->
  keyed d /\ item_id el = Some (property_id d).
Proof.
  unfold extract_property_from_item, item_id.
  destruct (identify unicode_Nd dumps md5_hexdigest el); [|discriminate].
  intros [= <-]. split; reflexivity.
Qed.

Lemma extract_none (el : pyval) (page_num t : Z) :
  extract_property_from_item unicode_Nd dumps md5_hexdigest el page_num t = None <->
  item_id el = None.
Proof.
  unfold extract_property_from_item, item_id.
  destruct (identify unicode_Nd dumps md5_hexdigest el); split; congruence.
Qed.

Lemma scan_new (coll : list item_row) (page_num t : Z) (el : pyval)
    (rest : list pyval) (news : list harvest_doc) (c : nat) (res : page_result)
    (d : harvest_doc) :
  extract_property_from_item unicode_Nd dumps md5_hexdigest el page_num t = Some d ->
  property_exists (property_id d) coll = false ->
  scan coll page_num t (el :: rest) news c res =
  scan coll page_num t rest (news ++ [d]) 0%nat
    {| res_new := res_new res + 1; res_existing := res_existing res;
       res_errors := res_errors res |}.
Proof. intros He Hn. cbn [scan]. rewrite He, Hn. reflexivity. Qed.

Lemma scan_known_stop (coll : list item_row) (page_num t : Z) (el : pyval)
    (rest : list pyval) (news : list harvest_doc) (c : nat) (res : page_result)
    (d : harvest_doc) :
  extract_property_from_item unicode_Nd dumps md5_hexdigest el page_num t = Some d ->
  property_exists (property_id d) coll = true ->
  (CONSECUTIVE_EXISTING_LIMIT <= c + 1)%nat ->
  scan coll page_num t (el :: rest) news c res =
  (news, (c + 1)%nat,
   {| res_new := res_new res; res_existing := res_existing res + 1;
      res_errors := res_errors res |}).
Proof.
  intros He Hk Hc. cbn [scan]. rewrite He, Hk.
  apply Nat.leb_le in Hc. rewrite Hc. reflexivity.
Qed.

Lemma scan_known_go (coll : list item_row) (page_num t : Z) (el : pyval)
    (rest : list pyval) (news : list harvest_doc) (c : nat) (res : page_result)
    (d : harvest_doc) :
  extract_property_from_item unicode_Nd dumps md5_hexdigest el page_num t = Some d ->
  property_exists (property_id d) coll = true ->
  (c + 1 < CONSECUTIVE_EXISTING_LIMIT)%nat ->
  scan coll page_num t (el :: rest) news c res =
  scan coll page_num t rest news (c + 1)%nat
    {| res_new := res_new res; res_existing := res_existing res + 1;
       res_errors := res_errors res |}.
Proof.
  intros He Hk Hc. cbn [scan]. rewrite He, Hk.
  apply Nat.leb_gt in Hc. rewrite Hc. reflexivity.
Qed.

Lemma scan_counter (coll : list item_row) (page_num t : Z) (elts : list pyval) :
  forall news c res,
  snd (fst (scan coll page_num t elts news c res)) =
  count_run (map (label_of coll) elts) c.
Proof.
  induction elts as [|el rest IH]; intros news c res; [reflexivity|].
  cbn [scan map count_run]. unfold label_of at 1.
  destruct (extract_property_from_item unicode_Nd dumps md5_hexdigest el page_num t)
    as [d|] eqn:He.
  - destruct (extract_keyed el page_num t d He) as [_ Hid]. rewrite Hid.
    destruct (property_exists (property_id d) coll).
    + destruct (CONSECUTIVE_EXISTING_LIMIT <=? c + 1)%nat; [reflexivity | apply IH].
    + apply IH.
  - apply extract_none in He. rewrite He. apply IH.
Qed.

Lemma scan_keyed (coll : list item_row) (page_num t : Z) (elts : list pyval) :
  forall news c res,
  Forall keyed news ->
  Forall keyed (fst (fst (scan coll page_num t elts news c res))).
Proof.
  induction elts as [|el rest IH]; intros news c res Hk; [exact Hk|].
  cbn [scan].
  destruct (extract_property_from_item unicode_Nd dumps md5_hexdigest el page_num t)
    as [d|] eqn:He; [|apply IH; exact Hk].
  destruct (property_exists (property_id d) coll).
  - destruct (CONSECUTIVE_EXISTING_LIMIT <=? c + 1)%nat; [exact Hk | apply IH; exact Hk].
  - apply IH. apply Forall_app. split; [exact Hk|].
    constructor; [apply (extract_keyed el page_num t d He) | constructor].
Qed.

(** *** A listing page *)

Lemma process_listing (s : scraper) (page_num t : Z) (html : str)
    (elts : list pyval) :
  (MIN_BODY <= length html)%nat ->
  process_page s page_num (page (listing html elts t)) =
  let '(news, consecutive, res) :=
    scan (properties_coll s) page_num t elts [] 0%nat no_result in
  ({| properties_coll :=
        if is_empty news then properties_coll s
        else bulk_upsert_items Incremental (properties_coll s) news;
      stat :=
        if (CONSECUTIVE_EXISTING_LIMIT <=? consecutive)%nat
        then set_consecutive consecutive (stat s)
        else stat s;
      requested := requested s ++ [page_num] |},
   res).
Proof.
  intros Hl. apply Nat.ltb_ge in Hl.
  unfold process_page, listing. cbn [page fetched parsed now Z.eqb Pos.eqb negb].
  rewrite Hl. cbn [truthy is_empty negb].
  unfold _process_properties.
  replace (get (lit "itemListElement") [(lit "itemListElement", PList elts)])
    with (PList elts)
    by (unfold get, get_default; cbn [lookup]; rewrite str_eqb_refl; reflexivity).
  destruct elts as [|el rest]; [reflexivity|].
  cbn [py_or truthy is_empty negb iterate Py.bind request properties_coll
       stat requested].
  destruct (scan (properties_coll s) page_num t (el :: rest) [] 0 no_result)
    as [[news c] res].
  reflexivity.
Qed.

Lemma known_after_insert (coll : list item_row) (news : list harvest_doc)
    (id : str) :
  Forall keyed news ->
  property_exists id coll = true ->
  property_exists id (bulk_upsert_items Incremental coll news) = true.
Proof.
  unfold property_exists. intros Hk Hf.
  pose proof (bulk_keeps_known Incremental news coll id Hk) as H.
  destruct (find_row id coll); [|discriminate].
  destruct (find_row id (bulk_upsert_items Incremental coll news));
    [reflexivity | exfalso; apply H; [discriminate | reflexivity]].
Qed.

(** C2 (as amended).  A page of three new items, then a page of two
    items already in the collection, then any third page: the run
    requests pages 1 and 2 only, stops after the second page for
    consecutive existing properties, and has inserted the three new items
    and nothing else.  In the loop over a page, a new item sets the local
    counter to zero, and the existing item that brings it to the limit
    ends the loop with the rest of the page unread. *)
Theorem incremental_stops_on_known_page
    (coll : list item_row) (a b c x y : pyval) (da db dc dx dy : harvest_doc)
    (h1 h2 : str) (t1 t2 : Z) (third : turn) (late : bool) :
  (MIN_BODY <= length h1)%nat ->
  (MIN_BODY <= length h2)%nat ->
  extract_property_from_item unicode_Nd dumps md5_hexdigest a 1 t1 = Some da ->
  extract_property_from_item unicode_Nd dumps md5_hexdigest b 1 t1 = Some db ->
  extract_property_from_item unicode_Nd dumps md5_hexdigest c 1 t1 = Some dc ->
  property_exists (property_id da) coll = false ->
  property_exists (property_id db) coll = false ->
  property_exists (property_id dc) coll = false ->
  extract_property_from_item unicode_Nd dumps md5_hexdigest x 2 t2 = Some dx ->
  extract_property_from_item unicode_Nd dumps md5_hexdigest y 2 t2 = Some dy ->
  property_exists (property_id dx) coll = true ->
  property_exists (property_id dy) coll = true ->
  (let r := run (fresh coll)
              [listing h1 [a; b; c] t1; listing h2 [x; y] t2; third] late in
   requested (fst r) = [1; 2]%Z /\
   properties_coll (fst r) = bulk_upsert_items Incremental coll [da; db; dc] /\
   sum_pages_scraped (snd r) = 2%nat /\
   sum_new_properties (snd r) = 3%nat /\
   sum_existing_properties (snd r) = 2%nat /\
   stopped_early (snd r) = true /\
   why (snd r) = ConsecutiveExisting) /\
  (forall coll page_num t el rest news k res d,
      extract_property_from_item unicode_Nd dumps md5_hexdigest el page_num t = Some d ->
      property_exists (property_id d) coll = false ->
      scan coll page_num t (el :: rest) news k res =
      scan coll page_num t rest (news ++ [d]) 0%nat
        {| res_new := res_new res + 1; res_existing := res_existing res;
           res_errors := res_errors res |}) /\
  (forall coll page_num t el rest news k res d,
      extract_property_from_item unicode_Nd dumps md5_hexdigest el page_num t = Some d ->
      property_exists (property_id d) coll = true ->
      (CONSECUTIVE_EXISTING_LIMIT <= k + 1)%nat ->
      scan coll page_num t (el :: rest) news k res =
      (news, (k + 1)%nat,
       {| res_new := res_new res; res_existing := res_existing res + 1;
          res_errors := res_errors res |})).
Proof.
  intros Hl1 Hl2 Ha Hb Hc Na Nb Nc Hx Hy Kx Ky.
  split; [|split].
  2: { intros cl pn t el rest news k res d He Hn.
       exact (scan_new cl pn t el rest news k res d He Hn). }
  2: { intros cl pn t el rest news k res d He Hk Hlim.
       exact (scan_known_stop cl pn t el rest news k res d He Hk Hlim). }
  assert (Hkeyed : Forall keyed [da; db; dc]).
  { repeat constructor;
      [apply (extract_keyed a 1 t1 da Ha) | apply (extract_keyed b 1 t1 db Hb)
      | apply (extract_keyed c 1 t1 dc Hc)]. }
  pose proof (known_after_insert coll [da; db; dc] _ Hkeyed Kx) as Kx'.
  pose proof (known_after_insert coll [da; db; dc] _ Hkeyed Ky) as Ky'.
  cbv zeta. unfold run. cbn [run_loop listing interrupted].
  change (page {| interrupted := false;
                  page := ?p |}) with p.
  fold (listing h1 [a; b; c] t1). fold (listing h2 [x; y] t2).
  change ({| fetched := Response 200 h1;
             parsed := Ok (PDict [(lit "itemListElement", PList [a; b; c])]);
             now := t1 |}) with (page (listing h1 [a; b; c] t1)).
  change ({| fetched := Response 200 h2;
             parsed := Ok (PDict [(lit "itemListElement", PList [x; y])]);
             now := t2 |}) with (page (listing h2 [x; y] t2)).
  rewrite (process_listing (fresh coll) 1 t1 h1 [a; b; c] Hl1).
  cbn [fresh properties_coll].
  rewrite (scan_new coll 1 t1 a _ _ _ _ da Ha Na).
  rewrite (scan_new coll 1 t1 b _ _ _ _ db Hb Nb).
  rewrite (scan_new coll 1 t1 c _ _ _ _ dc Hc Nc).
  cbn [scan app is_empty Nat.leb CONSECUTIVE_EXISTING_LIMIT tally stat
       consecutive_existing properties_coll requested no_result res_new
       res_existing res_errors Nat.add].
  rewrite (process_listing _ _ t2 h2 [x; y] Hl2).
  cbn [properties_coll].
  rewrite (scan_known_go _ 2 t2 x _ _ _ _ dx Hx Kx')
    by (unfold CONSECUTIVE_EXISTING_LIMIT; lia).
  rewrite (scan_known_stop _ 2 t2 y _ _ _ _ dy Hy Ky')
    by (unfold CONSECUTIVE_EXISTING_LIMIT; lia).
  cbn. repeat split.
Qed.

(** *** The counter and the stretches of a page *)

(** The run in progress, [c] long, is completed by the front of [ls]. *)
Definition completes (c : nat) (ls : list label) : Prop :=
  exists mid post,
    ls = mid ++ post /\ ~ In New mid /\
    (CONSECUTIVE_EXISTING_LIMIT <= c + knowns mid)%nat.

Lemma stretch_cons (n : nat) (l : label) (ls : list label) :
  has_stretch n ls -> has_stretch n (l :: ls).
Proof.
  intros (pre & mid & post & -> & Hn & Hk).
  exists (l :: pre), mid, post. repeat split; assumption.
Qed.

Lemma stretch_inv (n : nat) (l : label) (ls : list label) :
  (0 < n)%nat ->
  has_stretch n (l :: ls) ->
  (exists mid post,
      ls = mid ++ post /\ ~ In New (l :: mid) /\ (n <= knowns (l :: mid))%nat) \/
  has_stretch n ls.
Proof.
  intros Hpos (pre & mid & post & E & Hn & Hk).
  destruct pre as [|p pre].
  - destruct mid as [|m mid]; [cbn in Hk; lia|].
    injection E as -> ->. left. exists mid, post. repeat split; assumption.
  - injection E as -> ->. right. exists pre, mid, post. repeat split; assumption.
Qed.

Lemma completes_inv (c : nat) (l : label) (ls : list label) :
  (c < CONSECUTIVE_EXISTING_LIMIT)%nat ->
  completes c (l :: ls) ->
  exists mid post,
    ls = mid ++ post /\ ~ In New (l :: mid) /\
    (CONSECUTIVE_EXISTING_LIMIT <= c + knowns (l :: mid))%nat.
Proof.
  intros Hc (mid & post & E & Hn & Hk).
  destruct mid as [|m mid]; [cbn in Hk; lia|].
  injection E as -> ->. exists mid, post. repeat split; assumption.
Qed.

Lemma count_run_hit (ls : list label) :
  forall c, (c < CONSECUTIVE_EXISTING_LIMIT)%nat ->
  ((CONSECUTIVE_EXISTING_LIMIT <= count_run ls c)%nat <->
   completes c ls \/ has_stretch CONSECUTIVE_EXISTING_LIMIT ls).
Proof.
  assert (Hpos : (0 < CONSECUTIVE_EXISTING_LIMIT)%nat)
    by (unfold CONSECUTIVE_EXISTING_LIMIT; lia).
  induction ls as [|l ls IH]; intros c Hc.
  - cbn [count_run]. split; [lia|].
    intros [(mid & post & E & _ & Hk) | (pre & mid & post & E & _ & Hk)].
    + symmetry in E. apply app_eq_nil in E as [-> _]. cbn in Hk. lia.
    + symmetry in E. apply app_eq_nil in E as [_ E].
      apply app_eq_nil in E as [-> _]. cbn in Hk. lia.
  - destruct l; cbn [count_run].
    + (* a new item *)
      rewrite (IH 0%nat Hpos). split.
      * intros H. right. apply stretch_cons.
        destruct H as [(mid & post & E & Hn & Hk) | H]; [|exact H].
        exists [], mid, post. repeat split; assumption.
      * intros [H | H].
        -- apply (completes_inv c New ls Hc) in H as (mid & post & _ & Hn & _).
           exfalso. apply Hn. now left.
        -- apply (stretch_inv _ New ls Hpos) in H
             as [(mid & post & _ & Hn & _) | H]; [|right; exact H].
           exfalso. apply Hn. now left.
    + (* a known item *)
      destruct (CONSECUTIVE_EXISTING_LIMIT <=? c + 1)%nat eqn:Hlim.
      * apply Nat.leb_le in Hlim. split; [|lia].
        intros _. left. exists [Known], ls. repeat split;
          [intros [H | []]; discriminate H | cbn; lia].
      * apply Nat.leb_gt in Hlim. rewrite (IH (c + 1)%nat Hlim). split.
        -- intros [(mid & post & -> & Hn & Hk) | H].
           ++ left. exists (Known :: mid), post. repeat split.
              ** intros [H | H]; [discriminate H | exact (Hn H)].
              ** unfold knowns in *. cbn [filter length]. lia.
           ++ right. apply stretch_cons. exact H.
        -- intros [H | H].
           ++ apply (completes_inv c Known ls Hc) in H as (mid & post & -> & Hn & Hk).
              left. exists mid, post. repeat split.
              ** intros H. apply Hn. now right.
              ** unfold knowns in *. cbn [filter length] in Hk. lia.
           ++ apply (stretch_inv _ Known ls Hpos) in H
                as [(mid & post & -> & Hn & Hk) | H]; [|right; exact H].
              left. exists mid, post. repeat split.
              ** intros H. apply Hn. now right.
              ** unfold knowns in *. cbn [filter length] in Hk. lia.
    + (* an element that could not be read *)
      rewrite (IH c Hc). split.
      * intros [(mid & post & -> & Hn & Hk) | H].
        -- left. exists (Unreadable :: mid), post. repeat split.
           ++ intros [H | H]; [discriminate H | exact (Hn H)].
           ++ exact Hk.
        -- right. apply stretch_cons. exact H.
      * intros [H | H].
        -- apply (completes_inv c Unreadable ls Hc) in H as (mid & post & -> & Hn & Hk).
           left. exists mid, post. repeat split.
           ++ intros H. apply Hn. now right.
           ++ exact Hk.
        -- apply (stretch_inv _ Unreadable ls Hpos) in H
             as [(mid & post & -> & Hn & Hk) | H]; [|right; exact H].
           left. exists mid, post. repeat split.
           ++ intros H. apply Hn. now right.
           ++ unfold knowns in *. cbn [filter length] in Hk. lia.
Qed.

Lemma count_run_stretch (ls : list label) :
  (CONSECUTIVE_EXISTING_LIMIT <= count_run ls 0)%nat <->
  has_stretch CONSECUTIVE_EXISTING_LIMIT ls.
Proof.
  rewrite count_run_hit by (unfold CONSECUTIVE_EXISTING_LIMIT; lia).
  split; [|now right].
  intros [(mid & post & E & Hn & Hk) | H]; [|exact H].
  exists [], mid, post. repeat split; assumption.
Qed.

(** The scraper after one turn of the [while] loop on a page. *)
Definition after_page (s : scraper) (page_num : Z) (pg : page_env) : scraper :=
  tally (snd (process_page s page_num pg)) (fst (process_page s page_num pg)).

Lemma run_loop_turn (s : scraper) (page_num : Z) (tn : turn) (rest : list turn) :
  interrupted tn = false ->
  run_loop s page_num (tn :: rest) =
  if (CONSECUTIVE_EXISTING_LIMIT <=?
        consecutive_existing (stat (after_page s page_num (page tn))))%nat
  then (after_page s page_num (page tn), Some ConsecutiveExisting)
  else run_loop (after_page s page_num (page tn)) (page_num + 1) rest.
Proof.
  intros Hi. cbn [run_loop]. rewrite Hi. unfold after_page.
  destruct (process_page s page_num (page tn)) as [s1 r]. reflexivity.
Qed.

Lemma after_listing_counter (s : scraper) (page_num t : Z) (html : str)
    (elts : list pyval) :
  (MIN_BODY <= length html)%nat ->
  (consecutive_existing (stat s) < CONSECUTIVE_EXISTING_LIMIT)%nat ->
  ((CONSECUTIVE_EXISTING_LIMIT <=
    consecutive_existing
      (stat (after_page s page_num (page (listing html elts t)))))%nat <->
   has_stretch CONSECUTIVE_EXISTING_LIMIT
     (map (label_of (properties_coll s)) elts)).
Proof.
  intros Hl Hc. unfold after_page.
  rewrite (process_listing s page_num t html elts Hl).
  pose proof (scan_counter (properties_coll s) page_num t elts [] 0%nat no_result)
    as Hcount.
  destruct (scan (properties_coll s) page_num t elts [] 0%nat no_result)
    as [[news k] res].
  cbn [fst snd] in Hcount. cbn [fst snd tally stat consecutive_existing].
  rewrite <- count_run_stretch, <- Hcount.
  destruct (CONSECUTIVE_EXISTING_LIMIT <=? k)%nat eqn:Hk.
  - apply Nat.leb_le in Hk. cbn [set_consecutive consecutive_existing]. tauto.
  - apply Nat.leb_gt in Hk. lia.
Qed.

(** C10.  The counter of consecutive existing properties belongs to the
    page.  From a scraper that has not yet met the limit, a listing page
    brings the stop exactly when the page itself holds a stretch with no
    new item and two existing ones (elements that could not be read
    aside); what the pages before it held plays no part.  Hence two pages
    in a row, neither with such a stretch, are both processed and the run
    goes on with the page after them, however many existing items end the
    first and start the second. *)
Theorem known_counter_is_per_page :
  (forall s page_num t html elts,
      (MIN_BODY <= length html)%nat ->
      (consecutive_existing (stat s) < CONSECUTIVE_EXISTING_LIMIT)%nat ->
      ((CONSECUTIVE_EXISTING_LIMIT <=
        consecutive_existing
          (stat (after_page s page_num (page (listing html elts t)))))%nat <->
       has_stretch CONSECUTIVE_EXISTING_LIMIT
         (map (label_of (properties_coll s)) elts))) /\
  (forall s page_num t html elts rest,
      (MIN_BODY <= length html)%nat ->
      (consecutive_existing (stat s) < CONSECUTIVE_EXISTING_LIMIT)%nat ->
      has_stretch CONSECUTIVE_EXISTING_LIMIT
        (map (label_of (properties_coll s)) elts) ->
      run_loop s page_num (listing html elts t :: rest) =
      (after_page s page_num (page (listing html elts t)),
       Some ConsecutiveExisting)) /\
  (forall s page_num t1 t2 h1 h2 elts1 elts2 rest,
      (MIN_BODY <= length h1)%nat ->
      (MIN_BODY <= length h2)%nat ->
      (consecutive_existing (stat s) < CONSECUTIVE_EXISTING_LIMIT)%nat ->
      let s1 := after_page s page_num (page (listing h1 elts1 t1)) in
      let s2 := after_page s1 (page_num + 1) (page (listing h2 elts2 t2)) in
      ~ has_stretch CONSECUTIVE_EXISTING_LIMIT
          (map (label_of (properties_coll s)) elts1) ->
      ~ has_stretch CONSECUTIVE_EXISTING_LIMIT
          (map (label_of (properties_coll s1)) elts2) ->
      run_loop s page_num (listing h1 elts1 t1 :: listing h2 elts2 t2 :: rest) =
      run_loop s2 (page_num + 1 + 1) rest).
Proof.
  split; [|split].
  - intros. apply after_listing_counter; assumption.
  - intros s page_num t html elts rest Hl Hc Hs.
    rewrite run_loop_turn by reflexivity.
    apply (after_listing_counter s page_num t html elts Hl Hc) in Hs.
    apply Nat.leb_le in Hs. rewrite Hs. reflexivity.
  - intros s page_num t1 t2 h1 h2 elts1 elts2 rest Hl1 Hl2 Hc s1 s2 N1 N2.
    assert (H1 : (consecutive_existing (stat s1) < CONSECUTIVE_EXISTING_LIMIT)%nat).
    { apply Nat.nle_gt. intros H. apply N1.
      apply (after_listing_counter s page_num t1 h1 elts1 Hl1 Hc). exact H. }
    assert (H2 : (consecutive_existing (stat s2) < CONSECUTIVE_EXISTING_LIMIT)%nat).
    { apply Nat.nle_gt. intros H. apply N2.
      apply (after_listing_counter s1 (page_num + 1) t2 h2 elts2 Hl2 H1). exact H. }
    rewrite run_loop_turn by reflexivity. fold s1.
    apply Nat.leb_gt in H1. rewrite H1.
    rewrite run_loop_turn by reflexivity. fold s2.
    apply Nat.leb_gt in H2. rewrite H2. reflexivity.
Qed.

(** *** What a run leaves alone *)

(** No document of [news] names a row of [coll]. *)
Definition unknown_to (coll : list item_row) (news : list harvest_doc) : Prop :=
  Forall (fun d => property_exists (upsert_key d) coll = false) news.

Lemma scan_unknown (coll : list item_row) (page_num t : Z) (elts : list pyval) :
  forall news c res,
  unknown_to coll news ->
  unknown_to coll (fst (fst (scan coll page_num t elts news c res))).
Proof.
  unfold unknown_to.
  induction elts as [|el rest IH]; intros news c res Hn; [exact Hn|].
  cbn [scan].
  destruct (extract_property_from_item unicode_Nd dumps md5_hexdigest el page_num t)
    as [d|] eqn:He; [|apply IH; exact Hn].
  destruct (property_exists (property_id d) coll) eqn:Hex.
  - destruct (CONSECUTIVE_EXISTING_LIMIT <=? c + 1)%nat; [exact Hn | apply IH; exact Hn].
  - apply IH. apply Forall_app. split; [exact Hn|].
    constructor; [|constructor].
    destruct (extract_keyed el page_num t d He) as [Hk _]. rewrite Hk. exact Hex.
Qed.

Lemma insert_frame (coll : list item_row) (news : list harvest_doc)
    (id : str) (row : item_row) :
  Forall keyed news -> unknown_to coll news ->
  find_row id coll = Some row ->
  find_row id (bulk_upsert_items Incremental coll news) = Some row.
Proof.
  intros Hk Hn Hf. rewrite <- Hf. apply bulk_untouched; [exact Hk|].
  clear Hk. unfold mentions. induction Hn as [|d ds Hd _ IH]; [reflexivity|].
  cbn [filter]. destruct (str_eqb (upsert_key d) id) eqn:E; [|exact IH].
  apply str_eqb_eq in E. subst id.
  unfold property_exists in Hd. rewrite Hf in Hd. discriminate Hd.
Qed.

Lemma process_page_frame (s : scraper) (page_num : Z) (pg : page_env)
    (id : str) (row : item_row) :
  find_row id (properties_coll s) = Some row ->
  find_row id (properties_coll (fst (process_page s page_num pg))) = Some row.
Proof.
  intros Hf. unfold process_page.
  destruct (fetched pg) as [|status html]; [exact Hf|].
  destruct (negb (status =? 200)%Z); [exact Hf|].
  destruct (length html <? MIN_BODY)%nat; [exact Hf|].
  destruct (parsed pg) as [ld|]; [|exact Hf].
  destruct (negb (truthy ld)); [exact Hf|].
  unfold _process_properties.
  destruct ld as [| | | | | |d]; try exact Hf.
  destruct (negb (truthy (py_or (get (lit "itemListElement") d) (PList []))));
    [exact Hf|].
  destruct (iterate (py_or (get (lit "itemListElement") d) (PList []))) as [l|];
    cbn [Py.bind]; [|exact Hf].
  cbn [request properties_coll].
  pose proof (scan_keyed (properties_coll s) page_num (now pg) l [] 0%nat no_result
                (Forall_nil _)) as Hk.
  pose proof (scan_unknown (properties_coll s) page_num (now pg) l [] 0%nat no_result
                (Forall_nil _)) as Hn.
  destruct (scan (properties_coll s) page_num (now pg) l [] 0 no_result)
    as [[news c] res].
  cbn [fst properties_coll] in *.
  destruct (is_empty news); [exact Hf|].
  apply insert_frame; assumption.
Qed.

Lemma run_loop_frame (turns : list turn) :
  forall s page_num id row,
  find_row id (properties_coll s) = Some row ->
  find_row id (properties_coll (fst (run_loop s page_num turns))) = Some row.
Proof.
  induction turns as [|tn rest IH]; intros s page_num id row Hf; [exact Hf|].
  cbn [run_loop]. destruct (interrupted tn); [exact Hf|].
  pose proof (process_page_frame s page_num (page tn) id row Hf) as Hp.
  destruct (process_page s page_num (page tn)) as [s1 r].
  cbn [fst] in Hp.
  destruct (CONSECUTIVE_EXISTING_LIMIT <=? consecutive_existing (stat (tally r s1)))%nat;
    [exact Hp|].
  apply IH. exact Hp.
Qed.

(** X6.  The incremental harvester never rewrites a listing it already
    knows: a row that is in the collection when the run starts is there,
    unchanged in every field, when the run ends, whatever the pages
    hold.  So a known listing seen again keeps its old [last_seen] and
    [current_price], and gains no appearance. *)
Theorem known_listings_are_never_rewritten (s : scraper) (turns : list turn)
    (late_signal : bool) (id : str) (row : item_row) :
  find_row id (properties_coll s) = Some row ->
  find_row id (properties_coll (fst (run s turns late_signal))) = Some row.
Proof.
  intros Hf. unfold run.
  pose proof (run_loop_frame turns s 1%Z id row Hf) as H.
  destruct (run_loop s 1 turns) as [s' stop]. exact H.
Qed.

(** *** The pages of a run *)

Lemma process_page_requested (s : scraper) (page_num : Z) (pg : page_env) :
  requested (fst (process_page s page_num pg)) = requested s ++ [page_num] /\
  pages_scraped (stat (fst (process_page s page_num pg))) = pages_scraped (stat s).
Proof.
  unfold process_page.
  destruct (fetched pg) as [|status html]; [split; reflexivity|].
  destruct (negb (status =? 200)%Z); [split; reflexivity|].
  destruct (length html <? MIN_BODY)%nat; [split; reflexivity|].
  destruct (parsed pg) as [ld|]; [|split; reflexivity].
  destruct (negb (truthy ld)); [split; reflexivity|].
  unfold _process_properties.
  destruct ld as [| | | | | |d]; try (split; reflexivity).
  destruct (negb (truthy (py_or (get (lit "itemListElement") d) (PList []))));
    [split; reflexivity|].
  destruct (iterate (py_or (get (lit "itemListElement") d) (PList []))) as [l|];
    cbn [Py.bind]; [|split; reflexivity].
  destruct (scan (properties_coll (request page_num s)) page_num (now pg) l [] 0
              no_result) as [[news c] res].
  cbn [fst requested stat request].
  destruct (CONSECUTIVE_EXISTING_LIMIT <=? c)%nat; split; reflexivity.
Qed.

Lemma run_loop_shape (turns : list turn) :
  forall s page_num,
  exists k,
    (k <= length turns)%nat /\
    requested (fst (run_loop s page_num turns)) = requested s ++ numbered page_num k /\
    pages_scraped (stat (fst (run_loop s page_num turns)))
      = (pages_scraped (stat s) + k)%nat /\
    (snd (run_loop s page_num turns) = None -> k = length turns).
Proof.
  induction turns as [|tn rest IH]; intros s page_num.
  - exists 0%nat. cbn. rewrite app_nil_r. repeat split; lia.
  - cbn [run_loop]. destruct (interrupted tn).
    + exists 0%nat. cbn. rewrite app_nil_r. repeat split; (lia || discriminate).
    + destruct (process_page_requested s page_num (page tn)) as [Hr Hp].
      destruct (process_page s page_num (page tn)) as [s1 r].
      cbn [fst] in Hr, Hp.
      destruct (CONSECUTIVE_EXISTING_LIMIT <=? consecutive_existing (stat (tally r s1)))%nat.
      * exists 1%nat. cbn [fst snd tally requested stat pages_scraped numbered length].
        rewrite Hr, Hp. repeat split; (lia || discriminate).
      * destruct (IH (tally r s1) (page_num + 1)%Z) as (k & Hk & Hreq & Hpages & Hall).
        exists (S k). cbn [length numbered].
        rewrite Hreq, Hpages. cbn [tally requested stat pages_scraped].
        rewrite Hr, Hp, <- app_assoc. cbn [app].
        repeat split; try lia. intros H. rewrite (Hall H). reflexivity.
Qed.

(** X7.  A run of the incremental harvester requests pages with
    consecutive numbers, each once: [pages_scraped] goes up by the
    number of pages requested, failed pages included, and when the loop
    ends without a stop every page up to [max_pages] was requested. *)
Theorem incremental_run_requests_each_page_once (s : scraper) (page_num : Z)
    (turns : list turn) :
  exists k,
    (k <= length turns)%nat /\
    requested (fst (run_loop s page_num turns)) = requested s ++ numbered page_num k /\
    pages_scraped (stat (fst (run_loop s page_num turns)))
      = (pages_scraped (stat s) + k)%nat /\
    (snd (run_loop s page_num turns) = None -> k = length turns).
Proof. apply run_loop_shape. Qed.

(** A page that [process_page] gives up on before it reads an item. *)
Definition failing (pg : page_env) : bool :=
  match fetched pg with
  | FetchRaised => true
  | Response status html =>
      negb (status =? 200)%Z || (length html <? MIN_BODY)%nat ||
      match parsed pg with
      | Raised => true
      | Ok ldjson => negb (truthy ldjson)
      end
  end.

Lemma process_page_failing (s : scraper) (page_num : Z) (pg : page_env) :
  failing pg = true ->
  let s' := fst (process_page s page_num pg) in
  snd (process_page s page_num pg) = error_result /\
  properties_coll s' = properties_coll s /\
  consecutive_existing (stat s') = consecutive_existing (stat s) /\
  new_properties (stat s') = new_properties (stat s) /\
  existing_properties (stat s') = existing_properties (stat s).
Proof.
  unfold failing, process_page.
  destruct (fetched pg) as [|status html]; [intros _; cbn; repeat split|].
  destruct (negb (status =? 200)%Z); [intros _; cbn; repeat split|].
  destruct (length html <? MIN_BODY)%nat; [intros _; cbn; repeat split|].
  destruct (parsed pg) as [ld|]; [|intros _; cbn; repeat split].
  cbn [orb]. intros ->. cbn. repeat split.
Qed.

Lemma run_loop_failing (turns : list turn) :
  forall s page_num,
  Forall (fun tn => interrupted tn = false /\ failing (page tn) = true) turns ->
  (consecutive_existing (stat s) < CONSECUTIVE_EXISTING_LIMIT)%nat ->
  let r := run_loop s page_num turns in
  snd r = None /\
  requested (fst r) = requested s ++ numbered page_num (length turns) /\
  properties_coll (fst r) = properties_coll s /\
  pages_scraped (stat (fst r)) = (pages_scraped (stat s) + length turns)%nat /\
  new_properties (stat (fst r)) = new_properties (stat s) /\
  existing_properties (stat (fst r)) = existing_properties (stat s).
Proof.
  induction turns as [|tn rest IH]; intros s page_num Hall Hc.
  - cbn. rewrite app_nil_r. repeat split; lia.
  - inversion Hall as [|? ? [Hi Hf] Hrest]; subst.
    cbv zeta. cbn [run_loop]. rewrite Hi.
    destruct (process_page_requested s page_num (page tn)) as [Hr Hp].
    destruct (process_page_failing s page_num (page tn) Hf)
      as (Hres & Hcoll & Hcons & Hnew & Hex).
    destruct (process_page s page_num (page tn)) as [s1 r].
    cbn [fst snd] in *. subst r.
    assert (Hlt : (CONSECUTIVE_EXISTING_LIMIT <=?
                   consecutive_existing (stat (tally error_result s1)))%nat = false).
    { apply Nat.leb_gt. cbn [tally stat consecutive_existing]. lia. }
    rewrite Hlt.
    destruct (IH (tally error_result s1) (page_num + 1)%Z Hrest)
      as (H1 & H2 & H3 & H4 & H5 & H6).
    { cbn [tally stat consecutive_existing]. lia. }
    rewrite H1, H2, H3, H4, H5, H6.
    cbn [tally requested properties_coll stat pages_scraped new_properties
         existing_properties error_result res_new res_existing length numbered].
    rewrite Hr, Hcoll, Hp, Hnew, Hex, <- app_assoc. cbn [app].
    repeat split; lia.
Qed.

(** X8.  The incremental harvester has no empty-page limit: when every
    page fails (the request raises, the status is not 200, the body is
    shorter than 1000 characters, the parse raises or gives nothing),
    the run asks for every page up to [max_pages], one request each,
    counts each as scraped, stores nothing and ends without a stop. *)
Theorem failed_pages_do_not_stop_the_incremental_run (s : scraper)
    (page_num : Z) (turns : list turn) :
  Forall (fun tn => interrupted tn = false /\ failing (page tn) = true) turns ->
  (consecutive_existing (stat s) < CONSECUTIVE_EXISTING_LIMIT)%nat ->
  let r := run_loop s page_num turns in
  snd r = None /\
  requested (fst r) = requested s ++ numbered page_num (length turns) /\
  properties_coll (fst r) = properties_coll s /\
  pages_scraped (stat (fst r)) = (pages_scraped (stat s) + length turns)%nat /\
  new_properties (stat (fst r)) = new_properties (stat s) /\
  existing_properties (stat (fst r)) = existing_properties (stat s).
Proof. apply run_loop_failing. Qed.

End Scraper.

(** *** Page streams to run the scraper on *)

(** A body long enough to pass for a listing page. *)
Definition body : str := repeat 32%N 1000.

Lemma body_long : (MIN_BODY <= length body)%nat.
Proof. unfold MIN_BODY, body. rewrite repeat_length. apply le_n. Defined.

(** A collection that already knows the listings 7, 8 and 9. *)
Definition known_coll : list item_row :=
  bulk_upsert_items Incremental [] [doc_n "7" 1 10; doc_n "8" 1 10; doc_n "9" 1 10].

(** Three new items; two known items; one known item. *)
Definition stream_3_2_1 : list turn :=
  [listing body [item_n "1"; item_n "2"; item_n "3"] 100;
   listing body [item_n "7"; item_n "8"] 200;
   listing body [item_n "9"] 300].

(** A known item ends the first page and another starts the second. *)
Definition stream_boundary : list turn :=
  [listing body [item_n "1"; item_n "7"] 100;
   listing body [item_n "8"; item_n "2"] 200;
   listing body [item_n "3"] 300].

Lemma incremental_stops_on_known_page_witness :
  requested
    (fst (run ascii_Nd null_dumps echo_digest (fresh known_coll) stream_3_2_1 false))
  = [1; 2]%Z /\
  sum_new_properties
    (snd (run ascii_Nd null_dumps echo_digest (fresh known_coll) stream_3_2_1 false))
  = 3%nat.
Proof.
  destruct (incremental_stops_on_known_page ascii_Nd null_dumps echo_digest
              known_coll (item_n "1") (item_n "2") (item_n "3")
              (item_n "7") (item_n "8")
              (doc_n "1" 1 100) (doc_n "2" 1 100) (doc_n "3" 1 100)
              (doc_n "7" 2 200) (doc_n "8" 2 200)
              body body 100 200 (listing body [item_n "9"] 300) false)
    as [(Hreq & _ & _ & Hnew & _) _];
    [apply body_long | apply body_long | vm_compute; reflexivity ..
    | split; [exact Hreq | exact Hnew]].
Defined.

(** C2, the claim as worded, fails on the page at which the run stops:
    on the stream of three new items, two known items, one known item,
    the scraper requests pages 1 and 2 and counts two pages scraped; the
    third page is never requested. *)
Lemma stream_stops_after_second_page :
  requested
    (fst (run ascii_Nd null_dumps echo_digest (fresh known_coll) stream_3_2_1 false))
  = [1; 2]%Z /\
  sum_pages_scraped
    (snd (run ascii_Nd null_dumps echo_digest (fresh known_coll) stream_3_2_1 false))
  = 2%nat /\
  why (snd (run ascii_Nd null_dumps echo_digest (fresh known_coll) stream_3_2_1 false))
  = ConsecutiveExisting.
Proof. vm_compute. repeat split. Qed.

Lemma known_counter_is_per_page_witness :
  map (label_of ascii_Nd null_dumps echo_digest known_coll)
    [item_n "1"; item_n "7"] = [New; Known] /\
  requested
    (fst (run_loop ascii_Nd null_dumps echo_digest (fresh known_coll) 1 stream_boundary))
  = [1; 2; 3]%Z /\
  snd (run_loop ascii_Nd null_dumps echo_digest (fresh known_coll) 1 stream_boundary)
  = None.
Proof.
  split; [vm_compute; reflexivity|].
  destruct (known_counter_is_per_page ascii_Nd null_dumps echo_digest)
    as (_ & _ & Hgo).
  unfold stream_boundary.
  rewrite Hgo.
  - vm_compute. split; reflexivity.
  - apply body_long.
  - apply body_long.
  - vm_compute. lia.
  - intros H. apply count_run_stretch in H. vm_compute in H. lia.
  - intros H. apply count_run_stretch in H. vm_compute in H. lia.
Defined.

Lemma known_listings_are_never_rewritten_witness :
  find_row (lit "7")
    (properties_coll
       (fst (run ascii_Nd null_dumps echo_digest (fresh known_coll) stream_3_2_1 false)))
  = find_row (lit "7") known_coll /\
  option_map last_seen (find_row (lit "7") known_coll) = Some 10%Z.
Proof.
  split; [|vm_compute; reflexivity].
  destruct (find_row (lit "7") known_coll) as [row|] eqn:Hf;
    [|vm_compute in Hf; discriminate Hf].
  apply (known_listings_are_never_rewritten ascii_Nd null_dumps echo_digest
           (fresh known_coll) stream_3_2_1 false (lit "7") row).
  exact Hf.
Defined.

(** Seven pages that are not there. *)
Definition dead_stream : list turn :=
  repeat {| interrupted := false; page := not_found |} 7.

Lemma failed_pages_do_not_stop_the_incremental_run_witness :
  requested
    (fst (run_loop ascii_Nd null_dumps echo_digest (fresh known_coll) 1 dead_stream))
  = [1; 2; 3; 4; 5; 6; 7]%Z /\
  snd (run_loop ascii_Nd null_dumps echo_digest (fresh known_coll) 1 dead_stream)
  = None.
Proof.
  destruct (failed_pages_do_not_stop_the_incremental_run
              ascii_Nd null_dumps echo_digest (fresh known_coll) 1 dead_stream)
    as (Hstop & Hreq & _).
  - apply Forall_forall. intros tn Htn. apply repeat_spec in Htn. subst tn.
    split; reflexivity.
  - cbn. unfold CONSECUTIVE_EXISTING_LIMIT. lia.
  - split; [rewrite Hreq; reflexivity | exact Hstop].
Defined.

End Incremental.

(** ** Bot-challenge detector

    [_detect_bot_challenge], the same in [bayut_detail_scraper.py] and
    [bayut_detail_scraper_async.py]. *)

Module Detector.

Definition essential_fields : list str :=
  [lit "price"; lit "bedrooms"; lit "headline"; lit "locality"].

Definition bot_indicators : list str :=
  [lit "please verify you are human";
   lit "captcha";
   lit "robot";
   lit "cloudflare";
   lit "access denied";
   lit "blocked";
   lit "rate limit";
   lit "too many requests";
   lit "suspicious activity"].

Definition MISSING_LIMIT : nat := 3.

Section Detect.

(** [str.lower] *)
Variable lower : str -> str.

(** [sum(1 for field in essential_fields if not extracted_data.get(field))] *)
Definition missing_fields (extracted_data : list (str * pyval)) : nat :=
  length (filter (fun field => negb (truthy (get field extracted_data)))
            essential_fields).

Definition _detect_bot_challenge (html : str) (extracted_data : list (str * pyval))
  : bool :=
  if (MISSING_LIMIT <=? missing_fields extracted_data)%nat then true
  else existsb (fun indicator => contains indicator (lower html)) bot_indicators.

(** The field is not there, or is there with a value that counts as
    false: [None], zero, [False], an empty string, list or dict. *)
Definition lacks (extracted_data : list (str * pyval)) (field : str) : bool :=
  match lookup field extracted_data with
  | None => true
  | Some v => negb (truthy v)
  end.

(** The field is not a key of the dict. *)
Definition absent (extracted_data : list (str * pyval)) (field : str) : bool :=
  negb (has_key field extracted_data).

(** [s] occurs in [t]. *)
Definition occurs_in (s t : str) : Prop := exists pre post, t = pre ++ s ++ post.

(** The body shows one of the indicators, letter case aside. *)
Definition shows_indicator (html : str) : Prop :=
  exists indicator, In indicator bot_indicators /\ occurs_in indicator (lower html).

Lemma contains_occurs (needle hay : str) :
  contains needle hay = true <-> occurs_in needle hay.
Proof.
  unfold occurs_in. split.
  - induction hay as [|c hay IH]; cbn [contains]; rewrite orb_true_iff.
    + intros [H | H]; [|discriminate].
      apply Identity.starts_with_app in H as [r ->]. exists [], r. reflexivity.
    + intros [H | H].
      * apply Identity.starts_with_app in H as [r ->]. exists [], r. reflexivity.
      * destruct (IH H) as (pre & post & ->). exists (c :: pre), post. reflexivity.
  - intros (pre & post & ->).
    induction pre as [|c pre IH].
    + assert (H : starts_with needle (needle ++ post) = true)
        by (apply Identity.starts_with_app; exists post; reflexivity).
      destruct (needle ++ post) eqn:E; cbn [app contains]; rewrite H; reflexivity.
    + cbn [app contains]. rewrite IH. apply orb_true_r.
Qed.

Lemma missing_lacks (extracted_data : list (str * pyval)) :
  missing_fields extracted_data =
  length (filter (lacks extracted_data) essential_fields).
Proof.
  unfold missing_fields. f_equal. apply filter_ext. intros field.
  unfold lacks, get, get_default.
  destruct (lookup field extracted_data); reflexivity.
Qed.

Lemma indicator_shown (html : str) :
  existsb (fun indicator => contains indicator (lower html)) bot_indicators = true
  <-> shows_indicator html.
Proof.
  unfold shows_indicator. rewrite existsb_exists.
  split; intros (i & Hi & H); exists i; (split; [exact Hi|]);
    apply contains_occurs; exact H.
Qed.

(** C4 (as amended).  The detector answers from the body and the
    extracted fields alone.  It answers Challenge exactly when at least 3
    of the 4 essential fields are lacking, a field being lacking when it
    is absent or present with a value that counts as false, or when the
    lower-cased body contains one of the indicator phrases; either is
    enough, and when neither holds it answers Normal. *)
Theorem detector_rule (html : str) (extracted_data : list (str * pyval)) :
  (_detect_bot_challenge html extracted_data = true <->
   (MISSING_LIMIT <= length (filter (lacks extracted_data) essential_fields))%nat \/
   shows_indicator html) /\
  (_detect_bot_challenge html extracted_data = false <->
   (length (filter (lacks extracted_data) essential_fields) < MISSING_LIMIT)%nat /\
   ~ shows_indicator html).
Proof.
  unfold _detect_bot_challenge. rewrite missing_lacks, <- indicator_shown.
  destruct (MISSING_LIMIT <=? _)%nat eqn:Hm.
  - apply Nat.leb_le in Hm. split; split; try tauto; try discriminate.
    intros [H _]. lia.
  - apply Nat.leb_gt in Hm.
    destruct (existsb _ bot_indicators); split; split;
      try tauto; try discriminate; try (intros [H | H]; [lia | congruence]);
      try (intros _; split; [exact Hm | discriminate]);
      try (intros [_ H]; exfalso; apply H; reflexivity).
Qed.

End Detect.

(** A studio whose page gave a price and a bedroom count of 0, but no
    headline and no locality. *)
Definition studio_page : str :=
  lit "<html><body><h1>Studio, Dubai Marina</h1></body></html>".
Definition studio_fields : list (str * pyval) :=
  [(lit "bedrooms", PInt 0); (lit "price", PInt 1500000)].

(** C4, the claim as worded, fails where a field is present with a
    value that counts as false: two essential fields are absent, the
    body shows no indicator, and the detector answers Challenge. *)
Lemma present_zero_counts_as_missing :
  _detect_bot_challenge ascii_lower studio_page studio_fields = true /\
  length (filter (absent studio_fields) essential_fields) = 2%nat /\
  existsb (fun indicator => contains indicator (ascii_lower studio_page))
    bot_indicators = false.
Proof. vm_compute. repeat split. Qed.

End Detector.

(** ** Python floats

    A [float] is an IEEE 754 binary64 number; [SpecFloat] of the
    Standard Library gives its arithmetic.  Here are the three
    operations that [int(n * x)] goes through for an [int] [n] and a
    [float] [x]: the conversion of [n], which rounds to the nearest
    float, ties to even, and raises [OverflowError] when that is out of
    range; the product, which rounds the same way and overflows to an
    infinity without raising; and the truncation to an [int], which
    raises on an infinity and on a NaN. *)

Module Binary64.

Import SpecFloat.

Definition prec : Z := 53.
Definition emax : Z := 1024.

(** [float(n)] *)
Definition of_int (n : Z) : exc spec_float :=
  match binary_normalize prec emax n 0 false with
  | S754_infinity _ => Raised
  | f => Ok f
  end.

(** [x * y] *)
Definition mul : spec_float -> spec_float -> spec_float := SFmul prec emax.

(** [int(x)] *)
Definition to_int (x : spec_float) : exc Z :=
  match x with
  | S754_zero _ => Ok 0%Z
  | S754_finite s m e =>
      Ok (cond_Zopp s (if (e <? 0)%Z then Z.quot (Zpos m) (2 ^ (- e))
                       else (Zpos m * 2 ^ e)%Z))
  | _ => Raised
  end.

(** *** Numbers that need no rounding *)

Local Open Scope Z_scope.

Lemma digits2_bounds (p : positive) :
  2 ^ (Zpos (digits2_pos p) - 1) <= Zpos p < 2 ^ Zpos (digits2_pos p).
Proof.
  induction p as [p IH|p IH|]; cbn [digits2_pos]; [| |cbn; lia];
    rewrite Pos2Z.inj_succ;
    replace (Z.succ (Zpos (digits2_pos p)) - 1) with (Z.succ (Zpos (digits2_pos p) - 1))
      by lia;
    rewrite !Z.pow_succ_r by lia; lia.
Qed.

Lemma digits2_unique (p : positive) (k : Z) :
  2 ^ (k - 1) <= Zpos p < 2 ^ k -> Zpos (digits2_pos p) = k.
Proof.
  intros [Hlo Hhi]. pose proof (digits2_bounds p) as [Hlo' Hhi'].
  assert (0 < k).
  { destruct (Z.ltb_spec 0 k); [assumption|].
    assert (2 ^ k <= 2 ^ 0) by (apply Z.pow_le_mono_r; lia). cbn in *. lia. }
  destruct (Z.lt_trichotomy (Zpos (digits2_pos p)) k) as [Hlt | [Heq | Hgt]];
    [|exact Heq|].
  - assert (2 ^ Zpos (digits2_pos p) <= 2 ^ (k - 1))
      by (apply Z.pow_le_mono_r; lia). lia.
  - assert (2 ^ k <= 2 ^ (Zpos (digits2_pos p) - 1))
      by (apply Z.pow_le_mono_r; lia). lia.
Qed.

Lemma digits2_small (p : positive) (k : Z) :
  Zpos p < 2 ^ k -> Zpos (digits2_pos p) <= k.
Proof.
  intros Hp. pose proof (digits2_bounds p) as [Hlo _].
  destruct (Z.leb_spec (Zpos (digits2_pos p)) k); [assumption|].
  assert (2 ^ k <= 2 ^ (Zpos (digits2_pos p) - 1))
    by (apply Z.pow_le_mono_r; lia). lia.
Qed.

Lemma pow2_xI (d : positive) : 2 ^ Zpos d~1 = 2 * (2 ^ Zpos d * 2 ^ Zpos d).
Proof.
  rewrite (Pos2Z.inj_xI d).
  replace (2 * Zpos d + 1) with (Z.succ (Zpos d + Zpos d)) by lia.
  rewrite Z.pow_succ_r, Z.pow_add_r by lia. reflexivity.
Qed.

Lemma pow2_xO (d : positive) : 2 ^ Zpos d~0 = 2 ^ Zpos d * 2 ^ Zpos d.
Proof.
  rewrite (Pos2Z.inj_xO d). replace (2 * Zpos d) with (Zpos d + Zpos d) by lia.
  rewrite Z.pow_add_r by lia. reflexivity.
Qed.

Lemma iter_xO (q d : positive) : Zpos (Pos.iter xO q d) = Zpos q * 2 ^ Zpos d.
Proof.
  revert q. induction d as [d IH|d IH|]; intros q; cbn [Pos.iter].
  - rewrite pow2_xI, (Pos2Z.inj_xO (Pos.iter xO (Pos.iter xO q d) d)), !IH. lia.
  - rewrite pow2_xO, !IH. lia.
  - rewrite (Pos2Z.inj_xO q). lia.
Qed.

(** Shifting out zero bits leaves nothing to round. *)
Lemma shr_exact (d q : positive) :
  iter_pos shr_1 d
    {| shr_m := Zpos (Pos.iter xO q d); shr_r := false; shr_s := false |}
  = {| shr_m := Zpos q; shr_r := false; shr_s := false |}.
Proof.
  revert q. induction d as [d IH|d IH|]; intros q; cbn [iter_pos Pos.iter].
  - cbn [shr_1 orb]. rewrite !IH. reflexivity.
  - rewrite !IH. reflexivity.
  - reflexivity.
Qed.

(** A mantissa that is one of 53 bits followed by [n] zero bits rounds
    to that one. *)
Lemma round_exact (m q : positive) (n e : Z) :
  0 <= n ->
  Zpos m = Zpos q * 2 ^ n ->
  Zpos (digits2_pos q) = 53 ->
  -1074 <= e + n <= 971 ->
  binary_round_aux 53 1024 false (Zpos m) e loc_Exact = S754_finite false q (e + n).
Proof.
  intros Hn Hm Hq He.
  assert (Hdm : Zpos (digits2_pos m) = 53 + n).
  { apply digits2_unique. pose proof (digits2_bounds q) as Hb. rewrite Hq in Hb.
    rewrite Hm. replace (53 + n - 1) with (52 + n) by lia.
    rewrite !Z.pow_add_r by lia. change (53 - 1) with 52 in Hb.
    assert (0 < 2 ^ n) by (apply Z.pow_pos_nonneg; lia). nia. }
  unfold binary_round_aux, shr_fexp. cbn [Zdigits2].
  rewrite Hdm. unfold fexp, emin.
  rewrite Z.max_l by lia.
  replace (53 + n + e - 53 - e) with n by lia.
  cbn [shr_record_of_loc].
  assert (Hshr : shr {| shr_m := Zpos m; shr_r := false; shr_s := false |} e n
                 = ({| shr_m := Zpos q; shr_r := false; shr_s := false |}, e + n)).
  { unfold shr. destruct n as [|d|d]; [| |lia].
    - rewrite Z.add_0_r. f_equal. f_equal. rewrite Hm. cbn. lia.
    - assert (m = Pos.iter xO q d)
        by (apply Pos2Z.inj; rewrite Hm, iter_xO; reflexivity).
      subst m. rewrite shr_exact. reflexivity. }
  rewrite Hshr. cbn [shr_m loc_of_shr_record round_nearest_even Zdigits2].
  rewrite Hq.
  rewrite Z.max_l by lia.
  replace (53 + (e + n) - 53 - (e + n)) with 0 by lia.
  cbn [shr shr_record_of_loc shr_m].
  destruct (Z.leb_spec (e + n) (1024 - 53)); [reflexivity | lia].
Qed.

(** An [int] below [2 ^ 53] is a float: its bits, shifted to fill the
    mantissa. *)
Lemma of_int_exact (p : positive) :
  Zpos p < 2 ^ 53 ->
  exists mz,
    of_int (Zpos p) = Ok (S754_finite false mz (Zpos (digits2_pos p) - 53)) /\
    Zpos mz = Zpos p * 2 ^ (53 - Zpos (digits2_pos p)) /\
    Zpos (digits2_pos mz) = 53.
Proof.
  intros Hp. pose proof (digits2_bounds p) as [Hlo Hhi].
  pose proof (digits2_small p 53 Hp) as Hk.
  unfold of_int. cbn [binary_normalize]. unfold binary_round.
  unfold fexp at 1, emin, prec, emax. rewrite Z.add_0_r, Z.max_l by lia.
  unfold shl_align. rewrite Z.sub_0_r.
  destruct (Zpos (digits2_pos p) - 53) as [|d|d] eqn:Hd; [| lia |].
  - exists p. rewrite (round_exact p p 0 0); try lia.
    split; [reflexivity|]. split; [|lia].
    replace (53 - Zpos (digits2_pos p)) with 0 by lia. lia.
  - assert (Hmz : Zpos (Pos.iter xO p d) = Zpos p * 2 ^ (53 - Zpos (digits2_pos p))).
    { rewrite iter_xO. f_equal. f_equal. lia. }
    assert (Hdz : Zpos (digits2_pos (Pos.iter xO p d)) = 53).
    { apply digits2_unique. rewrite Hmz. change (53 - 1) with 52.
      assert (E1 : 2 ^ 52 = 2 ^ (Zpos (digits2_pos p) - 1)
                            * 2 ^ (53 - Zpos (digits2_pos p)))
        by (rewrite <- Z.pow_add_r by lia; f_equal; lia).
      assert (E2 : 2 ^ 53 = 2 ^ Zpos (digits2_pos p)
                            * 2 ^ (53 - Zpos (digits2_pos p)))
        by (rewrite <- Z.pow_add_r by lia; f_equal; lia).
      assert (0 < 2 ^ (53 - Zpos (digits2_pos p))) by (apply Z.pow_pos_nonneg; lia).
      rewrite E1, E2. split.
      - apply Z.mul_le_mono_nonneg_r; lia.
      - apply Z.mul_lt_mono_pos_r; lia. }
    exists (Pos.iter xO p d).
    rewrite (round_exact (Pos.iter xO p d) (Pos.iter xO p d) 0 (Zneg d)); try lia.
    rewrite Z.add_0_r. split; [reflexivity|]. split; assumption.
Qed.

End Binary64.

(** ** Detail fetch engine and its cooldown

    [fetch_property_html], [_handle_cooldown], [process_property] and
    [run] of [bayut_detail_scraper.py]; [_handle_cooldown] and
    [process_property] of [bayut_detail_scraper_async.py], first one
    property at a time, with no other coroutine run during the call, and
    then as the coroutines of a batch that [process_batch] gathers. *)

Module Detail.

Import Identity Store Harvester Detector.

Inductive engine := Sequential | Async.

Definition BOT_DETECTION_THRESHOLD (e : engine) : nat :=
  match e with Sequential => 3 | Async => 5 end.

Definition INITIAL_COOLDOWN : Z := 15 * 60.

(** [COOLDOWN_MULTIPLIER = 1.5], that is 3 * 2 ^ 51 * 2 ^ -52. *)
Definition COOLDOWN_MULTIPLIER : SpecFloat.spec_float :=
  SpecFloat.S754_finite false 6755399441055744 (-52).

(** [int(seconds * COOLDOWN_MULTIPLIER)], as Python computes it. *)
Definition escalated (seconds : Z) : exc Z :=
  x <- Binary64.of_int seconds ;;
  Binary64.to_int (Binary64.mul x COOLDOWN_MULTIPLIER).

(** The whole part of 1.5 times [seconds]: the value of
    [escalated seconds] while [0 <= seconds] and [3 * seconds < 2 ^ 53],
    where the product needs no rounding ([escalated_exact]).  The
    scraper is modelled with it, and so for durations in that range;
    beyond it the product is rounded, and from [2 ^ 1024] on Python
    raises. *)
Definition next_cooldown (seconds : Z) : Z := Z.quot (3 * seconds) 2.

(** One row of the details collection. *)
Record detail_row := {
  d_id : str;
  d_url : pyval;
  d_scraped_at : Z;
  extraction_success : bool;
  bot_challenge : option bool;
  extracted_data : option (list (str * pyval));
  error : option str
}.

Record stats := {
  total : nat;
  processed : nat;
  success : nat;
  failed : nat;
  skipped : nat;
  errors : list (str * str);
  bot_challenges : nat;
  cooldowns : nat
}.

(** What the scraper did to the outside: a request, or a cooldown wait
    of so many seconds, cut short or not. *)
Inductive event :=
  | Get (url : pyval)
  | Cooldown (seconds : Z) (cut_short : bool).

Record scraper := {
  stat : stats;
  consecutive_challenges : nat;
  current_cooldown : Z;
  cooldown_count : nat;
  last_challenge_time : option Z;
  details_coll : list detail_row;
  properties_coll : list item_row;
  shutdown_requested : bool;
  events : list event
}.

(** What [extract_all] did. *)
Inductive extraction :=
  | Extracted (data : list (str * pyval))
  | ExtractRaised (message : str).

(** What the world does while one property is processed: whether a
    shutdown signal came before its turn, the answer to the request, the
    extractor's result on the body, the reading of the clock, whether a
    shutdown signal arrives during a cooldown wait, and the text of the
    exception of the closing [print], should it raise. *)
Record world := {
  w_interrupt : bool;
  w_fetch : response;
  w_extract : extraction;
  w_now : Z;
  w_signal : bool;
  w_print_error : str
}.

(** [find_one({"property_id": id, "extraction_success": True})] *)
Fixpoint find_success (id : str) (coll : list detail_row) : option detail_row :=
  match coll with
  | [] => None
  | row :: rest =>
      if str_eqb (d_id row) id && extraction_success row then Some row
      else find_success id rest
  end.

(** [update_one({"property_id": id}, {"$set": ...}, upsert=True)] *)
Fixpoint upsert_detail (id : str) (set : detail_row -> detail_row)
    (coll : list detail_row) : list detail_row :=
  match coll with
  | [] =>
      [set {| d_id := id; d_url := PNone; d_scraped_at := 0;
              extraction_success := false; bot_challenge := None;
              extracted_data := None; error := None |}]
  | row :: rest =>
      if str_eqb (d_id row) id then set row :: rest
      else row :: upsert_detail id set rest
  end.

(** The three [$set] documents. *)
Definition set_failure (id : str) (url : pyval) (t : Z) (message : str)
    (row : detail_row) : detail_row :=
  {| d_id := id; d_url := url; d_scraped_at := t;
     extraction_success := false;
     bot_challenge := bot_challenge row;
     extracted_data := extracted_data row;
     error := Some message |}.

Definition set_challenge (id : str) (url : pyval) (t : Z)
    (data : list (str * pyval)) (row : detail_row) : detail_row :=
  {| d_id := id; d_url := url; d_scraped_at := t;
     extraction_success := false;
     bot_challenge := Some true;
     extracted_data := Some data;
     error := error row |}.

Definition set_success (id : str) (url : pyval) (t : Z)
    (data : list (str * pyval)) (row : detail_row) : detail_row :=
  {| d_id := id; d_url := url; d_scraped_at := t;
     extraction_success := true;
     bot_challenge := bot_challenge row;
     extracted_data := Some data;
     error := error row |}.

(** [update_one({"property_id": id}, {"$set": {"detail_scraped": True,
    "detail_scraped_at": t}})], without upsert. *)
Fixpoint mark_scraped (id : str) (t : Z) (coll : list item_row) : list item_row :=
  match coll with
  | [] => []
  | row :: rest =>
      if str_eqb (row_id row) id then
        {| row_id := row_id row;
           row_detailed_url := row_detailed_url row;
           last_raw_item := last_raw_item row;
           last_seen := last_seen row;
           last_page := last_page row;
           last_position := last_position row;
           last_location := last_location row;
           current_price := current_price row;
           row_purpose := row_purpose row;
           locations_seen := locations_seen row;
           appearances := appearances row;
           first_seen := first_seen row;
           first_page := first_page row;
           first_location := first_location row;
           detail_scraped := true;
           created_at := created_at row;
           detail_scraped_at := Some t |} :: rest
      else row :: mark_scraped id t rest
  end.

(** Updates of the scraper, field by field. *)
Definition with_stat (f : stats -> stats) (s : scraper) : scraper :=
  {| stat := f (stat s);
     consecutive_challenges := consecutive_challenges s;
     current_cooldown := current_cooldown s;
     cooldown_count := cooldown_count s;
     last_challenge_time := last_challenge_time s;
     details_coll := details_coll s;
     properties_coll := properties_coll s;
     shutdown_requested := shutdown_requested s;
     events := events s |}.

Definition with_details (f : list detail_row -> list detail_row) (s : scraper)
  : scraper :=
  {| stat := stat s;
     consecutive_challenges := consecutive_challenges s;
     current_cooldown := current_cooldown s;
     cooldown_count := cooldown_count s;
     last_challenge_time := last_challenge_time s;
     details_coll := f (details_coll s);
     properties_coll := properties_coll s;
     shutdown_requested := shutdown_requested s;
     events := events s |}.

Definition with_properties (f : list item_row -> list item_row) (s : scraper)
  : scraper :=
  {| stat := stat s;
     consecutive_challenges := consecutive_challenges s;
     current_cooldown := current_cooldown s;
     cooldown_count := cooldown_count s;
     last_challenge_time := last_challenge_time s;
     details_coll := details_coll s;
     properties_coll := f (properties_coll s);
     shutdown_requested := shutdown_requested s;
     events := events s |}.

Definition with_challenges (n : nat) (t : option Z) (s : scraper) : scraper :=
  {| stat := stat s;
     consecutive_challenges := n;
     current_cooldown := current_cooldown s;
     cooldown_count := cooldown_count s;
     last_challenge_time := t;
     details_coll := details_coll s;
     properties_coll := properties_coll s;
     shutdown_requested := shutdown_requested s;
     events := events s |}.

Definition emit (ev : event) (s : scraper) : scraper :=
  {| stat := stat s;
     consecutive_challenges := consecutive_challenges s;
     current_cooldown := current_cooldown s;
     cooldown_count := cooldown_count s;
     last_challenge_time := last_challenge_time s;
     details_coll := details_coll s;
     properties_coll := properties_coll s;
     shutdown_requested := shutdown_requested s;
     events := events s ++ [ev] |}.

Definition count_skipped (s : stats) : stats :=
  {| total := total s; processed := processed s; success := success s;
     failed := failed s; skipped := skipped s + 1; errors := errors s;
     bot_challenges := bot_challenges s; cooldowns := cooldowns s |}.

Definition count_failed (s : stats) : stats :=
  {| total := total s; processed := processed s; success := success s;
     failed := failed s + 1; skipped := skipped s; errors := errors s;
     bot_challenges := bot_challenges s; cooldowns := cooldowns s |}.

Definition count_success (s : stats) : stats :=
  {| total := total s; processed := processed s; success := success s + 1;
     failed := failed s; skipped := skipped s; errors := errors s;
     bot_challenges := bot_challenges s; cooldowns := cooldowns s |}.

Definition count_challenge (s : stats) : stats :=
  {| total := total s; processed := processed s; success := success s;
     failed := failed s; skipped := skipped s; errors := errors s;
     bot_challenges := bot_challenges s + 1; cooldowns := cooldowns s |}.

Definition count_cooldown (s : stats) : stats :=
  {| total := total s; processed := processed s; success := success s;
     failed := failed s; skipped := skipped s; errors := errors s;
     bot_challenges := bot_challenges s; cooldowns := cooldowns s + 1 |}.

Definition count_processed (s : stats) : stats :=
  {| total := total s; processed := processed s + 1; success := success s;
     failed := failed s; skipped := skipped s; errors := errors s;
     bot_challenges := bot_challenges s; cooldowns := cooldowns s |}.

(** The sequential engine appends to [errors]; the concurrent one does
    not keep them. *)
Definition note_error (e : engine) (id message : str) (s : stats) : stats :=
  {| total := total s; processed := processed s; success := success s;
     failed := failed s + 1; skipped := skipped s;
     errors := match e with
               | Sequential => errors s ++ [(id, message)]
               | Async => errors s
               end;
     bot_challenges := bot_challenges s; cooldowns := cooldowns s |}.

Definition FETCH_FAILED : str := lit "Failed to fetch HTML".

(** [fetch_property_html]: the body of a 200 answer, [None] otherwise
    and when the request raises. *)
Definition fetch_property_html (w : world) : option str :=
  match w_fetch w with
  | Response 200 text => Some text
  | Response _ _ => None
  | FetchRaised => None
  end.

(** [_handle_cooldown].  The sequential engine watches the shutdown flag
    while it waits and gives up when it is set; the concurrent one
    sleeps through.  For the concurrent engine this is the handler with
    no other coroutine run during its sleep; [cooldown_begins] and
    [cooldown_ends] are its two halves, between which others may run. *)
Definition _handle_cooldown (e : engine) (signal : bool) (s : scraper)
  : bool * scraper :=
  let cut := match e with
             | Sequential => shutdown_requested s || signal
             | Async => false
             end in
  let waited :=
    {| stat := count_cooldown (stat s);
       consecutive_challenges := consecutive_challenges s;
       current_cooldown := current_cooldown s;
       cooldown_count := cooldown_count s + 1;
       last_challenge_time := last_challenge_time s;
       details_coll := details_coll s;
       properties_coll := properties_coll s;
       shutdown_requested := match e with
                             | Sequential => cut
                             | Async => shutdown_requested s
                             end;
       events := events s ++ [Cooldown (current_cooldown s) cut] |} in
  if cut then (false, waited)
  else
    (true,
     {| stat := stat waited;
        consecutive_challenges := 0;
        current_cooldown := next_cooldown (current_cooldown waited);
        cooldown_count := cooldown_count waited;
        last_challenge_time := None;
        details_coll := details_coll waited;
        properties_coll := properties_coll waited;
        shutdown_requested := shutdown_requested waited;
        events := events waited |}).

(** The closing lines of the success branch: the price to show and the
    [print] that formats it with [:,.0f]. *)
Definition closing_print (data : list (str * pyval)) : exc unit :=
  price <-
    (if truthy (get (lit "price") data) then Ok (get (lit "price") data)
     else attr_get (lit "price")
            (get_default (lit "pricing_details") (PDict []) data)) ;;
  if truthy price then
    match price with
    | PInt _ | PFloat _ | PBool _ => Ok tt
    | _ => Raised
    end
  else Ok tt.

Section Engine.

(** [str.lower] *)
Variable lower : str -> str.

(** The [except Exception] branch. *)
Definition record_exception (e : engine) (id : str) (url : pyval) (t : Z)
    (message : str) (s : scraper) : scraper :=
  with_details (upsert_detail id (set_failure id url t message))
    (with_stat (note_error e id message) s).

(** [process_property] *)
Definition process_property (e : engine) (s : scraper) (doc : item_row)
    (w : world) : bool * scraper :=
  let id := row_id doc in
  let url := row_detailed_url doc in
  if negb (truthy url) then (false, s)
  else
    match find_success id (details_coll s) with
    | Some _ => (true, with_stat count_skipped s)
    | None =>
        let s := emit (Get url) s in
        match fetch_property_html w with
        | None =>
            (false,
             with_details (upsert_detail id (set_failure id url (w_now w) FETCH_FAILED))
               (with_stat count_failed s))
        | Some html =>
            if is_empty html then
              (false,
               with_details
                 (upsert_detail id (set_failure id url (w_now w) FETCH_FAILED))
                 (with_stat count_failed s))
            else
              match w_extract w with
              | ExtractRaised message =>
                  (false, record_exception e id url (w_now w) message s)
              | Extracted data =>
                  if _detect_bot_challenge lower html data then
                    let s1 :=
                      with_details
                        (upsert_detail id (set_challenge id url (w_now w) data))
                        (with_challenges (consecutive_challenges s + 1)
                           (Some (w_now w))
                           (with_stat count_challenge s)) in
                    if (BOT_DETECTION_THRESHOLD e <=? consecutive_challenges s1)%nat
                    then (false, snd (_handle_cooldown e (w_signal w) s1))
                    else (false, s1)
                  else
                    let s1 :=
                      with_stat count_success
                        (with_properties (mark_scraped id (w_now w))
                           (with_details
                              (upsert_detail id (set_success id url (w_now w) data))
                              (with_challenges 0 None s))) in
                    match closing_print data with
                    | Ok _ => (true, s1)
                    | Raised =>
                        (false,
                         record_exception e id url (w_now w) (w_print_error w) s1)
                    end
              end
        end
    end.

(** The properties, one after the other, each with its world. *)
Fixpoint feed (e : engine) (s : scraper) (work : list (item_row * world))
  : scraper :=
  match work with
  | [] => s
  | (doc, w) :: rest => feed e (snd (process_property e s doc w)) rest
  end.

(** The scraper after each property. *)
Fixpoint feed_trace (e : engine) (s : scraper) (work : list (item_row * world))
  : list scraper :=
  match work with
  | [] => []
  | (doc, w) :: rest =>
      let s' := snd (process_property e s doc w) in
      s' :: feed_trace e s' rest
  end.

(** The query of [run]: not yet marked, and with a detail URL. *)
Definition pending (row : item_row) : bool :=
  negb (detail_scraped row) &&
  match row_detailed_url row with PNone => false | _ => true end.

(** [find(query).skip(skip)], with [.limit(limit)] when [limit] is set
    and not zero; the cursor is read when the run starts. *)
Definition cursor (coll : list item_row) (limit : option nat) (skip : nat)
  : list item_row :=
  let found := skipn skip (filter pending coll) in
  match limit with
  | Some (S n) => firstn (S n) found
  | _ => found
  end.

(** The [for property_doc in cursor] loop of the sequential [run]. *)
Fixpoint run_loop (s : scraper) (work : list (item_row * world)) : scraper :=
  match work with
  | [] => s
  | (doc, w) :: rest =>
      if shutdown_requested s || w_interrupt w then
        {| stat := stat s;
           consecutive_challenges := consecutive_challenges s;
           current_cooldown := current_cooldown s;
           cooldown_count := cooldown_count s;
           last_challenge_time := last_challenge_time s;
           details_coll := details_coll s;
           properties_coll := properties_coll s;
           shutdown_requested := true;
           events := events s |}
      else
        run_loop
          (snd (process_property Sequential (with_stat count_processed s) doc w))
          rest
  end.

(** [run]; [worlds] gives the world of each property the cursor yields. *)
Definition run (s : scraper) (limit : option nat) (skip : nat)
    (worlds : list world) : scraper :=
  let count := length (filter pending (properties_coll s)) in
  let total_to_scrape := match limit with
                         | Some (S n) => Nat.min count (S n)
                         | _ => count
                         end in
  run_loop
    (with_stat
       (fun st =>
          {| total := total_to_scrape; processed := processed st;
             success := success st; failed := failed st; skipped := skipped st;
             errors := errors st; bot_challenges := bot_challenges st;
             cooldowns := cooldowns st |}) s)
    (combine (cursor (properties_coll s) limit skip) worlds).

(** A scraper as [__init__] leaves it. *)
Definition fresh (details : list detail_row) (properties : list item_row)
  : scraper :=
  {| stat := {| total := 0; processed := 0; success := 0; failed := 0;
                skipped := 0; errors := []; bot_challenges := 0;
                cooldowns := 0 |};
     consecutive_challenges := 0;
     current_cooldown := INITIAL_COOLDOWN;
     cooldown_count := 0;
     last_challenge_time := None;
     details_coll := details;
     properties_coll := properties;
     shutdown_requested := false;
     events := [] |}.

(** The duration of the cooldown that comes after [n] cooldowns that
    ran their course, in a scraper that started fresh. *)
Definition nth_cooldown (n : nat) : Z := Nat.iter n next_cooldown INITIAL_COOLDOWN.

(** The durations of the cooldowns among the events, in order. *)
Definition durations (evs : list event) : list Z :=
  flat_map (fun ev => match ev with
                      | Cooldown seconds _ => [seconds]
                      | Get _ => []
                      end) evs.

(** *** The concurrent engine, one await at a time

    A coroutine runs without interruption from one [await] to the next;
    while it is suspended the event loop runs the other coroutines of
    the batch, and a storage call that is awaited takes effect at some
    point of the wait. *)

(** What is left of a coroutine: its result, or what it does with the
    scraper once resumed, up to its next [await]. *)
Inductive task :=
  | Return (result : bool)
  | Resume (segment : scraper -> scraper * task).

(** [await] on a storage write: the write, and then the rest. *)
Definition written (write : list detail_row -> list detail_row) (rest : task)
  : task :=
  Resume (fun s => (with_details write s, rest)).

(** [_handle_cooldown] of the concurrent engine up to
    [await asyncio.sleep(self.current_cooldown)], the sleep asked for
    included. *)
Definition cooldown_begins (s : scraper) : scraper :=
  {| stat := count_cooldown (stat s);
     consecutive_challenges := consecutive_challenges s;
     current_cooldown := current_cooldown s;
     cooldown_count := cooldown_count s + 1;
     last_challenge_time := last_challenge_time s;
     details_coll := details_coll s;
     properties_coll := properties_coll s;
     shutdown_requested := shutdown_requested s;
     events := events s ++ [Cooldown (current_cooldown s) false] |}.

(** [_handle_cooldown] of the concurrent engine after the sleep. *)
Definition cooldown_ends (s : scraper) : scraper :=
  {| stat := stat s;
     consecutive_challenges := 0;
     current_cooldown := next_cooldown (current_cooldown s);
     cooldown_count := cooldown_count s;
     last_challenge_time := None;
     details_coll := details_coll s;
     properties_coll := properties_coll s;
     shutdown_requested := shutdown_requested s;
     events := events s |}.

(** The [except Exception] branch of the coroutine. *)
Definition fails (id : str) (url : pyval) (t : Z) (message : str) (s : scraper)
  : scraper * task :=
  (with_stat (note_error Async id message) s,
   written (upsert_detail id (set_failure id url t message)) (Return false)).

(** [process_property] of [bayut_detail_scraper_async.py] as a
    coroutine.  The segments are, in order: the call; the read of
    [find_one]; the lines up to the request; the lines after the
    response; the lines after the extraction, which runs in the
    executor; the write of the record; the test of the threshold, which
    reads the counter as it is by then, and the first half of
    [_handle_cooldown]; its second half. *)
Definition process_property_coroutine (doc : item_row) (w : world) : task :=
  let id := row_id doc in
  let url := row_detailed_url doc in
  Resume (fun s =>
    if negb (truthy url) then (s, Return false)
    else
      (s,
       Resume (fun s =>
         let existing := find_success id (details_coll s) in
         (s,
          Resume (fun s =>
            match existing with
            | Some _ => (with_stat count_skipped s, Return true)
            | None =>
                (emit (Get url) s,
                 Resume (fun s =>
                   match fetch_property_html w with
                   | None =>
                       (with_stat count_failed s,
                        written (upsert_detail id
                                   (set_failure id url (w_now w) FETCH_FAILED))
                          (Return false))
                   | Some html =>
                       if is_empty html then
                         (with_stat count_failed s,
                          written (upsert_detail id
                                     (set_failure id url (w_now w) FETCH_FAILED))
                            (Return false))
                       else
                         (s,
                          Resume (fun s =>
                            match w_extract w with
                            | ExtractRaised message =>
                                fails id url (w_now w) message s
                            | Extracted data =>
                                if _detect_bot_challenge lower html data then
                                  (with_challenges (consecutive_challenges s + 1)
                                     (Some (w_now w))
                                     (with_stat count_challenge s),
                                   written
                                     (upsert_detail id
                                        (set_challenge id url (w_now w) data))
                                     (Resume (fun s =>
                                        if (BOT_DETECTION_THRESHOLD Async
                                            <=? consecutive_challenges s)%nat
                                        then
                                          (cooldown_begins s,
                                           Resume (fun s =>
                                             (cooldown_ends s, Return false)))
                                        else (s, Return false))))
                                else
                                  (with_challenges 0 None s,
                                   written
                                     (upsert_detail id
                                        (set_success id url (w_now w) data))
                                     (Resume (fun s =>
                                        (with_properties
                                           (mark_scraped id (w_now w)) s,
                                         Resume (fun s =>
                                           let s1 := with_stat count_success s in
                                           match closing_print data with
                                           | Ok _ => (s1, Return true)
                                           | Raised =>
                                               fails id url (w_now w)
                                                 (w_print_error w) s1
                                           end)))))
                            end))
                   end))
            end))))).

(** A coroutine that no other interrupts. *)
Fixpoint alone (t : task) (s : scraper) : bool * scraper :=
  match t with
  | Return result => (result, s)
  | Resume segment => alone (snd (segment s)) (fst (segment s))
  end.

Definition over (t : task) : bool :=
  match t with Return _ => true | Resume _ => false end.

(** One turn of the event loop: the coroutine [i] of the batch, unless
    it is over, runs to its next [await]. *)
Definition turn (st : scraper * list task) (i : nat) : scraper * list task :=
  match nth_error (snd st) i with
  | Some (Resume segment) =>
      (fst (segment (fst st)),
       firstn i (snd st) ++ snd (segment (fst st)) :: skipn (S i) (snd st))
  | _ => st
  end.

(** [process_batch]: the coroutines of the batch under [asyncio.gather],
    resumed in the order [schedule], and the count of what was processed
    once all are over; [None] when the schedule leaves one unfinished. *)
Definition process_batch (schedule : list nat) (s : scraper)
    (batch : list (item_row * world)) : option scraper :=
  let tasks := map (fun dw => process_property_coroutine (fst dw) (snd dw)) batch in
  let st := fold_left turn schedule (s, tasks) in
  if forallb over (snd st)
  then Some (with_stat (Nat.iter (length batch) count_processed) (fst st))
  else None.

(** *** The cooldown *)

Lemma next_cooldown_floor (d : Z) :
  (0 <= d)%Z ->
  (2 * next_cooldown d <= 3 * d < 2 * next_cooldown d + 2)%Z.
Proof.
  intros H. unfold next_cooldown. rewrite Z.quot_div_nonneg by lia.
  pose proof (Z.div_mod (3 * d) 2 ltac:(lia)).
  pose proof (Z.mod_pos_bound (3 * d) 2 ltac:(lia)). lia.
Qed.

Lemma next_cooldown_grows (d : Z) : (2 <= d)%Z -> (d < next_cooldown d)%Z.
Proof. intros H. pose proof (next_cooldown_floor d ltac:(lia)). lia. Qed.

Lemma cooldown_expiry (e : engine) (s : scraper) :
  (e = Sequential -> shutdown_requested s = false) ->
  _handle_cooldown e false s =
  (true,
   {| stat := count_cooldown (stat s);
      consecutive_challenges := 0;
      current_cooldown := next_cooldown (current_cooldown s);
      cooldown_count := cooldown_count s + 1;
      last_challenge_time := None;
      details_coll := details_coll s;
      properties_coll := properties_coll s;
      shutdown_requested := shutdown_requested s;
      events := events s ++ [Cooldown (current_cooldown s) false] |}).
Proof.
  intros H. unfold _handle_cooldown. destruct e.
  - rewrite (H eq_refl). reflexivity.
  - reflexivity.
Qed.

(** *** The details collection *)

Lemma find_success_after_unsuccessful (id id' : str)
    (set : detail_row -> detail_row) (coll : list detail_row) :
  (forall row, extraction_success (set row) = false) ->
  find_success id' coll = None ->
  find_success id' (upsert_detail id set coll) = None.
Proof.
  intros Hset. induction coll as [|row rest IH]; cbn [upsert_detail find_success].
  - intros _. rewrite Hset, andb_false_r. reflexivity.
  - destruct (str_eqb (d_id row) id) eqn:E; cbn [find_success].
    + rewrite Hset, andb_false_r.
      destruct (str_eqb (d_id row) id' && extraction_success row);
        [discriminate | tauto].
    + destruct (str_eqb (d_id row) id' && extraction_success row);
        [discriminate | exact IH].
Qed.

Lemma find_success_after_successful (id : str)
    (set : detail_row -> detail_row) (coll : list detail_row) :
  (forall row, d_id (set row) = id /\ extraction_success (set row) = true) ->
  find_success id (upsert_detail id set coll) <> None.
Proof.
  intros Hset. induction coll as [|row rest IH]; cbn [upsert_detail find_success].
  - destruct (Hset {| d_id := id; d_url := PNone; d_scraped_at := 0;
                      extraction_success := false; bot_challenge := None;
                      extracted_data := None; error := None |}) as [-> ->].
    rewrite str_eqb_refl. discriminate.
  - destruct (str_eqb (d_id row) id) eqn:E; cbn [find_success].
    + destruct (Hset row) as [-> ->]. rewrite str_eqb_refl. discriminate.
    + rewrite E. exact IH.
Qed.

Lemma upsert_detail_has_row (id : str) (set : detail_row -> detail_row)
    (coll : list detail_row) :
  exists row, In (set row) (upsert_detail id set coll).
Proof.
  induction coll as [|row rest IH]; cbn [upsert_detail].
  - eexists. left. reflexivity.
  - destruct (str_eqb (d_id row) id).
    + exists row. left. reflexivity.
    + destruct IH as [r Hr]. exists r. right. exact Hr.
Qed.

(** *** Transport failures *)

(** The request raised (a network error or a timeout), or the status is
    outside 200..299. *)
Definition transport_failure (w : world) : Prop :=
  w_fetch w = FetchRaised \/
  exists status text,
    w_fetch w = Response status text /\ (status < 200 \/ 299 < status)%Z.

Lemma transport_failure_no_html (w : world) :
  transport_failure w -> fetch_property_html w = None.
Proof.
  unfold fetch_property_html.
  intros [-> | (status & text & -> & Hs)]; [reflexivity|].
  destruct status as [|p|p]; try reflexivity.
  destruct (Pos.eq_dec p 200) as [-> | Hne]; [lia|].
  repeat (destruct p as [p|p|]; try reflexivity); congruence.
Qed.

(** C5.  When the detail request of a property with a detail URL and no
    successful record fails in transport, [process_property] returns
    [False] after that one request and leaves: a record for the property
    with [extraction_success] false and the error ["Failed to fetch
    HTML"]; [failed] one higher and every other count as it was; the
    challenge counter, the cooldown duration, the cooldown count, the time
    of the last challenge and the shutdown flag untouched; no cooldown;
    the items collection untouched and still no successful record, so
    that a later run fetches the property again; and the sequential loop
    goes on with the next property. *)
Theorem transport_failure_is_recorded (e : engine) (s : scraper)
    (doc : item_row) (w : world) :
  truthy (row_detailed_url doc) = true ->
  find_success (row_id doc) (details_coll s) = None ->
  transport_failure w ->
  process_property e s doc w =
    (false,
     {| stat := count_failed (stat s);
        consecutive_challenges := consecutive_challenges s;
        current_cooldown := current_cooldown s;
        cooldown_count := cooldown_count s;
        last_challenge_time := last_challenge_time s;
        details_coll :=
          upsert_detail (row_id doc)
            (set_failure (row_id doc) (row_detailed_url doc) (w_now w) FETCH_FAILED)
            (details_coll s);
        properties_coll := properties_coll s;
        shutdown_requested := shutdown_requested s;
        events := events s ++ [Get (row_detailed_url doc)] |}) /\
  (exists row,
      In row (details_coll (snd (process_property e s doc w))) /\
      d_id row = row_id doc /\
      extraction_success row = false /\
      error row = Some FETCH_FAILED) /\
  find_success (row_id doc)
    (details_coll (snd (process_property e s doc w))) = None /\
  (forall rest,
      shutdown_requested s = false -> w_interrupt w = false ->
      run_loop s ((doc, w) :: rest) =
      run_loop
        (snd (process_property Sequential (with_stat count_processed s) doc w))
        rest).
Proof.
  intros Hurl Hnone Hfail.
  assert (Hp : process_property e s doc w =
    (false,
     {| stat := count_failed (stat s);
        consecutive_challenges := consecutive_challenges s;
        current_cooldown := current_cooldown s;
        cooldown_count := cooldown_count s;
        last_challenge_time := last_challenge_time s;
        details_coll :=
          upsert_detail (row_id doc)
            (set_failure (row_id doc) (row_detailed_url doc) (w_now w) FETCH_FAILED)
            (details_coll s);
        properties_coll := properties_coll s;
        shutdown_requested := shutdown_requested s;
        events := events s ++ [Get (row_detailed_url doc)] |})).
  { unfold process_property. rewrite Hurl, Hnone.
    rewrite (transport_failure_no_html w Hfail). reflexivity. }
  rewrite Hp. cbn [snd details_coll].
  split; [reflexivity|]. split; [|split].
  - destruct (upsert_detail_has_row (row_id doc)
                (set_failure (row_id doc) (row_detailed_url doc) (w_now w) FETCH_FAILED)
                (details_coll s)) as [row Hrow].
    eexists. split; [exact Hrow|]. repeat split.
  - apply find_success_after_unsuccessful; [reflexivity | exact Hnone].
  - intros rest Hs Hi. cbn [run_loop]. rewrite Hs, Hi. reflexivity.
Qed.

(** *** Properties already scraped *)

(** C6.  For a property whose successful record exists,
    [process_property] makes no request and changes neither collection,
    whatever the world would have answered; when the property has a
    detail URL, as every property that the cursor of [run] yields has,
    it returns [True] and the scraper is as before except that [skipped]
    is one higher.  A property marked [detail_scraped] is not read by the
    cursor at all.  And once [process_property] has returned [True] for a
    property, processing it again is such a skip. *)
Theorem successful_record_is_skipped (e : engine) (s : scraper)
    (doc : item_row) :
  (forall w row,
      find_success (row_id doc) (details_coll s) = Some row ->
      events (snd (process_property e s doc w)) = events s /\
      details_coll (snd (process_property e s doc w)) = details_coll s /\
      properties_coll (snd (process_property e s doc w)) = properties_coll s /\
      (truthy (row_detailed_url doc) = true ->
       process_property e s doc w = (true, with_stat count_skipped s))) /\
  (forall coll limit skip row,
      In row (cursor coll limit skip) ->
      detail_scraped row = false /\ row_detailed_url row <> PNone) /\
  (forall w w',
      fst (process_property e s doc w) = true ->
      process_property e (snd (process_property e s doc w)) doc w' =
      (true, with_stat count_skipped (snd (process_property e s doc w)))).
Proof.
  assert (Hskip : forall s' w row,
    truthy (row_detailed_url doc) = true ->
    find_success (row_id doc) (details_coll s') = Some row ->
    process_property e s' doc w = (true, with_stat count_skipped s')).
  { intros s' w row Hurl Hf. unfold process_property. rewrite Hurl, Hf. reflexivity. }
  split; [|split].
  - intros w row Hf.
    destruct (Bool.bool_dec (truthy (row_detailed_url doc)) true) as [Hurl | Hurl].
    + rewrite (Hskip s w row Hurl Hf). repeat split.
    + apply not_true_is_false in Hurl.
      unfold process_property. rewrite Hurl. repeat split. discriminate.
  - intros coll limit skip row Hin.
    assert (Hp : In row (filter pending coll)).
    { assert (Hsk : forall x, In x (skipn skip (filter pending coll)) ->
                          In x (filter pending coll)).
      { intros x Hx. rewrite <- (firstn_skipn skip (filter pending coll)).
        apply in_or_app. right. exact Hx. }
      unfold cursor in Hin. apply Hsk.
      destruct limit as [[|n]|]; try exact Hin.
      rewrite <- (firstn_skipn (S n) (skipn skip (filter pending coll))).
      apply in_or_app. left. exact Hin. }
    apply filter_In in Hp as [_ Hp]. unfold pending in Hp.
    apply andb_true_iff in Hp as [Hd Hu].
    split; [destruct (detail_scraped row); [discriminate Hd | reflexivity]|].
    intros E. rewrite E in Hu. discriminate Hu.
  - intros w w' Ht.
    assert (Hurl : truthy (row_detailed_url doc) = true).
    { destruct (truthy (row_detailed_url doc)) eqn:Hurl; [reflexivity|].
      unfold process_property in Ht. rewrite Hurl in Ht. discriminate Ht. }
    destruct (find_success (row_id doc)
                (details_coll (snd (process_property e s doc w)))) as [row|] eqn:Hf;
      [exact (Hskip _ w' row Hurl Hf)|].
    exfalso. revert Ht Hf. unfold process_property. rewrite Hurl.
    destruct (find_success (row_id doc) (details_coll s)) as [row|] eqn:Hs.
    + cbn. congruence.
    + destruct (fetch_property_html w) as [html|]; [|discriminate].
      destruct (is_empty html); [discriminate|].
      destruct (w_extract w) as [data|message]; [|discriminate].
      destruct (_detect_bot_challenge lower html data).
      * destruct (BOT_DETECTION_THRESHOLD e <=? _)%nat; discriminate.
      * destruct (closing_print data); [|discriminate].
        intros _. cbn [snd with_stat with_properties with_details details_coll].
        apply find_success_after_successful. intros r. split; reflexivity.
Qed.

(** *** Challenges in a row *)

(** A property with a detail URL whose page is fetched, extracted and
    classified as the detector says, with no shutdown signal while a
    cooldown runs. *)
Definition classified (verdict : bool) (doc : item_row) (w : world) : Prop :=
  truthy (row_detailed_url doc) = true /\
  w_signal w = false /\
  exists html data,
    w_fetch w = Response 200 html /\ html <> [] /\
    w_extract w = Extracted data /\
    _detect_bot_challenge lower html data = verdict.

Definition is_cooldown (ev : event) : bool :=
  match ev with Cooldown _ _ => true | Get _ => false end.

Lemma challenge_step (e : engine) (s : scraper) (doc : item_row) (w : world) :
  classified true doc w ->
  find_success (row_id doc) (details_coll s) = None ->
  (e = Sequential -> shutdown_requested s = false) ->
  let s' := snd (process_property e s doc w) in
  let hit := (BOT_DETECTION_THRESHOLD e <=? consecutive_challenges s + 1)%nat in
  consecutive_challenges s' =
    (if hit then 0 else consecutive_challenges s + 1)%nat /\
  cooldown_count s' = (if hit then cooldown_count s + 1 else cooldown_count s)%nat /\
  current_cooldown s' =
    (if hit then next_cooldown (current_cooldown s) else current_cooldown s) /\
  events s' =
    events s ++ Get (row_detailed_url doc) ::
    (if hit then [Cooldown (current_cooldown s) false] else []) /\
  shutdown_requested s' = shutdown_requested s /\
  (forall id, find_success id (details_coll s) = None ->
              find_success id (details_coll s') = None).
Proof.
  intros (Hurl & Hsig & html & data & Hf & Hne & Hx & Hd) Hnone Hs s' hit.
  subst s' hit. unfold process_property.
  rewrite Hurl, Hnone. unfold fetch_property_html. rewrite Hf.
  destruct html as [|c html]; [congruence|]. cbn [is_empty negb].
  rewrite Hx, Hd. cbn [with_details with_challenges with_stat emit
                       consecutive_challenges].
  destruct (BOT_DETECTION_THRESHOLD e <=? consecutive_challenges s + 1)%nat.
  - rewrite Hsig.
    match goal with
    | |- context [_handle_cooldown e false ?x] =>
        rewrite (cooldown_expiry e x) by exact Hs
    end.
    unfold with_details, with_challenges, with_stat, emit.
    cbn [snd consecutive_challenges cooldown_count current_cooldown events
         shutdown_requested details_coll].
    rewrite <- app_assoc. repeat split.
    intros id Hid. apply find_success_after_unsuccessful; [reflexivity | exact Hid].
  - unfold with_details, with_challenges, with_stat, emit.
    cbn [snd consecutive_challenges cooldown_count current_cooldown events
         shutdown_requested details_coll].
    repeat split.
    intros id Hid. apply find_success_after_unsuccessful; [reflexivity | exact Hid].
Qed.

Lemma normal_step (e : engine) (s : scraper) (doc : item_row) (w : world) :
  classified false doc w ->
  find_success (row_id doc) (details_coll s) = None ->
  consecutive_challenges (snd (process_property e s doc w)) = 0%nat.
Proof.
  intros (Hurl & Hsig & html & data & Hf & Hne & Hx & Hd) Hnone.
  unfold process_property.
  rewrite Hurl, Hnone. unfold fetch_property_html. rewrite Hf.
  destruct html as [|c html]; [congruence|]. cbn [is_empty negb].
  rewrite Hx, Hd.
  destruct (closing_print data); reflexivity.
Qed.

(** One more challenge: the facts of [challenge_step] about the scraper
    [s'] that follows [s], with the test of the threshold decided from
    the counter [n] of [s]. *)
Ltac challenge s d w s' Hclass Hnone Hshut Hcount :=
  let H := fresh "H" in
  pose proof (challenge_step Sequential s d w Hclass Hnone (fun _ => Hshut)) as H;
  cbv zeta in H;
  set (s' := snd (process_property Sequential s d w)) in *;
  rewrite Hcount in H;
  cbn [BOT_DETECTION_THRESHOLD Nat.leb Nat.add] in H.


(** *** Reading a field of an updated scraper *)

Lemma stat_with_stat (f : stats -> stats) (s : scraper) :
  stat (with_stat f s) = f (stat s).
Proof. reflexivity. Qed.

Lemma consecutive_challenges_with_stat (f : stats -> stats) (s : scraper) :
  consecutive_challenges (with_stat f s) = consecutive_challenges s.
Proof. reflexivity. Qed.

Lemma current_cooldown_with_stat (f : stats -> stats) (s : scraper) :
  current_cooldown (with_stat f s) = current_cooldown s.
Proof. reflexivity. Qed.

Lemma cooldown_count_with_stat (f : stats -> stats) (s : scraper) :
  cooldown_count (with_stat f s) = cooldown_count s.
Proof. reflexivity. Qed.

Lemma last_challenge_time_with_stat (f : stats -> stats) (s : scraper) :
  last_challenge_time (with_stat f s) = last_challenge_time s.
Proof. reflexivity. Qed.

Lemma details_coll_with_stat (f : stats -> stats) (s : scraper) :
  details_coll (with_stat f s) = details_coll s.
Proof. reflexivity. Qed.

Lemma properties_coll_with_stat (f : stats -> stats) (s : scraper) :
  properties_coll (with_stat f s) = properties_coll s.
Proof. reflexivity. Qed.

Lemma shutdown_requested_with_stat (f : stats -> stats) (s : scraper) :
  shutdown_requested (with_stat f s) = shutdown_requested s.
Proof. reflexivity. Qed.

Lemma events_with_stat (f : stats -> stats) (s : scraper) :
  events (with_stat f s) = events s.
Proof. reflexivity. Qed.

Lemma stat_with_details (f : list detail_row -> list detail_row) (s : scraper) :
  stat (with_details f s) = stat s.
Proof. reflexivity. Qed.

Lemma consecutive_challenges_with_details (f : list detail_row -> list detail_row) (s : scraper) :
  consecutive_challenges (with_details f s) = consecutive_challenges s.
Proof. reflexivity. Qed.

Lemma current_cooldown_with_details (f : list detail_row -> list detail_row) (s : scraper) :
  current_cooldown (with_details f s) = current_cooldown s.
Proof. reflexivity. Qed.

Lemma cooldown_count_with_details (f : list detail_row -> list detail_row) (s : scraper) :
  cooldown_count (with_details f s) = cooldown_count s.
Proof. reflexivity. Qed.

Lemma last_challenge_time_with_details (f : list detail_row -> list detail_row) (s : scraper) :
  last_challenge_time (with_details f s) = last_challenge_time s.
Proof. reflexivity. Qed.

Lemma details_coll_with_details (f : list detail_row -> list detail_row) (s : scraper) :
  details_coll (with_details f s) = f (details_coll s).
Proof. reflexivity. Qed.

Lemma properties_coll_with_details (f : list detail_row -> list detail_row) (s : scraper) :
  properties_coll (with_details f s) = properties_coll s.
Proof. reflexivity. Qed.

Lemma shutdown_requested_with_details (f : list detail_row -> list detail_row) (s : scraper) :
  shutdown_requested (with_details f s) = shutdown_requested s.
Proof. reflexivity. Qed.

Lemma events_with_details (f : list detail_row -> list detail_row) (s : scraper) :
  events (with_details f s) = events s.
Proof. reflexivity. Qed.

Lemma stat_with_properties (f : list item_row -> list item_row) (s : scraper) :
  stat (with_properties f s) = stat s.
Proof. reflexivity. Qed.

Lemma consecutive_challenges_with_properties (f : list item_row -> list item_row) (s : scraper) :
  consecutive_challenges (with_properties f s) = consecutive_challenges s.
Proof. reflexivity. Qed.

Lemma current_cooldown_with_properties (f : list item_row -> list item_row) (s : scraper) :
  current_cooldown (with_properties f s) = current_cooldown s.
Proof. reflexivity. Qed.

Lemma cooldown_count_with_properties (f : list item_row -> list item_row) (s : scraper) :
  cooldown_count (with_properties f s) = cooldown_count s.
Proof. reflexivity. Qed.

Lemma last_challenge_time_with_properties (f : list item_row -> list item_row) (s : scraper) :
  last_challenge_time (with_properties f s) = last_challenge_time s.
Proof. reflexivity. Qed.

Lemma details_coll_with_properties (f : list item_row -> list item_row) (s : scraper) :
  details_coll (with_properties f s) = details_coll s.
Proof. reflexivity. Qed.

Lemma properties_coll_with_properties (f : list item_row -> list item_row) (s : scraper) :
  properties_coll (with_properties f s) = f (properties_coll s).
Proof. reflexivity. Qed.

Lemma shutdown_requested_with_properties (f : list item_row -> list item_row) (s : scraper) :
  shutdown_requested (with_properties f s) = shutdown_requested s.
Proof. reflexivity. Qed.

Lemma events_with_properties (f : list item_row -> list item_row) (s : scraper) :
  events (with_properties f s) = events s.
Proof. reflexivity. Qed.

Lemma stat_with_challenges (n : nat) (t : option Z) (s : scraper) :
  stat (with_challenges n t s) = stat s.
Proof. reflexivity. Qed.

Lemma consecutive_challenges_with_challenges (n : nat) (t : option Z) (s : scraper) :
  consecutive_challenges (with_challenges n t s) = n.
Proof. reflexivity. Qed.

Lemma current_cooldown_with_challenges (n : nat) (t : option Z) (s : scraper) :
  current_cooldown (with_challenges n t s) = current_cooldown s.
Proof. reflexivity. Qed.

Lemma cooldown_count_with_challenges (n : nat) (t : option Z) (s : scraper) :
  cooldown_count (with_challenges n t s) = cooldown_count s.
Proof. reflexivity. Qed.

Lemma last_challenge_time_with_challenges (n : nat) (t : option Z) (s : scraper) :
  last_challenge_time (with_challenges n t s) = t.
Proof. reflexivity. Qed.

Lemma details_coll_with_challenges (n : nat) (t : option Z) (s : scraper) :
  details_coll (with_challenges n t s) = details_coll s.
Proof. reflexivity. Qed.

Lemma properties_coll_with_challenges (n : nat) (t : option Z) (s : scraper) :
  properties_coll (with_challenges n t s) = properties_coll s.
Proof. reflexivity. Qed.

Lemma shutdown_requested_with_challenges (n : nat) (t : option Z) (s : scraper) :
  shutdown_requested (with_challenges n t s) = shutdown_requested s.
Proof. reflexivity. Qed.

Lemma events_with_challenges (n : nat) (t : option Z) (s : scraper) :
  events (with_challenges n t s) = events s.
Proof. reflexivity. Qed.

Lemma stat_emit (ev : event) (s : scraper) :
  stat (emit ev s) = stat s.
Proof. reflexivity. Qed.

Lemma consecutive_challenges_emit (ev : event) (s : scraper) :
  consecutive_challenges (emit ev s) = consecutive_challenges s.
Proof. reflexivity. Qed.

Lemma current_cooldown_emit (ev : event) (s : scraper) :
  current_cooldown (emit ev s) = current_cooldown s.
Proof. reflexivity. Qed.

Lemma cooldown_count_emit (ev : event) (s : scraper) :
  cooldown_count (emit ev s) = cooldown_count s.
Proof. reflexivity. Qed.

Lemma last_challenge_time_emit (ev : event) (s : scraper) :
  last_challenge_time (emit ev s) = last_challenge_time s.
Proof. reflexivity. Qed.

Lemma details_coll_emit (ev : event) (s : scraper) :
  details_coll (emit ev s) = details_coll s.
Proof. reflexivity. Qed.

Lemma properties_coll_emit (ev : event) (s : scraper) :
  properties_coll (emit ev s) = properties_coll s.
Proof. reflexivity. Qed.

Lemma shutdown_requested_emit (ev : event) (s : scraper) :
  shutdown_requested (emit ev s) = shutdown_requested s.
Proof. reflexivity. Qed.

Lemma events_emit (ev : event) (s : scraper) :
  events (emit ev s) = events s ++ [ev].
Proof. reflexivity. Qed.

Create Rewrite HintDb fields.

#[local] Hint Rewrite
  stat_with_stat consecutive_challenges_with_stat current_cooldown_with_stat
  cooldown_count_with_stat last_challenge_time_with_stat details_coll_with_stat
  properties_coll_with_stat shutdown_requested_with_stat events_with_stat
  stat_with_details consecutive_challenges_with_details current_cooldown_with_details
  cooldown_count_with_details last_challenge_time_with_details details_coll_with_details
  properties_coll_with_details shutdown_requested_with_details events_with_details
  stat_with_properties consecutive_challenges_with_properties current_cooldown_with_properties
  cooldown_count_with_properties last_challenge_time_with_properties details_coll_with_properties
  properties_coll_with_properties shutdown_requested_with_properties events_with_properties
  stat_with_challenges consecutive_challenges_with_challenges current_cooldown_with_challenges
  cooldown_count_with_challenges last_challenge_time_with_challenges details_coll_with_challenges
  properties_coll_with_challenges shutdown_requested_with_challenges events_with_challenges
  stat_emit consecutive_challenges_emit current_cooldown_emit
  cooldown_count_emit last_challenge_time_emit details_coll_emit
  properties_coll_emit shutdown_requested_emit events_emit
  : fields.

(** *** A cooldown cut short *)

Lemma run_loop_after_shutdown (s : scraper) (rest : list (item_row * world)) :
  shutdown_requested s = true ->
  events (run_loop s rest) = events s /\
  details_coll (run_loop s rest) = details_coll s /\
  properties_coll (run_loop s rest) = properties_coll s /\
  stat (run_loop s rest) = stat s.
Proof.
  intros Hs. destruct rest as [|[doc w] rest]; [repeat split|].
  cbn [run_loop]. rewrite Hs. repeat split.
Qed.

Lemma cooldown_cut_short (s : scraper) :
  events (snd (_handle_cooldown Sequential true s))
    = events s ++ [Cooldown (current_cooldown s) true] /\
  shutdown_requested (snd (_handle_cooldown Sequential true s)) = true /\
  consecutive_challenges (snd (_handle_cooldown Sequential true s))
    = consecutive_challenges s /\
  current_cooldown (snd (_handle_cooldown Sequential true s)) = current_cooldown s /\
  cooldown_count (snd (_handle_cooldown Sequential true s))
    = (cooldown_count s + 1)%nat /\
  stat (snd (_handle_cooldown Sequential true s)) = count_cooldown (stat s).
Proof.
  unfold _handle_cooldown. rewrite orb_true_r. cbn. repeat split.
Qed.

(** X9.  In the sequential engine, a shutdown signal that arrives while
    a cooldown is being waited out cuts it short: the cooldown is
    counted, but the duration is not raised and the challenge counter is
    not reset; the shutdown flag is up, and the loop of [run] makes no
    further request and changes neither collection nor the counts. *)
Theorem interrupted_cooldown_ends_the_run (s : scraper) (doc : item_row)
    (w : world) (html : str) (data : list (str * pyval)) :
  truthy (row_detailed_url doc) = true ->
  find_success (row_id doc) (details_coll s) = None ->
  w_fetch w = Response 200 html -> html <> [] ->
  w_extract w = Extracted data ->
  _detect_bot_challenge lower html data = true ->
  (BOT_DETECTION_THRESHOLD Sequential <= consecutive_challenges s + 1)%nat ->
  w_signal w = true ->
  let s' := snd (process_property Sequential s doc w) in
  fst (process_property Sequential s doc w) = false /\
  events s' =
    events s ++ [Get (row_detailed_url doc); Cooldown (current_cooldown s) true] /\
  shutdown_requested s' = true /\
  consecutive_challenges s' = (consecutive_challenges s + 1)%nat /\
  current_cooldown s' = current_cooldown s /\
  cooldown_count s' = (cooldown_count s + 1)%nat /\
  cooldowns (stat s') = (cooldowns (stat s) + 1)%nat /\
  (forall rest,
      events (run_loop s' rest) = events s' /\
      details_coll (run_loop s' rest) = details_coll s' /\
      properties_coll (run_loop s' rest) = properties_coll s' /\
      stat (run_loop s' rest) = stat s').
Proof.
  intros Hurl Hnone Hf Hne Hx Hd Hc Hsig s'.
  assert (Hp : process_property Sequential s doc w =
    (false,
     snd (_handle_cooldown Sequential true
            (with_details
               (upsert_detail (row_id doc)
                  (set_challenge (row_id doc) (row_detailed_url doc) (w_now w) data))
               (with_challenges (consecutive_challenges s + 1) (Some (w_now w))
                  (with_stat count_challenge
                     (emit (Get (row_detailed_url doc)) s))))))).
  { unfold process_property.
    rewrite Hurl, Hnone. unfold fetch_property_html. rewrite Hf.
    destruct html as [|c html]; [congruence|]. cbn [is_empty negb].
    rewrite Hx, Hd, Hsig.
    cbn [with_details with_challenges with_stat emit consecutive_challenges].
    apply Nat.leb_le in Hc. rewrite Hc. reflexivity. }
  subst s'. rewrite Hp. cbn [fst snd].
  match goal with
  | |- context [_handle_cooldown Sequential true ?x] =>
      destruct (cooldown_cut_short x) as (He & Hs & Hn & Hcc & Hk & Hst);
      set (s2 := snd (_handle_cooldown Sequential true x)) in *
  end.
  autorewrite with fields in He, Hn, Hcc, Hk, Hst.
  split; [reflexivity|].
  split; [rewrite He, <- app_assoc; reflexivity|].
  split; [exact Hs|].
  split; [exact Hn|]. split; [exact Hcc|]. split; [exact Hk|].
  split; [rewrite Hst; reflexivity|].
  intros rest. apply run_loop_after_shutdown. exact Hs.
Qed.

(** *** Records that succeeded *)

Lemma upsert_detail_other (id id' : str) (set : detail_row -> detail_row)
    (coll : list detail_row) :
  (forall row, d_id (set row) = id) -> id <> id' ->
  find_success id' (upsert_detail id set coll) = find_success id' coll.
Proof.
  intros Hset Hne.
  assert (Hf : str_eqb id id' = false) by (apply str_eqb_neq; exact Hne).
  induction coll as [|row rest IH]; cbn [upsert_detail find_success].
  - rewrite Hset, Hf. reflexivity.
  - destruct (str_eqb (d_id row) id) eqn:E; cbn [find_success].
    + apply str_eqb_eq in E. rewrite Hset, E, Hf. reflexivity.
    + rewrite IH. reflexivity.
Qed.

Lemma cooldown_keeps_collections (e : engine) (signal : bool) (s : scraper) :
  details_coll (snd (_handle_cooldown e signal s)) = details_coll s /\
  properties_coll (snd (_handle_cooldown e signal s)) = properties_coll s.
Proof.
  unfold _handle_cooldown.
  destruct (match e with
            | Sequential => shutdown_requested s || signal
            | Async => false
            end); split; reflexivity.
Qed.

Lemma process_property_keeps_success (e : engine) (s : scraper) (doc : item_row)
    (w : world) (id : str) (r : detail_row) :
  find_success id (details_coll s) = Some r ->
  find_success id (details_coll (snd (process_property e s doc w))) = Some r.
Proof.
  intros Hr. unfold process_property.
  destruct (negb (truthy (row_detailed_url doc))); [exact Hr|].
  destruct (find_success (row_id doc) (details_coll s)) as [r'|] eqn:Hd; [exact Hr|].
  assert (Hne : row_id doc <> id) by (intros E; rewrite E in Hd; congruence).
  assert (Hfail : forall message (s0 : scraper),
    details_coll s0 = details_coll s ->
    find_success id
      (upsert_detail (row_id doc)
         (set_failure (row_id doc) (row_detailed_url doc) (w_now w) message)
         (details_coll s0)) = Some r).
  { intros message s0 E. rewrite upsert_detail_other, E;
      [exact Hr | reflexivity | exact Hne]. }
  destruct (fetch_property_html w) as [html|]; [|exact (Hfail _ _ eq_refl)].
  destruct (is_empty html); [exact (Hfail _ _ eq_refl)|].
  destruct (w_extract w) as [data|message]; [|exact (Hfail _ _ eq_refl)].
  destruct (_detect_bot_challenge lower html data).
  - assert (Hch : find_success id
      (upsert_detail (row_id doc)
         (set_challenge (row_id doc) (row_detailed_url doc) (w_now w) data)
         (details_coll s)) = Some r)
      by (rewrite upsert_detail_other; [exact Hr | reflexivity | exact Hne]).
    destruct (BOT_DETECTION_THRESHOLD e <=? _)%nat; cbn [snd]; [|exact Hch].
    rewrite (proj1 (cooldown_keeps_collections _ _ _)). exact Hch.
  - assert (Hok : find_success id
      (upsert_detail (row_id doc)
         (set_success (row_id doc) (row_detailed_url doc) (w_now w) data)
         (details_coll s)) = Some r)
      by (rewrite upsert_detail_other; [exact Hr | reflexivity | exact Hne]).
    destruct (closing_print data); cbn [snd]; [exact Hok|].
    unfold record_exception. cbn [with_details with_stat details_coll].
    rewrite upsert_detail_other; [exact Hok | reflexivity | exact Hne].
Qed.

(** X10.  A successful record is never lost or altered: once the
    details collection holds a record with [extraction_success] true
    for a property, it holds that same record after any number of
    further properties have been processed, by either engine, in any
    world. *)
Theorem successful_records_are_permanent (e : engine)
    (work : list (item_row * world)) (s : scraper) (id : str) (r : detail_row) :
  find_success id (details_coll s) = Some r ->
  find_success id (details_coll (feed e s work)) = Some r.
Proof.
  revert s. induction work as [|[doc w] rest IH]; intros s Hr; [exact Hr|].
  cbn [feed]. apply IH. apply process_property_keeps_success. exact Hr.
Qed.

(** *** The closing print *)

Lemma upsert_detail_twice (id : str) (set1 set2 : detail_row -> detail_row)
    (coll : list detail_row) :
  (forall row, d_id (set1 row) = id) ->
  upsert_detail id set2 (upsert_detail id set1 coll) =
  upsert_detail id (fun row => set2 (set1 row)) coll.
Proof.
  intros H1. induction coll as [|row rest IH]; cbn [upsert_detail].
  - rewrite H1, str_eqb_refl. reflexivity.
  - destruct (str_eqb (d_id row) id) eqn:E; cbn [upsert_detail].
    + rewrite H1, str_eqb_refl. reflexivity.
    + rewrite E, IH. reflexivity.
Qed.

Lemma mark_scraped_find (id : str) (t : Z) (coll : list item_row) (r : item_row) :
  find_row id coll = Some r ->
  exists r',
    find_row id (mark_scraped id t coll) = Some r' /\
    detail_scraped r' = true /\ detail_scraped_at r' = Some t /\
    row_detailed_url r' = row_detailed_url r.
Proof.
  induction coll as [|row rest IH]; cbn [find_row mark_scraped]; [discriminate|].
  destruct (str_eqb (row_id row) id) eqn:E.
  - intros [= <-]. eexists. cbn [find_row row_id]. rewrite E.
    split; [reflexivity|]. repeat split.
  - intros H. cbn [find_row]. rewrite E. exact (IH H).
Qed.

(** X11.  When the page was fetched, extracted and found normal but the
    closing [print] raises (the price is there and is not a number), the
    call returns [False] and the record written a moment before is
    overwritten: it now has [extraction_success] false and the text of
    the exception, with the extracted data still in it.  The listing
    stays marked [detail_scraped], so no later run reads it again, and
    it is counted both as a success and as a failure. *)
Theorem print_failure_is_marked_scraped (e : engine) (s : scraper)
    (doc : item_row) (w : world) (html : str) (data : list (str * pyval)) :
  truthy (row_detailed_url doc) = true ->
  find_success (row_id doc) (details_coll s) = None ->
  w_fetch w = Response 200 html -> html <> [] ->
  w_extract w = Extracted data ->
  _detect_bot_challenge lower html data = false ->
  closing_print data = Raised ->
  let s' := snd (process_property e s doc w) in
  fst (process_property e s doc w) = false /\
  find_success (row_id doc) (details_coll s') = None /\
  (exists row,
      In row (details_coll s') /\ d_id row = row_id doc /\
      extraction_success row = false /\
      extracted_data row = Some data /\
      error row = Some (w_print_error w)) /\
  success (stat s') = (success (stat s) + 1)%nat /\
  failed (stat s') = (failed (stat s) + 1)%nat /\
  (forall r, find_row (row_id doc) (properties_coll s) = Some r ->
     exists r',
       find_row (row_id doc) (properties_coll s') = Some r' /\
       detail_scraped r' = true /\ pending r' = false).
Proof.
  intros Hurl Hnone Hf Hne Hx Hd Hprint s'.
  assert (Hp : process_property e s doc w =
    (false,
     record_exception e (row_id doc) (row_detailed_url doc) (w_now w)
       (w_print_error w)
       (with_stat count_success
          (with_properties (mark_scraped (row_id doc) (w_now w))
             (with_details
                (upsert_detail (row_id doc)
                   (set_success (row_id doc) (row_detailed_url doc) (w_now w) data))
                (with_challenges 0 None
                   (emit (Get (row_detailed_url doc)) s))))))).
  { unfold process_property.
    rewrite Hurl, Hnone. unfold fetch_property_html. rewrite Hf.
    destruct html as [|c html]; [congruence|]. cbn [is_empty negb].
    rewrite Hx, Hd, Hprint. reflexivity. }
  subst s'. rewrite Hp. cbn [fst snd].
  unfold record_exception. autorewrite with fields.
  cbn [success failed note_error count_success].
  rewrite upsert_detail_twice by reflexivity.
  split; [reflexivity|]. split; [|split; [|split; [|split]]].
  - apply find_success_after_unsuccessful; [reflexivity | exact Hnone].
  - destruct (upsert_detail_has_row (row_id doc)
                (fun row =>
                   set_failure (row_id doc) (row_detailed_url doc) (w_now w)
                     (w_print_error w)
                     (set_success (row_id doc) (row_detailed_url doc) (w_now w)
                        data row))
                (details_coll s)) as [row Hrow].
    eexists. split; [exact Hrow|]. repeat split.
  - reflexivity.
  - reflexivity.
  - intros r Hr.
    destruct (mark_scraped_find (row_id doc) (w_now w) (properties_coll s) r Hr)
      as (r' & Hf' & Hm & _).
    exists r'. split; [exact Hf'|]. split; [exact Hm|].
    unfold pending. rewrite Hm. reflexivity.
Qed.

(** *** One call, whatever the world *)

(** Whether [_handle_cooldown] is cut short. *)
Definition cut_short (e : engine) (signal : bool) (s : scraper) : bool :=
  match e with
  | Sequential => shutdown_requested s || signal
  | Async => false
  end.

Lemma events_cooldown (e : engine) (signal : bool) (s : scraper) :
  events (snd (_handle_cooldown e signal s))
  = events s ++ [Cooldown (current_cooldown s) (cut_short e signal s)].
Proof.
  unfold _handle_cooldown, cut_short.
  destruct e; [destruct (shutdown_requested s || signal)|]; reflexivity.
Qed.

Lemma details_coll_cooldown (e : engine) (signal : bool) (s : scraper) :
  details_coll (snd (_handle_cooldown e signal s)) = details_coll s.
Proof. apply cooldown_keeps_collections. Qed.

Lemma properties_coll_cooldown (e : engine) (signal : bool) (s : scraper) :
  properties_coll (snd (_handle_cooldown e signal s)) = properties_coll s.
Proof. apply cooldown_keeps_collections. Qed.

Lemma cooldown_count_cooldown (e : engine) (signal : bool) (s : scraper) :
  cooldown_count (snd (_handle_cooldown e signal s)) = (cooldown_count s + 1)%nat.
Proof.
  unfold _handle_cooldown.
  destruct e; [destruct (shutdown_requested s || signal)|]; reflexivity.
Qed.

Lemma current_cooldown_cooldown (e : engine) (signal : bool) (s : scraper) :
  current_cooldown (snd (_handle_cooldown e signal s))
  = if cut_short e signal s then current_cooldown s
    else next_cooldown (current_cooldown s).
Proof.
  unfold _handle_cooldown, cut_short.
  destruct e; [destruct (shutdown_requested s || signal)|]; reflexivity.
Qed.

Lemma consecutive_challenges_cooldown (e : engine) (signal : bool) (s : scraper) :
  consecutive_challenges (snd (_handle_cooldown e signal s))
  = if cut_short e signal s then consecutive_challenges s else 0%nat.
Proof.
  unfold _handle_cooldown, cut_short.
  destruct e; [destruct (shutdown_requested s || signal)|]; reflexivity.
Qed.

Lemma shutdown_requested_cooldown (e : engine) (signal : bool) (s : scraper) :
  shutdown_requested (snd (_handle_cooldown e signal s))
  = match e with
    | Sequential => shutdown_requested s || signal
    | Async => shutdown_requested s
    end.
Proof.
  unfold _handle_cooldown.
  destruct e; [destruct (shutdown_requested s || signal)|]; reflexivity.
Qed.

Lemma stat_cooldown (e : engine) (signal : bool) (s : scraper) :
  stat (snd (_handle_cooldown e signal s)) = count_cooldown (stat s).
Proof.
  unfold _handle_cooldown.
  destruct e; [destruct (shutdown_requested s || signal)|]; reflexivity.
Qed.

#[local] Hint Rewrite
  events_cooldown details_coll_cooldown properties_coll_cooldown
  cooldown_count_cooldown current_cooldown_cooldown
  consecutive_challenges_cooldown shutdown_requested_cooldown stat_cooldown
  : fields.

(** The outcomes of [process_property], one goal for each. *)
Ltac outcomes e s doc w :=
  unfold process_property;
  destruct (negb (truthy (row_detailed_url doc)));
  [| destruct (find_success (row_id doc) (details_coll s));
     [| destruct (fetch_property_html w) as [html|];
        [ destruct (is_empty html);
          [| destruct (w_extract w) as [data|message];
             [ destruct (_detect_bot_challenge lower html data);
               [ destruct (BOT_DETECTION_THRESHOLD e <=? _)%nat eqn:Hthreshold
               | destruct (closing_print data) ]
             | ] ]
        | ] ] ];
  cbn [snd fst]; unfold record_exception; autorewrite with fields.

(** Two rows for the same listing that differ at most in the detail
    flag and its time, the flag never going from set to clear. *)
Definition same_listing (r r' : item_row) : Prop :=
  row_id r' = row_id r /\
  row_detailed_url r' = row_detailed_url r /\
  last_raw_item r' = last_raw_item r /\
  last_seen r' = last_seen r /\
  last_page r' = last_page r /\
  last_position r' = last_position r /\
  last_location r' = last_location r /\
  current_price r' = current_price r /\
  row_purpose r' = row_purpose r /\
  locations_seen r' = locations_seen r /\
  appearances r' = appearances r /\
  first_seen r' = first_seen r /\
  first_page r' = first_page r /\
  first_location r' = first_location r /\
  created_at r' = created_at r /\
  (detail_scraped r = true -> detail_scraped r' = true).

Lemma same_listing_refl (coll : list item_row) : Forall2 same_listing coll coll.
Proof.
  induction coll as [|r rest IH]; constructor; [|exact IH].
  repeat split. intros H; exact H.
Qed.

Lemma mark_scraped_same (id : str) (t : Z) (coll : list item_row) :
  Forall2 same_listing coll (mark_scraped id t coll).
Proof.
  induction coll as [|r rest IH]; cbn [mark_scraped]; [constructor|].
  destruct (str_eqb (row_id r) id).
  - constructor; [|apply same_listing_refl]. repeat split.
  - constructor; [|exact IH]. repeat split. intros H; exact H.
Qed.

Lemma mark_scraped_other (id id' : str) (t : Z) (coll : list item_row) :
  id' <> id -> find_row id' (mark_scraped id t coll) = find_row id' coll.
Proof.
  intros Hne. induction coll as [|r rest IH]; cbn [mark_scraped]; [reflexivity|].
  destruct (str_eqb (row_id r) id) eqn:E; cbn [find_row row_id].
  - apply str_eqb_eq in E.
    assert (Hf : str_eqb (row_id r) id' = false)
      by (apply str_eqb_neq; intros E'; apply Hne; rewrite <- E', E; reflexivity).
    rewrite Hf. reflexivity.
  - rewrite IH. reflexivity.
Qed.

(** The records of the property [id]. *)
Definition records_of (id : str) (coll : list detail_row) : list detail_row :=
  filter (fun r => str_eqb (d_id r) id) coll.

Lemma upsert_detail_records_other (id id' : str) (set : detail_row -> detail_row)
    (coll : list detail_row) :
  (forall row, d_id (set row) = id) -> id' <> id ->
  records_of id' (upsert_detail id set coll) = records_of id' coll.
Proof.
  intros Hset Hne.
  assert (Hf : str_eqb id id' = false)
    by (apply str_eqb_neq; intros E; apply Hne; symmetry; exact E).
  unfold records_of.
  induction coll as [|row rest IH]; cbn [upsert_detail filter].
  - rewrite Hset, Hf. reflexivity.
  - destruct (str_eqb (d_id row) id) eqn:E; cbn [filter].
    + apply str_eqb_eq in E. rewrite Hset, E, Hf. reflexivity.
    + rewrite IH. reflexivity.
Qed.

Lemma next_cooldown_le (d : Z) : (0 <= d)%Z -> (d <= next_cooldown d)%Z.
Proof. intros H. pose proof (next_cooldown_floor d H). lia. Qed.

Lemma footprint_events (e : engine) (s : scraper) (doc : item_row) (w : world) :
  exists evs,
    events (snd (process_property e s doc w)) = events s ++ evs /\
    (evs = [] \/ evs = [Get (row_detailed_url doc)] \/
     exists cut,
       evs = [Get (row_detailed_url doc); Cooldown (current_cooldown s) cut]).
Proof.
  outcomes e s doc w;
    try (exists []; rewrite app_nil_r; split; [reflexivity | now left]);
    try (exists [Get (row_detailed_url doc)];
         split; [reflexivity | right; now left]).
  eexists. rewrite <- app_assoc. split; [reflexivity|].
  right. right. eexists. reflexivity.
Qed.

Lemma footprint_listings (e : engine) (s : scraper) (doc : item_row) (w : world) :
  Forall2 same_listing (properties_coll s)
    (properties_coll (snd (process_property e s doc w))) /\
  (forall id, id <> row_id doc ->
     find_row id (properties_coll (snd (process_property e s doc w)))
     = find_row id (properties_coll s)).
Proof.
  outcomes e s doc w;
    try (split; [apply same_listing_refl | reflexivity]);
    (split; [apply mark_scraped_same
            | intros id Hne; apply mark_scraped_other; exact Hne]).
Qed.

Lemma footprint_records (e : engine) (s : scraper) (doc : item_row) (w : world)
    (id : str) :
  id <> row_id doc ->
  records_of id (details_coll (snd (process_property e s doc w)))
  = records_of id (details_coll s).
Proof.
  intros Hne.
  outcomes e s doc w; try reflexivity;
    repeat (rewrite upsert_detail_records_other; [| reflexivity | exact Hne]);
    reflexivity.
Qed.

Lemma footprint_cooldown (e : engine) (s : scraper) (doc : item_row) (w : world) :
  (cooldown_count s <= cooldown_count (snd (process_property e s doc w))
   <= cooldown_count s + 1)%nat /\
  ((0 <= current_cooldown s)%Z ->
   (current_cooldown s <= current_cooldown (snd (process_property e s doc w)))%Z).
Proof.
  outcomes e s doc w; try (split; lia).
  split; [lia|]. intros H.
  match goal with |- context [if ?c then _ else _] => destruct c end;
    [lia | apply next_cooldown_le; exact H].
Qed.

(** X12.  Whatever the world answers, one call of [process_property]
    makes no request, one request, or one request followed by one
    cooldown wait at the current duration; it adds and removes no
    listing and changes none but by setting the detail flag of the
    property's own; it leaves the records of every other property as
    they are; and it never lowers the cooldown count or the cooldown
    duration. *)
Theorem process_property_footprint (e : engine) (s : scraper) (doc : item_row)
    (w : world) :
  (exists evs,
      events (snd (process_property e s doc w)) = events s ++ evs /\
      (evs = [] \/ evs = [Get (row_detailed_url doc)] \/
       exists cut,
         evs = [Get (row_detailed_url doc); Cooldown (current_cooldown s) cut])) /\
  Forall2 same_listing (properties_coll s)
    (properties_coll (snd (process_property e s doc w))) /\
  (forall id, id <> row_id doc ->
     find_row id (properties_coll (snd (process_property e s doc w)))
     = find_row id (properties_coll s)) /\
  (forall id, id <> row_id doc ->
     records_of id (details_coll (snd (process_property e s doc w)))
     = records_of id (details_coll s)) /\
  (cooldown_count s <= cooldown_count (snd (process_property e s doc w))
   <= cooldown_count s + 1)%nat /\
  ((0 <= current_cooldown s)%Z ->
   (current_cooldown s <= current_cooldown (snd (process_property e s doc w)))%Z).
Proof.
  split; [apply footprint_events|].
  split; [apply footprint_listings|].
  split; [apply footprint_listings|].
  split; [intros id Hne; apply footprint_records; exact Hne|].
  apply footprint_cooldown.
Qed.

(** *** The counter between two properties *)

Lemma counter_step (e : engine) (s : scraper) (doc : item_row) (w : world) :
  (consecutive_challenges s < BOT_DETECTION_THRESHOLD e)%nat ->
  (e = Sequential -> shutdown_requested s = false /\ w_signal w = false) ->
  (consecutive_challenges (snd (process_property e s doc w))
   < BOT_DETECTION_THRESHOLD e)%nat /\
  shutdown_requested (snd (process_property e s doc w)) = shutdown_requested s.
Proof.
  intros Hc Hs.
  assert (Hpos : (0 < BOT_DETECTION_THRESHOLD e)%nat) by (destruct e; cbn; lia).
  outcomes e s doc w; try (split; [assumption || lia | reflexivity]).
  - unfold cut_short. autorewrite with fields. destruct e.
    + destruct (Hs eq_refl) as [-> ->]. cbn. split; [lia | reflexivity].
    + split; [exact Hpos | reflexivity].
  - apply Nat.leb_gt in Hthreshold. autorewrite with fields in Hthreshold.
    split; [exact Hthreshold | reflexivity].
Qed.

Lemma counter_trace (e : engine) (work : list (item_row * world)) :
  forall s,
  (consecutive_challenges s < BOT_DETECTION_THRESHOLD e)%nat ->
  (e = Sequential ->
   shutdown_requested s = false /\
   Forall (fun dw => w_signal (snd dw) = false) work) ->
  Forall (fun s' => (consecutive_challenges s' < BOT_DETECTION_THRESHOLD e)%nat)
    (feed_trace e s work).
Proof.
  induction work as [|[doc w] rest IH]; intros s Hc Hs; [constructor|].
  cbn [feed_trace].
  destruct (counter_step e s doc w Hc) as [Hc' Hs'].
  { intros E. destruct (Hs E) as [H1 H2]. split; [exact H1|].
    inversion H2; subst. assumption. }
  constructor; [exact Hc'|].
  apply IH; [exact Hc'|].
  intros E. destruct (Hs E) as [H1 H2]. rewrite Hs'. split; [exact H1|].
  inversion H2; subst. assumption.
Qed.

(** X13.  In the sequential engine the challenge counter is below the
    threshold of 3 between any two properties, whatever the pages hold:
    the challenge that brings it to the threshold starts a cooldown in
    the same call, and the cooldown leaves it at 0.  This needs that no
    shutdown signal cuts a cooldown short. *)
Theorem challenge_counter_stays_below_threshold (s : scraper)
    (work : list (item_row * world)) :
  (consecutive_challenges s < BOT_DETECTION_THRESHOLD Sequential)%nat ->
  shutdown_requested s = false ->
  Forall (fun dw => w_signal (snd dw) = false) work ->
  Forall (fun s' =>
            (consecutive_challenges s' < BOT_DETECTION_THRESHOLD Sequential)%nat)
    (feed_trace Sequential s work).
Proof.
  intros Hc Hs Hw. apply counter_trace; [exact Hc|].
  intros _. split; assumption.
Qed.

(** *** The cursor and the announced total *)

Lemma cursor_length (coll : list item_row) (limit : option nat) (skip : nat) :
  length (cursor coll limit skip) =
  match limit with
  | Some (S n) => Nat.min (S n) (length (filter pending coll) - skip)
  | _ => (length (filter pending coll) - skip)%nat
  end.
Proof.
  unfold cursor. destruct limit as [[|n]|];
    rewrite ?length_firstn, length_skipn; reflexivity.
Qed.

Lemma process_property_counts (e : engine) (s : scraper) (doc : item_row)
    (w : world) :
  processed (stat (snd (process_property e s doc w))) = processed (stat s) /\
  total (stat (snd (process_property e s doc w))) = total (stat s).
Proof. outcomes e s doc w; split; reflexivity. Qed.

Lemma run_loop_counts (work : list (item_row * world)) :
  forall s,
  (processed (stat s) <= processed (stat (run_loop s work))
   <= processed (stat s) + length work)%nat /\
  total (stat (run_loop s work)) = total (stat s).
Proof.
  induction work as [|[doc w] rest IH]; intros s; cbn [run_loop length].
  - split; [lia | reflexivity].
  - destruct (shutdown_requested s || w_interrupt w);
      [cbn [stat]; split; [lia | reflexivity]|].
    destruct (IH (snd (process_property Sequential
                         (with_stat count_processed s) doc w))) as [Hp Ht].
    destruct (process_property_counts Sequential (with_stat count_processed s) doc w)
      as [Hp' Ht'].
    rewrite Hp' in Hp. rewrite Ht, Ht'.
    autorewrite with fields in *. cbn [processed total count_processed] in *.
    split; [lia | reflexivity].
Qed.

(** X14.  The total that [run] announces ignores [skip]: it is the
    number of pending listings, capped by the limit, while the cursor
    yields the pending listings after the first [skip], capped by the
    limit.  So [processed] never passes the length of the cursor, and
    with a skip and no limit it stays below the total even when every
    listing was processed. *)
Theorem announced_total_ignores_skip (s : scraper) (limit : option nat)
    (skip : nat) (worlds : list world) :
  let count := length (filter pending (properties_coll s)) in
  let s' := run s limit skip worlds in
  total (stat s') =
    match limit with
    | Some (S n) => Nat.min count (S n)
    | _ => count
    end /\
  length (cursor (properties_coll s) limit skip) =
    match limit with
    | Some (S n) => Nat.min (S n) (count - skip)
    | _ => (count - skip)%nat
    end /\
  (processed (stat s') <=
   processed (stat s) + length (cursor (properties_coll s) limit skip))%nat /\
  (limit = None -> (0 < skip)%nat -> (0 < count)%nat ->
   processed (stat s) = 0%nat ->
   (processed (stat s') < total (stat s'))%nat).
Proof.
  intros count s'.
  assert (Hlen : length (cursor (properties_coll s) limit skip) =
                 match limit with
                 | Some (S n) => Nat.min (S n) (count - skip)
                 | _ => (count - skip)%nat
                 end) by apply cursor_length.
  assert (Htot : total (stat s') =
                 match limit with
                 | Some (S n) => Nat.min count (S n)
                 | _ => count
                 end).
  { subst s'. unfold run. rewrite (proj2 (run_loop_counts _ _)).
    autorewrite with fields. reflexivity. }
  assert (Hproc : (processed (stat s') <=
                   processed (stat s) +
                   length (cursor (properties_coll s) limit skip))%nat).
  { subst s'. unfold run.
    match goal with
    | |- context [run_loop ?x ?wk] =>
        pose proof (proj1 (run_loop_counts wk x)) as H
    end.
    autorewrite with fields in H. cbn [processed] in H.
    rewrite length_combine in H. lia. }
  split; [exact Htot|]. split; [exact Hlen|]. split; [exact Hproc|].
  intros -> Hskip Hcount H0. rewrite Htot. rewrite Hlen, H0 in Hproc. lia.
Qed.

(** *** What a success leaves of earlier attempts *)

(** [find_one({"property_id": id})] on the details collection. *)
Fixpoint find_detail (id : str) (coll : list detail_row) : option detail_row :=
  match coll with
  | [] => None
  | row :: rest => if str_eqb (d_id row) id then Some row else find_detail id rest
  end.

Lemma find_success_upserted (id : str) (set : detail_row -> detail_row)
    (coll : list detail_row) :
  (forall row, d_id (set row) = id /\ extraction_success (set row) = true) ->
  exists row0,
    find_success id (upsert_detail id set coll) = Some (set row0) /\
    match find_detail id coll with
    | Some row => row0 = row
    | None => bot_challenge row0 = None /\ error row0 = None
    end.
Proof.
  intros Hset. induction coll as [|row rest IH];
    cbn [upsert_detail find_success find_detail].
  - eexists. destruct (Hset {| d_id := id; d_url := PNone; d_scraped_at := 0;
                               extraction_success := false; bot_challenge := None;
                               extracted_data := None; error := None |})
      as [-> ->].
    rewrite str_eqb_refl. split; [reflexivity | split; reflexivity].
  - destruct (str_eqb (d_id row) id) eqn:E; cbn [find_success].
    + exists row. destruct (Hset row) as [-> ->]. rewrite str_eqb_refl.
      split; reflexivity.
    + rewrite E. exact IH.
Qed.

(** X27.  A success does not clear what earlier attempts wrote: the
    [$set] of the success branch names neither [bot_challenge] nor
    [error], so after a page is fetched, extracted and found normal the
    record of the property is the successful one, with the new data and
    time, and still carries the [bot_challenge] flag and the [error]
    text that the record had before; a record made by this call has
    neither. *)
Theorem success_keeps_earlier_flags (e : engine) (s : scraper) (doc : item_row)
    (w : world) (html : str) (data : list (str * pyval)) :
  truthy (row_detailed_url doc) = true ->
  find_success (row_id doc) (details_coll s) = None ->
  w_fetch w = Response 200 html -> html <> [] ->
  w_extract w = Extracted data ->
  _detect_bot_challenge lower html data = false ->
  closing_print data = Ok tt ->
  let s' := snd (process_property e s doc w) in
  fst (process_property e s doc w) = true /\
  exists row',
    find_success (row_id doc) (details_coll s') = Some row' /\
    extracted_data row' = Some data /\
    d_scraped_at row' = w_now w /\
    match find_detail (row_id doc) (details_coll s) with
    | Some row => bot_challenge row' = bot_challenge row /\ error row' = error row
    | None => bot_challenge row' = None /\ error row' = None
    end.
Proof.
  intros Hurl Hnone Hf Hne Hx Hd Hprint s'.
  assert (Hp : process_property e s doc w =
    (true,
     with_stat count_success
       (with_properties (mark_scraped (row_id doc) (w_now w))
          (with_details
             (upsert_detail (row_id doc)
                (set_success (row_id doc) (row_detailed_url doc) (w_now w) data))
             (with_challenges 0 None
                (emit (Get (row_detailed_url doc)) s)))))).
  { unfold process_property.
    rewrite Hurl, Hnone. unfold fetch_property_html. rewrite Hf.
    destruct html as [|c html]; [congruence|]. cbn [is_empty negb].
    rewrite Hx, Hd, Hprint. reflexivity. }
  subst s'. rewrite Hp. cbn [fst snd]. autorewrite with fields.
  split; [reflexivity|].
  destruct (find_success_upserted (row_id doc)
              (set_success (row_id doc) (row_detailed_url doc) (w_now w) data)
              (details_coll s)) as (row0 & Hfound & Hrow0);
    [intros row; split; reflexivity|].
  eexists. split; [exact Hfound|].
  cbn [set_success extracted_data d_scraped_at bot_challenge error].
  split; [reflexivity|]. split; [reflexivity|].
  destruct (find_detail (row_id doc) (details_coll s)) as [row|].
  - subst row0. split; reflexivity.
  - exact Hrow0.
Qed.

(** *** Cooldowns across a run *)

Lemma mul_three_halves_exact (p mz q : positive) :
  (3 * Zpos p < 2 ^ 53)%Z ->
  Zpos mz = (Zpos p * 2 ^ (53 - Zpos (SpecFloat.digits2_pos p)))%Z ->
  Zpos q = (3 * Zpos p * 2 ^ (53 - Zpos (SpecFloat.digits2_pos (3 * p))))%Z ->
  Zpos (SpecFloat.digits2_pos q) = 53%Z ->
  Binary64.mul
    (SpecFloat.S754_finite false mz (Zpos (SpecFloat.digits2_pos p) - 53))
    COOLDOWN_MULTIPLIER
  = SpecFloat.S754_finite false q (Zpos (SpecFloat.digits2_pos (3 * p)) - 54).
Proof.
  intros Hp Hmz Hq Hdq.
  pose proof (Binary64.digits2_bounds p) as [Hlo Hhi].
  pose proof (Binary64.digits2_bounds (3 * p)) as [Hlo3 Hhi3].
  pose proof (Binary64.digits2_small (3 * p) 53 Hp) as Hj.
  set (k := Zpos (SpecFloat.digits2_pos p)) in *.
  set (j := Zpos (SpecFloat.digits2_pos (3 * p))) in *.
  assert (Hk : (0 < k)%Z) by (subst k; lia).
  assert (Hkj : (k <= j)%Z).
  { destruct (Z.leb_spec k j); [assumption|].
    assert (2 ^ j <= 2 ^ (k - 1))%Z by (apply Z.pow_le_mono_r; lia). lia. }
  unfold Binary64.mul, SpecFloat.SFmul, COOLDOWN_MULTIPLIER,
    Binary64.prec, Binary64.emax. cbn [xorb].
  rewrite (Binary64.round_exact _ q (51 + j - k));
    [f_equal; lia | lia | | exact Hdq | lia].
  rewrite Pos2Z.inj_mul, Hmz, Hq.
  change (Zpos 6755399441055744) with (3 * 2 ^ 51)%Z.
  replace (2 ^ (51 + j - k))%Z with (2 ^ (j - k) * 2 ^ 51)%Z
    by (rewrite <- Z.pow_add_r by lia; f_equal; lia).
  replace (2 ^ (53 - k))%Z with (2 ^ (53 - j) * 2 ^ (j - k))%Z
    by (rewrite <- Z.pow_add_r by lia; f_equal; lia).
  ring.
Qed.

(** While three times the duration is below [2 ^ 53] the double
    product is exact, and Python's [int(seconds * 1.5)] is the whole
    part of 1.5 times the duration. *)
Lemma escalated_exact (seconds : Z) :
  (0 <= seconds)%Z -> (3 * seconds < 2 ^ 53)%Z ->
  escalated seconds = Ok (next_cooldown seconds).
Proof.
  intros Hd H3. unfold next_cooldown.
  destruct seconds as [|p|p]; [reflexivity | | lia].
  destruct (Binary64.of_int_exact p ltac:(lia)) as (mz & Hf & Hmz & _).
  destruct (Binary64.of_int_exact (3 * p) ltac:(lia)) as (q & _ & Hq & Hdq).
  rewrite (Pos2Z.inj_mul 3 p) in Hq.
  unfold escalated. rewrite Hf. cbn [bind].
  rewrite (mul_three_halves_exact p mz q H3 Hmz Hq Hdq).
  pose proof (Binary64.digits2_small (3 * p) 53 H3) as Hj.
  set (j := Zpos (SpecFloat.digits2_pos (3 * p))) in *.
  cbn [Binary64.to_int SpecFloat.cond_Zopp].
  destruct (Z.ltb_spec (j - 54) 0); [|lia].
  f_equal. rewrite Hq.
  replace (2 ^ (- (j - 54)))%Z with (2 * 2 ^ (53 - j))%Z
    by (rewrite <- Z.pow_succ_r by lia; f_equal; lia).
  apply Z.quot_mul_cancel_r; [lia|].
  assert (0 < 2 ^ (53 - j))%Z by (apply Z.pow_pos_nonneg; lia). lia.
Qed.

(** The first 74 durations of a fresh scraper: each is what Python
    computes from the one before, and is longer. *)
Lemma first_cooldowns (n : nat) :
  (n < 73)%nat ->
  escalated (nth_cooldown n) = Ok (nth_cooldown (S n)) /\
  (nth_cooldown n < nth_cooldown (S n))%Z.
Proof.
  intros Hn.
  assert (H : forallb (fun n =>
                         match escalated (nth_cooldown n) with
                         | Ok d => (d =? nth_cooldown (S n))%Z
                         | Raised => false
                         end && (nth_cooldown n <? nth_cooldown (S n))%Z)
                (seq 0 73) = true) by (vm_compute; reflexivity).
  rewrite forallb_forall in H.
  specialize (H n ltac:(apply in_seq; lia)).
  apply andb_true_iff in H as [H1 H2].
  split; [|apply Z.ltb_lt; exact H2].
  destruct (escalated (nth_cooldown n)) as [d|]; [|discriminate].
  apply Z.eqb_eq in H1. rewrite H1. reflexivity.
Qed.

Lemma durations_app (a b : list event) :
  durations (a ++ b) = durations a ++ durations b.
Proof. apply flat_map_app. Qed.

(** The cooldowns so far lasted what the schedule says, and unless a
    shutdown was asked for the current duration is the next one of the
    schedule. *)
Definition on_schedule (s : scraper) : Prop :=
  durations (events s) = map nth_cooldown (seq 0 (cooldown_count s)) /\
  (shutdown_requested s = false ->
   current_cooldown s = nth_cooldown (cooldown_count s)).

Lemma process_property_on_schedule (s : scraper) (doc : item_row) (w : world) :
  shutdown_requested s = false ->
  on_schedule s ->
  on_schedule (snd (process_property Sequential s doc w)).
Proof.
  intros Hs [Hd Hc]. specialize (Hc Hs). unfold on_schedule.
  outcomes Sequential s doc w;
    rewrite ?durations_app; cbn [durations flat_map app]; rewrite ?app_nil_r;
    try (split; [exact Hd | intros _; exact Hc]).
  unfold cut_short. autorewrite with fields. rewrite Hs. cbn [orb].
  rewrite Nat.add_1_r, seq_S, map_app, Hd, Hc. cbn [map Nat.add].
  split; [reflexivity|].
  intros ->. reflexivity.
Qed.

Lemma run_loop_on_schedule (work : list (item_row * world)) :
  forall s, on_schedule s -> on_schedule (run_loop s work).
Proof.
  induction work as [|[doc w] rest IH]; intros s Hs; [exact Hs|].
  cbn [run_loop].
  destruct (shutdown_requested s || w_interrupt w) eqn:E.
  - destruct Hs as [Hd _]. split; [exact Hd | discriminate].
  - apply orb_false_iff in E as [E _].
    apply IH. apply process_property_on_schedule.
    + autorewrite with fields. exact E.
    + destruct Hs as [Hd Hc]. split; autorewrite with fields; assumption.
Qed.

(** *** Cooldowns of the concurrent engine *)

Lemma handle_cooldown_halves (signal : bool) (s : scraper) :
  _handle_cooldown Async signal s = (true, cooldown_ends (cooldown_begins s)).
Proof. reflexivity. Qed.

(** Run with no other coroutine in between, the coroutine does what the
    call does. *)
Lemma alone_is_process_property (s : scraper) (doc : item_row) (w : world) :
  alone (process_property_coroutine doc w) s = process_property Async s doc w.
Proof.
  unfold process_property_coroutine, process_property.
  cbn [alone fst snd].
  destruct (negb (truthy (row_detailed_url doc))); cbn [alone fst snd];
    [reflexivity|].
  destruct (find_success (row_id doc) (details_coll s)); cbn [alone fst snd];
    [reflexivity|].
  destruct (fetch_property_html w) as [html|]; cbn [alone fst snd written];
    [|reflexivity].
  destruct (is_empty html); cbn [alone fst snd written]; [reflexivity|].
  destruct (w_extract w) as [data|message];
    cbn [alone fst snd written fails]; [|reflexivity].
  destruct (_detect_bot_challenge lower html data); cbn [alone fst snd written].
  - match goal with
    | |- context [(?a <=? ?b)%nat] => destruct (a <=? b)%nat
    end; cbn [alone fst snd]; reflexivity.
  - destruct (closing_print data); cbn [alone fst snd written fails]; reflexivity.
Qed.

Lemma cooldowns_begin (k : nat) (s : scraper) :
  events (Nat.iter k cooldown_begins s)
  = events s ++ repeat (Cooldown (current_cooldown s) false) k /\
  cooldown_count (Nat.iter k cooldown_begins s) = (cooldown_count s + k)%nat /\
  current_cooldown (Nat.iter k cooldown_begins s) = current_cooldown s.
Proof.
  induction k as [|k (He & Hk & Hc)].
  - cbn. rewrite app_nil_r, Nat.add_0_r. repeat split.
  - change (Nat.iter (S k) cooldown_begins s)
      with (cooldown_begins (Nat.iter k cooldown_begins s)).
    cbn [cooldown_begins events cooldown_count current_cooldown].
    rewrite He, Hk, Hc, <- app_assoc.
    split; [|split; [lia | reflexivity]].
    f_equal. change [Cooldown (current_cooldown s) false]
      with (repeat (Cooldown (current_cooldown s) false) 1).
    rewrite <- repeat_app, Nat.add_1_r. reflexivity.
Qed.

Lemma cooldowns_end (k : nat) (s : scraper) :
  events (Nat.iter k cooldown_ends s) = events s /\
  cooldown_count (Nat.iter k cooldown_ends s) = cooldown_count s.
Proof.
  induction k as [|k (He & Hk)]; [split; reflexivity|].
  change (Nat.iter (S k) cooldown_ends s)
    with (cooldown_ends (Nat.iter k cooldown_ends s)).
  cbn [cooldown_ends events cooldown_count].
  rewrite He, Hk. split; reflexivity.
Qed.

End Engine.

(** *** Worlds to run the engine in *)

(** The row of the items collection for listing [id]. *)
Definition listing_row (id : string) : item_row := on_insert Ldjson (doc_n id 1 10).

(** A page that is an anti-bot interstitial: nothing extracted. *)
Definition blocked_world : world :=
  {| w_interrupt := false;
     w_fetch := Response 200 (lit "<html><title>Access Denied</title></html>");
     w_extract := Extracted [];
     w_now := 50;
     w_signal := false;
     w_print_error := [] |}.

(** A server that answers 503. *)
Definition down_world : world :=
  {| w_interrupt := false;
     w_fetch := Response 503 (lit "Service Unavailable");
     w_extract := Extracted [];
     w_now := 60;
     w_signal := false;
     w_print_error := [] |}.

(** The record of a detail page that was scraped. *)
Definition done_row (id : string) : detail_row :=
  {| d_id := lit id;
     d_url := PStr (detail_url id);
     d_scraped_at := 40;
     extraction_success := true;
     bot_challenge := None;
     extracted_data := Some [(lit "price", PInt 1500000)];
     error := None |}.

Definition five_blocked : list (item_row * world) :=
  [(listing_row "1", blocked_world); (listing_row "2", blocked_world);
   (listing_row "3", blocked_world); (listing_row "4", blocked_world);
   (listing_row "5", blocked_world)].

Lemma blocked_is_challenge (id : string) :
  truthy (row_detailed_url (listing_row id)) = true ->
  classified ascii_lower true (listing_row id) blocked_world.
Proof.
  intros H. split; [exact H|]. split; [reflexivity|].
  exists (lit "<html><title>Access Denied</title></html>"), [].
  split; [reflexivity|]. split; [discriminate|].
  split; [reflexivity | vm_compute; reflexivity].
Defined.


Lemma transport_failure_is_recorded_witness :
  fst (process_property ascii_lower Sequential (fresh [] []) (listing_row "1")
         down_world) = false /\
  failed (stat (snd (process_property ascii_lower Sequential (fresh [] [])
                       (listing_row "1") down_world))) = 1%nat /\
  consecutive_challenges
    (snd (process_property ascii_lower Sequential (fresh [] [])
            (listing_row "1") down_world)) = 0%nat /\
  events (snd (process_property ascii_lower Sequential (fresh [] [])
                 (listing_row "1") down_world))
  = [Get (PStr (detail_url "1"))].
Proof.
  destruct (transport_failure_is_recorded ascii_lower Sequential (fresh [] [])
              (listing_row "1") down_world) as (Hp & _).
  - vm_compute; reflexivity.
  - reflexivity.
  - right. exists 503%Z, (lit "Service Unavailable").
    split; [reflexivity | right; reflexivity].
  - rewrite Hp. repeat split.
Defined.

Lemma successful_record_is_skipped_witness :
  process_property ascii_lower Sequential (fresh [done_row "1"] [])
    (listing_row "1") blocked_world
  = (true, with_stat count_skipped (fresh [done_row "1"] [])).
Proof.
  destruct (successful_record_is_skipped ascii_lower Sequential
              (fresh [done_row "1"] []) (listing_row "1")) as (Hskip & _).
  destruct (Hskip blocked_world (done_row "1")) as (_ & _ & _ & Hp);
    [vm_compute; reflexivity|].
  apply Hp. vm_compute; reflexivity.
Defined.

(** A page whose extractor gave the price as text. *)
Definition text_price_world : world :=
  {| w_interrupt := false;
     w_fetch := Response 200 (lit "<html><body><h1>Villa</h1></body></html>");
     w_extract := Extracted [(lit "price", PStr (lit "1,500,000"));
                             (lit "bedrooms", PInt 4);
                             (lit "headline", PStr (lit "Villa"));
                             (lit "locality", PStr (lit "Dubai Marina"))];
     w_now := 70;
     w_signal := false;
     w_print_error := lit "Unknown format code 'f' for object of type 'str'" |}.

Lemma print_failure_is_marked_scraped_witness :
  exists r',
    find_row (lit "1")
      (properties_coll
         (snd (process_property ascii_lower Sequential
                 (fresh [] [listing_row "1"]) (listing_row "1") text_price_world)))
    = Some r' /\
    detail_scraped r' = true /\
    find_success (lit "1")
      (details_coll
         (snd (process_property ascii_lower Sequential
                 (fresh [] [listing_row "1"]) (listing_row "1") text_price_world)))
    = None.
Proof.
  destruct (print_failure_is_marked_scraped ascii_lower Sequential
              (fresh [] [listing_row "1"]) (listing_row "1") text_price_world
              (lit "<html><body><h1>Villa</h1></body></html>")
              [(lit "price", PStr (lit "1,500,000"));
               (lit "bedrooms", PInt 4);
               (lit "headline", PStr (lit "Villa"));
               (lit "locality", PStr (lit "Dubai Marina"))])
    as (_ & Hnone & _ & _ & _ & Hmark).
  - vm_compute; reflexivity.
  - reflexivity.
  - reflexivity.
  - discriminate.
  - reflexivity.
  - vm_compute; reflexivity.
  - vm_compute; reflexivity.
  - destruct (Hmark (listing_row "1")) as (r' & Hf & Hm & _);
      [vm_compute; reflexivity|].
    exists r'. split; [exact Hf|]. split; [exact Hm | exact Hnone].
Defined.

Lemma interrupted_cooldown_ends_the_run_witness :
  events
    (run_loop ascii_lower
       (snd (process_property ascii_lower Sequential
               (with_challenges 2 None (fresh [] [])) (listing_row "1")
               {| w_interrupt := false;
                  w_fetch := Response 200 (lit "<html><title>Access Denied</title></html>");
                  w_extract := Extracted [];
                  w_now := 50;
                  w_signal := true;
                  w_print_error := [] |}))
       [(listing_row "2", blocked_world)])
  = [Get (PStr (detail_url "1")); Cooldown 900 true].
Proof.
  destruct (interrupted_cooldown_ends_the_run ascii_lower
              (with_challenges 2 None (fresh [] [])) (listing_row "1")
              {| w_interrupt := false;
                 w_fetch := Response 200 (lit "<html><title>Access Denied</title></html>");
                 w_extract := Extracted [];
                 w_now := 50;
                 w_signal := true;
                 w_print_error := [] |}
              (lit "<html><title>Access Denied</title></html>") [])
    as (_ & Hev & _ & _ & _ & _ & _ & Hrest).
  - vm_compute; reflexivity.
  - reflexivity.
  - reflexivity.
  - discriminate.
  - reflexivity.
  - vm_compute; reflexivity.
  - cbn. lia.
  - reflexivity.
  - destruct (Hrest [(listing_row "2", blocked_world)]) as (He & _).
    rewrite He, Hev. reflexivity.
Defined.

Lemma successful_records_are_permanent_witness :
  find_success (lit "1")
    (details_coll
       (feed ascii_lower Sequential (fresh [done_row "1"] [])
          [(listing_row "1", down_world); (listing_row "2", blocked_world)]))
  = Some (done_row "1").
Proof.
  apply successful_records_are_permanent. vm_compute. reflexivity.
Defined.

Lemma challenge_counter_stays_below_threshold_witness :
  Forall (fun s' => (consecutive_challenges s' < 3)%nat)
    (feed_trace ascii_lower Sequential (fresh [] [])
       ((listing_row "0", text_price_world) :: five_blocked)).
Proof.
  apply (challenge_counter_stays_below_threshold ascii_lower).
  - cbn. lia.
  - reflexivity.
  - repeat (apply Forall_cons; [reflexivity|]). apply Forall_nil.
Defined.

(** The record of a detail page that was answered with a challenge. *)
Definition challenged_row (id : string) : detail_row :=
  {| d_id := lit id;
     d_url := PStr (detail_url id);
     d_scraped_at := 40;
     extraction_success := false;
     bot_challenge := Some true;
     extracted_data := Some [];
     error := None |}.

(** A page that extracts well. *)
Definition villa_world : world :=
  {| w_interrupt := false;
     w_fetch := Response 200 (lit "<html><body><h1>Villa</h1></body></html>");
     w_extract := Extracted [(lit "price", PInt 1500000);
                             (lit "bedrooms", PInt 4);
                             (lit "headline", PStr (lit "Villa"));
                             (lit "locality", PStr (lit "Dubai Marina"))];
     w_now := 80;
     w_signal := false;
     w_print_error := [] |}.

Lemma success_keeps_earlier_flags_witness :
  exists row',
    find_success (lit "1")
      (details_coll
         (snd (process_property ascii_lower Sequential
                 (fresh [challenged_row "1"] [listing_row "1"])
                 (listing_row "1") villa_world)))
    = Some row' /\
    bot_challenge row' = Some true.
Proof.
  destruct (success_keeps_earlier_flags ascii_lower Sequential
              (fresh [challenged_row "1"] [listing_row "1"]) (listing_row "1")
              villa_world
              (lit "<html><body><h1>Villa</h1></body></html>")
              [(lit "price", PInt 1500000);
               (lit "bedrooms", PInt 4);
               (lit "headline", PStr (lit "Villa"));
               (lit "locality", PStr (lit "Dubai Marina"))])
    as (_ & row' & Hfound & _ & _ & Hflags).
  - vm_compute; reflexivity.
  - reflexivity.
  - reflexivity.
  - discriminate.
  - reflexivity.
  - vm_compute; reflexivity.
  - vm_compute; reflexivity.
  - exists row'. split; [exact Hfound|].
    assert (Hd : find_detail (lit "1")
                   (details_coll (fresh [challenged_row "1"] [listing_row "1"]))
                 = Some (challenged_row "1")) by (vm_compute; reflexivity).
    change (row_id (listing_row "1")) with (lit "1") in Hflags.
    rewrite Hd in Hflags. destruct Hflags as [-> _]. reflexivity.
Defined.

(** *** Cooldowns, run *)

(** The coroutines [0] to [n - 1], each resumed in turn, [rounds] times
    over. *)
Definition round_robin (n rounds : nat) : list nat := concat (repeat (seq 0 n) rounds).


(** Twelve listings that wait for their details. *)
Definition twelve_listings : list item_row :=
  map listing_row ["1"; "2"; "3"; "4"; "5"; "6"; "7"; "8"; "9"; "10"; "11"; "12"]%string.



(** Where the schedule leaves the range of exact products: the 74th
    expiry is the first at which Python's rounded product is not the
    whole part of 1.5 times the duration, and a duration of [2 ^ 1024]
    seconds or more cannot be multiplied at all. *)
Lemma later_cooldowns_are_rounded :
  escalated (nth_cooldown 73) = Ok 9656934167615360%Z /\
  next_cooldown (nth_cooldown 73) = 9656934167615361%Z /\
  escalated (2 ^ 1024) = Raised.
Proof. vm_compute. repeat split. Qed.

End Detail.

(** ** The page extractor: cleaning and the id of a page

    [clean_data] and [extract_property_id] of
    [z_bayut_complete_extractor.py], which [process_property] reaches
    through [extract_all(html, f"property_{property_id}.html")]. *)

Module Extractor.

Import Identity Detector.

(** Induction on a value and on the values inside it. *)
Section Nested.

Variable P : pyval -> Prop.
Hypothesis none_case : P PNone.
Hypothesis bool_case : forall b, P (PBool b).
Hypothesis int_case : forall n, P (PInt n).
Hypothesis float_case : forall q, P (PFloat q).
Hypothesis str_case : forall s, P (PStr s).
Hypothesis list_case : forall l, Forall P l -> P (PList l).
Hypothesis dict_case : forall d, Forall (fun kv => P (snd kv)) d -> P (PDict d).

Fixpoint pyval_nested_ind (v : pyval) : P v :=
  match v with
  | PNone => none_case
  | PBool b => bool_case b
  | PInt n => int_case n
  | PFloat q => float_case q
  | PStr s => str_case s
  | PList l =>
      list_case l
        ((fix each (l : list pyval) : Forall P l :=
            match l with
            | [] => Forall_nil P
            | x :: rest => Forall_cons x (pyval_nested_ind x) (each rest)
            end) l)
  | PDict d =>
      dict_case d
        ((fix each (d : list (str * pyval)) : Forall (fun kv => P (snd kv)) d :=
            match d with
            | [] => Forall_nil _
            | kv :: rest => Forall_cons kv (pyval_nested_ind (snd kv)) (each rest)
            end) d)
  end.

End Nested.

(** [v is not None and v != ''] *)
Definition kept (v : pyval) : bool :=
  match v with
  | PNone => false
  | PStr [] => false
  | _ => true
  end.

(** [clean_data]: a dict and a list lose the values that are [None] or
    [''], and what they keep is cleaned in turn. *)
Fixpoint clean_data (data : pyval) : pyval :=
  match data with
  | PDict d =>
      PDict (flat_map (fun kv => if kept (snd kv)
                                 then [(fst kv, clean_data (snd kv))]
                                 else []) d)
  | PList l =>
      PList (flat_map (fun item => if kept item then [clean_data item] else []) l)
  | _ => data
  end.

(** No dict value and no list item, at any depth, is [None] or ['']. *)
Fixpoint spotless (v : pyval) : bool :=
  match v with
  | PDict d => forallb (fun kv => kept (snd kv) && spotless (snd kv)) d
  | PList l => forallb (fun item => kept item && spotless item) l
  | _ => true
  end.

(** The entries of a dict. *)
Definition entries (v : pyval) : list (str * pyval) :=
  match v with
  | PDict d => d
  | _ => []
  end.

Lemma kept_clean (v : pyval) : kept (clean_data v) = kept v.
Proof. destruct v as [| | | |s|l|d]; reflexivity. Qed.

Lemma clean_data_spotless (v : pyval) : spotless (clean_data v) = true.
Proof.
  induction v as [| | | | |l IH|d IH] using pyval_nested_ind; try reflexivity.
  - cbn [clean_data spotless].
    induction IH as [|x rest Hx _ IHrest]; [reflexivity|].
    cbn [flat_map]. destruct (kept x) eqn:Hk; [|exact IHrest].
    cbn [app forallb]. rewrite kept_clean, Hk, Hx. exact IHrest.
  - cbn [clean_data spotless].
    induction IH as [|[k x] rest Hx _ IHrest]; [reflexivity|].
    cbn [flat_map snd fst] in *. destruct (kept x) eqn:Hk; [|exact IHrest].
    cbn [app forallb snd]. rewrite kept_clean, Hk, Hx. exact IHrest.
Qed.

Lemma clean_data_fixes_spotless (v : pyval) :
  spotless v = true -> clean_data v = v.
Proof.
  induction v as [| | | | |l IH|d IH] using pyval_nested_ind; try reflexivity.
  - cbn [clean_data spotless]. intros H. f_equal.
    induction IH as [|x rest Hx _ IHrest]; [reflexivity|].
    cbn [forallb] in H. apply andb_true_iff in H as [H1 H2].
    apply andb_true_iff in H1 as [Hk Hs].
    cbn [flat_map]. rewrite Hk, (Hx Hs), (IHrest H2). reflexivity.
  - cbn [clean_data spotless]. intros H. f_equal.
    induction IH as [|[k x] rest Hx _ IHrest]; [reflexivity|].
    cbn [forallb snd] in H. apply andb_true_iff in H as [H1 H2].
    apply andb_true_iff in H1 as [Hk Hs].
    cbn [flat_map snd fst] in *. rewrite Hk, (Hx Hs), (IHrest H2). reflexivity.
Qed.

(** X15.  What [clean_data] returns holds no [None] and no empty string
    as a dict value or a list item, at any depth; a value that holds
    none already is returned as it is, so cleaning twice is cleaning
    once; and cleaning never turns a value into [None] or [''], nor
    either of them into something else. *)
Theorem clean_data_removes_every_blank (v : pyval) :
  spotless (clean_data v) = true /\
  (spotless v = true -> clean_data v = v) /\
  clean_data (clean_data v) = clean_data v /\
  kept (clean_data v) = kept v.
Proof.
  split; [apply clean_data_spotless|].
  split; [apply clean_data_fixes_spotless|].
  split; [|apply kept_clean].
  apply clean_data_fixes_spotless, clean_data_spotless.
Qed.

(** *** Cleaning and the detector *)

(** The dict that [clean_data] makes of the dict [d]. *)
Definition cleaned (d : list (str * pyval)) : list (str * pyval) :=
  entries (clean_data (PDict d)).

Lemma lookup_absent (k : str) (d : list (str * pyval)) :
  lookup k d = None <-> ~ In k (map fst d).
Proof.
  induction d as [|[k' v] rest IH]; cbn [lookup map fst In]; [tauto|].
  destruct (str_eqb k k') eqn:E.
  - apply str_eqb_eq in E. split; [discriminate | intros H; exfalso; apply H; now left].
  - apply str_eqb_neq in E. rewrite IH. split; [intros H [H1 | H1]; congruence | tauto].
Qed.

Lemma cleaned_cons (k : str) (v : pyval) (rest : list (str * pyval)) :
  cleaned ((k, v) :: rest) =
  if kept v then (k, clean_data v) :: cleaned rest else cleaned rest.
Proof. unfold cleaned. cbn. destruct (kept v); reflexivity. Qed.

Lemma lookup_cleaned_absent (k : str) (d : list (str * pyval)) :
  lookup k d = None -> lookup k (cleaned d) = None.
Proof.
  induction d as [|[k' v] rest IH]; [reflexivity|].
  rewrite cleaned_cons. cbn [lookup].
  destruct (str_eqb k k') eqn:E; [discriminate|].
  intros H. destruct (kept v); [cbn [lookup]; rewrite E|]; exact (IH H).
Qed.

Lemma lookup_cleaned (k : str) (d : list (str * pyval)) :
  NoDup (map fst d) ->
  lookup k (cleaned d) =
  match lookup k d with
  | Some v => if kept v then Some (clean_data v) else None
  | None => None
  end.
Proof.
  induction d as [|[k' v] rest IH]; intros Hnd; [reflexivity|].
  cbn [map fst] in Hnd. inversion Hnd as [|? ? Hnotin Hrest]; subst.
  rewrite cleaned_cons. cbn [lookup].
  destruct (str_eqb k k') eqn:E.
  - apply str_eqb_eq in E. subst k'.
    destruct (kept v); [cbn [lookup]; rewrite str_eqb_refl; reflexivity|].
    apply lookup_cleaned_absent, lookup_absent. exact Hnotin.
  - destruct (kept v); [cbn [lookup]; rewrite E|]; exact (IH Hrest).
Qed.

Lemma truthy_clean (v : pyval) : truthy (clean_data v) = true -> truthy v = true.
Proof.
  destruct v as [| | | | |l|d]; cbn [clean_data]; try (intros H; exact H).
  - destruct l; [discriminate | reflexivity].
  - destruct d; [discriminate | reflexivity].
Qed.

Lemma lacks_cleaned (d : list (str * pyval)) (field : str) :
  NoDup (map fst d) -> lacks d field = true -> lacks (cleaned d) field = true.
Proof.
  intros Hnd. unfold lacks. rewrite (lookup_cleaned field d Hnd).
  destruct (lookup field d) as [v|]; [|reflexivity].
  destruct (kept v); [|reflexivity].
  intros H. destruct (truthy (clean_data v)) eqn:E; [|reflexivity].
  rewrite (truthy_clean v E) in H. discriminate H.
Qed.

Lemma filter_length_le {A} (p q : A -> bool) (l : list A) :
  (forall x, p x = true -> q x = true) ->
  (length (filter p l) <= length (filter q l))%nat.
Proof.
  intros Himp. induction l as [|x rest IH]; cbn [filter]; [lia|].
  destruct (p x) eqn:Hp.
  - rewrite (Himp x Hp). cbn [length]. lia.
  - destruct (q x); cbn [length]; lia.
Qed.

(** X16.  Cleaning never hides a challenge: the extractor hands the
    detector cleaned data, and whenever the detector would answer
    Challenge on a dict it also answers Challenge on the cleaned dict,
    for the same body.  (The converse fails: cleaning can empty a list
    or a dict and so add a missing field.) *)
Theorem cleaning_never_hides_a_challenge (lower : str -> str) (html : str)
    (d : list (str * pyval)) :
  NoDup (map fst d) ->
  _detect_bot_challenge lower html d = true ->
  _detect_bot_challenge lower html (cleaned d) = true.
Proof.
  intros Hnd. unfold _detect_bot_challenge. rewrite !missing_lacks.
  pose proof (filter_length_le (lacks d) (lacks (cleaned d)) essential_fields
                (fun field => lacks_cleaned d field Hnd)) as Hle.
  destruct (MISSING_LIMIT <=?
            length (filter (lacks (cleaned d)) essential_fields))%nat eqn:E';
    [intros _; reflexivity|].
  apply Nat.leb_gt in E'.
  destruct (MISSING_LIMIT <=? length (filter (lacks d) essential_fields))%nat eqn:E.
  - apply Nat.leb_le in E. lia.
  - intros H. exact H.
Qed.

(** What the extractor found on an interstitial page, before cleaning. *)
Definition blank_fields : list (str * pyval) :=
  [(lit "price", PNone); (lit "bedrooms", PStr []);
   (lit "headline", PStr []); (lit "locality", PStr (lit "Dubai"));
   (lit "images", PList [PNone])].

Lemma cleaning_never_hides_a_challenge_witness :
  _detect_bot_challenge ascii_lower [] (cleaned blank_fields) = true /\
  cleaned blank_fields = [(lit "locality", PStr (lit "Dubai")); (lit "images", PList [])].
Proof.
  split; [|vm_compute; reflexivity].
  apply cleaning_never_hides_a_challenge.
  - repeat (constructor; [vm_compute; intuition discriminate|]). constructor.
  - vm_compute. reflexivity.
Defined.

(** *** The id of a page *)

Section Ids.

(** Unicode category Nd and Unicode white space beyond ASCII, which
    [\d] and [\s] of a [str] pattern consult. *)
Variable unicode_Nd : N -> bool.
Variable unicode_space : N -> bool.

(** [\s] *)
Definition is_space (c : N) : bool :=
  (if c <? 128
   then ((9 <=? c) && (c <=? 13)) || ((28 <=? c) && (c <=? 32))
   else unicode_space c)%N.

Definition MIN_ID_DIGITS : nat := 7.

(** [(\d{7,})] anchored at the front of [s]: the longest run of digits
    there, when it has seven digits or more. *)
Definition long_run_here (s : str) : option str :=
  let (ds, _) := span_digits unicode_Nd s in
  if (MIN_ID_DIGITS <=? length ds)%nat then Some ds else None.

(** [re.search(r'(\d{7,})', s)], group 1 of the leftmost match. *)
Fixpoint search_long_run (s : str) : option str :=
  match long_run_here s with
  | Some ds => Some ds
  | None =>
      match s with
      | [] => None
      | _ :: s' => search_long_run s'
      end
  end.

Definition HTML_PREFIX : str := lit "property/details-".

(** [property/details-(\d+)\.html] anchored at the front of [s]. *)
Definition details_here (s : str) : option str :=
  match strip HTML_PREFIX s with
  | None => None
  | Some s1 =>
      let (ds, rest) := span_digits unicode_Nd s1 in
      if is_empty ds then None
      else if starts_with DETAIL_SUFFIX rest then Some ds else None
  end.

Fixpoint search_details (s : str) : option str :=
  match details_here s with
  | Some ds => Some ds
  | None =>
      match s with
      | [] => None
      | _ :: s' => search_details s'
      end
  end.

(** The key [propertyId] in its double quotes, and the colon. *)
Definition ID_KEY : str := 34%N :: lit "propertyId" ++ [34%N; 58%N].

Fixpoint skip_space (s : str) : str :=
  match s with
  | c :: s' => if is_space c then skip_space s' else s
  | [] => []
  end.

(** The third pattern anchored at the front of [s]: the key, [\s*], an
    optional double quote, [(\d{7,})] and an optional double quote.  The
    white space and the quote are taken greedily, and giving back what
    they took never helps: the character that would then face [\d] is a
    space or a quote. *)
Definition key_here (s : str) : option str :=
  match strip ID_KEY s with
  | None => None
  | Some s1 =>
      match skip_space s1 with
      | 34%N :: s2 => long_run_here s2
      | s2 => long_run_here s2
      end
  end.

Fixpoint search_key (s : str) : option str :=
  match key_here s with
  | Some ds => Some ds
  | None =>
      match s with
      | [] => None
      | _ :: s' => search_key s'
      end
  end.

(** [extract_property_id] *)
Definition extract_property_id (html_content : str) (filename : option str)
  : option str :=
  match match filename with
        | Some f => if is_empty f then None else search_long_run f
        | None => None
        end with
  | Some id => Some id
  | None =>
      match search_details html_content with
      | Some id => Some id
      | None => search_key html_content
      end
  end.

(** [f"property_{property_id}.html"], the file name [process_property]
    passes. *)
Definition detail_filename (property_id : str) : str :=
  lit "property_" ++ property_id ++ lit ".html".

(** *** What the id of a page can be *)

Lemma long_run_here_sound (s ds : str) :
  long_run_here s = Some ds ->
  all_decimal unicode_Nd ds /\ (MIN_ID_DIGITS <= length ds)%nat.
Proof.
  unfold long_run_here.
  destruct (span_digits unicode_Nd s) as [run rest] eqn:Hs.
  apply span_digits_split in Hs as [_ Hall].
  destruct (MIN_ID_DIGITS <=? length run)%nat eqn:Hl; [|discriminate].
  intros [= <-]. split; [exact Hall | apply Nat.leb_le; exact Hl].
Qed.

Lemma search_long_run_eq (s : str) :
  search_long_run s =
  match long_run_here s with
  | Some ds => Some ds
  | None => match s with [] => None | _ :: s' => search_long_run s' end
  end.
Proof. destruct s; reflexivity. Qed.

Lemma search_long_run_sound (s ds : str) :
  search_long_run s = Some ds ->
  all_decimal unicode_Nd ds /\ (MIN_ID_DIGITS <= length ds)%nat.
Proof.
  induction s as [|c s IH]; rewrite search_long_run_eq;
    destruct (long_run_here _) eqn:Hm; try discriminate;
    try (intros [= <-]; exact (long_run_here_sound _ _ Hm)).
  exact IH.
Qed.

Lemma details_here_sound (s ds : str) :
  details_here s = Some ds -> all_decimal unicode_Nd ds /\ ds <> [].
Proof.
  unfold details_here.
  destruct (strip HTML_PREFIX s) as [s1|]; [|discriminate].
  destruct (span_digits unicode_Nd s1) as [run rest] eqn:Hs.
  apply span_digits_split in Hs as [_ Hall].
  destruct run as [|d run]; cbn [is_empty]; [discriminate|].
  destruct (starts_with DETAIL_SUFFIX rest); [|discriminate].
  intros [= <-]. split; [exact Hall | discriminate].
Qed.

Lemma search_details_sound (s ds : str) :
  search_details s = Some ds -> all_decimal unicode_Nd ds /\ ds <> [].
Proof.
  induction s as [|c s IH]; cbn [search_details];
    destruct (details_here _) eqn:Hm; try discriminate;
    try (intros [= <-]; exact (details_here_sound _ _ Hm)).
  exact IH.
Qed.

Lemma key_here_sound (s ds : str) :
  key_here s = Some ds ->
  all_decimal unicode_Nd ds /\ (MIN_ID_DIGITS <= length ds)%nat.
Proof.
  unfold key_here.
  destruct (strip ID_KEY s) as [s1|]; [|discriminate].
  destruct (skip_space s1) as [|c s2]; [apply long_run_here_sound|].
  destruct c as [|p]; [apply long_run_here_sound|].
  do 6 (try (destruct p as [p|p|]; try apply long_run_here_sound)).
Qed.

Lemma search_key_sound (s ds : str) :
  search_key s = Some ds ->
  all_decimal unicode_Nd ds /\ (MIN_ID_DIGITS <= length ds)%nat.
Proof.
  induction s as [|c s IH]; cbn [search_key];
    destruct (key_here _) eqn:Hm; try discriminate;
    try (intros [= <-]; exact (key_here_sound _ _ Hm)).
  exact IH.
Qed.

Lemma extract_property_id_digits (html_content : str) (filename : option str)
    (id : str) :
  extract_property_id html_content filename = Some id ->
  all_decimal unicode_Nd id /\ id <> [].
Proof.
  assert (Hlong : forall ds, all_decimal unicode_Nd ds /\
                             (MIN_ID_DIGITS <= length ds)%nat ->
                             all_decimal unicode_Nd ds /\ ds <> []).
  { intros ds [Ha Hl]. split; [exact Ha|].
    intros ->. cbn in Hl. unfold MIN_ID_DIGITS in Hl. lia. }
  unfold extract_property_id.
  destruct (match filename with
            | Some f => if is_empty f then None else search_long_run f
            | None => None
            end) as [ds|] eqn:Hf.
  - intros [= <-]. apply Hlong.
    destruct filename as [f|]; [|discriminate].
    destruct (is_empty f); [discriminate|].
    exact (search_long_run_sound _ _ Hf).
  - destruct (search_details html_content) as [ds|] eqn:Hd.
    + intros [= <-]. exact (search_details_sound _ _ Hd).
    + intros H. apply Hlong. exact (search_key_sound _ _ H).
Qed.

Lemma search_long_run_skip (c : N) (s : str) :
  is_decimal unicode_Nd c = false ->
  search_long_run (c :: s) = search_long_run s.
Proof.
  intros Hc. rewrite search_long_run_eq. unfold long_run_here.
  cbn [span_digits]. rewrite Hc. reflexivity.
Qed.

Lemma filename_round_trip (id : str) :
  all_decimal unicode_Nd id -> (MIN_ID_DIGITS <= length id)%nat ->
  search_long_run (detail_filename id) = Some id.
Proof.
  intros Hall Hlen. unfold detail_filename.
  change (lit "property_")
    with [112; 114; 111; 112; 101; 114; 116; 121; 95]%N.
  cbn [app]. rewrite !search_long_run_skip by reflexivity.
  rewrite search_long_run_eq. unfold long_run_here.
  change (lit ".html") with (46%N :: lit "html").
  rewrite span_digits_stop by (assumption || reflexivity).
  apply Nat.leb_le in Hlen. rewrite Hlen. reflexivity.
Qed.

(** X17.  [process_property] names the page [property_<id>.html], and
    the extractor reads the id back from that name when the id is a run
    of seven digits or more.  Whatever it returns is a non-empty run of
    digits; so for a listing whose id is a [hash_] id, the
    [property_id] it reports is never the id of the listing. *)
Theorem extractor_reads_long_ids_back :
  (forall html_content id,
      all_decimal unicode_Nd id -> (MIN_ID_DIGITS <= length id)%nat ->
      extract_property_id html_content (Some (detail_filename id)) = Some id) /\
  (forall html_content filename id,
      extract_property_id html_content filename = Some id ->
      all_decimal unicode_Nd id /\ id <> []) /\
  (forall dumps md5_hexdigest html_content url main,
      extract_property_id html_content
        (Some (detail_filename (hash_id dumps md5_hexdigest url main)))
      <> Some (hash_id dumps md5_hexdigest url main)).
Proof.
  split; [|split].
  - intros html_content id Hall Hlen. unfold extract_property_id.
    assert (Hne : is_empty (detail_filename id) = false) by reflexivity.
    rewrite Hne, (filename_round_trip id Hall Hlen). reflexivity.
  - exact extract_property_id_digits.
  - intros dumps md5_hexdigest html_content url main H.
    apply extract_property_id_digits in H as [Hall _].
    unfold hash_id, all_decimal in Hall. discriminate Hall.
Qed.

End Ids.

End Extractor.

(** ** Reading the LD+JSON of a results page

    [load_json_lenient] and [extract_single_ldjson] of
    [bayut_ldjson_to_mongo.py], [bayut_incremental_scraper.py] and
    [bayut_csv_scraper.py].  A page is given by the stripped texts of its
    [application/ld+json] script tags, in document order. *)

Module LdJson.

Import Identity Extractor.

Definition COMMA : N := 44.
Definition BACKSLASH : N := 92.
Definition CLOSE_BRACE : N := 125.
Definition CLOSE_BRACKET : N := 93.

Section Parse.

(** Unicode white space beyond ASCII, and [json.loads]. *)
Variable unicode_space : N -> bool.
Variable loads : str -> exc pyval.

(** [\s*[}\]]] anchored at the front of [s]. *)
Fixpoint closes (s : str) : bool :=
  match s with
  | [] => false
  | c :: s' =>
      if (c =? CLOSE_BRACE)%N || (c =? CLOSE_BRACKET)%N then true
      else if is_space unicode_space c then closes s'
      else false
  end.

(** [re.sub(r",(\s*[}\]])", r"\1", txt)].  A match starts at a comma and
    its group holds none, so copying the group and scanning on after it
    gives what scanning the group gives. *)
Fixpoint drop_trailing_commas (txt : str) : str :=
  match txt with
  | [] => []
  | c :: rest =>
      if (c =? COMMA)%N && closes rest then drop_trailing_commas rest
      else c :: drop_trailing_commas rest
  end.

(** [load_json_lenient] of the ldjson and incremental harvesters. *)
Definition load_json_lenient (txt : str) : exc pyval :=
  match loads txt with
  | Ok data => Ok data
  | Raised => loads (drop_trailing_commas txt)
  end.

(** [s*] of the pattern of [bayut_csv_scraper.py], whose backslashes are
    doubled in a raw string: there [\\s*] is a backslash and any number
    of the letter s. *)
Fixpoint skip_s (s : str) : str :=
  match s with
  | 115%N :: s' => skip_s s'
  | _ => s
  end.

(** [,(\\s*[}\\]])] anchored at the front of [s]: a comma, a backslash,
    letters s, a closing brace or a backslash, and a closing bracket.
    The result is what follows the match. *)
Definition csv_match_here (s : str) : option str :=
  match s with
  | c0 :: c1 :: s1 =>
      if (c0 =? COMMA)%N && (c1 =? BACKSLASH)%N then
        match skip_s s1 with
        | c2 :: c3 :: rest =>
            if ((c2 =? CLOSE_BRACE)%N || (c2 =? BACKSLASH)%N) &&
               (c3 =? CLOSE_BRACKET)%N
            then Some rest else None
        | _ => None
        end
      else None
  | _ => None
  end.

(** [re.sub(r",(\\s*[}\\]])", r"\\1", txt)]: each match is replaced by
    a backslash and the digit 1, and the scan goes on after the match;
    [fuel] bounds the number of steps. *)
Fixpoint csv_sub (fuel : nat) (txt : str) : str :=
  match fuel with
  | O => txt
  | S fuel' =>
      match txt with
      | [] => []
      | c :: rest =>
          match csv_match_here txt with
          | Some after => BACKSLASH :: 49%N :: csv_sub fuel' after
          | None => c :: csv_sub fuel' rest
          end
      end
  end.

(** [load_json_lenient] of [bayut_csv_scraper.py]. *)
Definition csv_load_json_lenient (txt : str) : exc pyval :=
  match loads txt with
  | Ok data => Ok data
  | Raised => loads (csv_sub (length txt) txt)
  end.

(** [x == "ItemList"] *)
Definition is_item_list (x : pyval) : bool :=
  match x with
  | PStr s => str_eqb s (lit "ItemList")
  | _ => false
  end.

(** [dtype == "ItemList" or (isinstance(dtype, list) and "ItemList" in dtype)] *)
Definition item_list_type (d : list (str * pyval)) : bool :=
  match get (lit "@type") d with
  | PList l => existsb is_item_list l
  | dtype => is_item_list dtype
  end.

(** The first test of the ldjson and incremental harvesters: a dict
    whose [itemListElement] is a list that starts with a non-empty dict
    holding [mainEntity].  A truthy [itemListElement] without a length
    raises, and the block is passed over. *)
Definition holds_listings (data : pyval) : bool :=
  match data with
  | PDict d =>
      has_key (lit "itemListElement") d &&
      match get_default (lit "itemListElement") (PList []) d with
      | PList (PDict first_item :: _) =>
          negb (is_empty first_item) && has_key (lit "mainEntity") first_item
      | _ => false
      end
  | _ => false
  end.

(** Their second test. *)
Definition typed_item_list (data : pyval) : bool :=
  match data with
  | PDict d => item_list_type d && has_key (lit "itemListElement") d
  | _ => false
  end.

(** The first test of [bayut_csv_scraper.py]: the type is asked for
    first, and [mainEntity] is looked for in a first item of any kind. *)
Definition csv_holds_listings (data : pyval) : bool :=
  match data with
  | PDict d =>
      item_list_type d && has_key (lit "itemListElement") d &&
      match get_default (lit "itemListElement") (PList []) d with
      | PList (first_item :: _) =>
          truthy first_item &&
          match first_item with
          | PDict fi => has_key (lit "mainEntity") fi
          | PStr s => contains (lit "mainEntity") s
          | PList l =>
              existsb (fun x => match x with
                                | PStr s => str_eqb s (lit "mainEntity")
                                | _ => false
                                end) l
          | _ => false
          end
      | _ => false
      end
  | _ => false
  end.

(** Its second test. *)
Definition csv_typed_item_list (data : pyval) : bool :=
  match data with
  | PDict d => item_list_type d
  | _ => false
  end.

(** One [for tag in tags] loop: the first block that is not empty,
    parses, and passes [accept]. *)
Fixpoint first_accepted (load : str -> exc pyval) (accept : pyval -> bool)
    (raws : list str) : option pyval :=
  match raws with
  | [] => None
  | raw :: rest =>
      if is_empty raw then first_accepted load accept rest
      else
        match load raw with
        | Ok data =>
            if accept data then Some data else first_accepted load accept rest
        | Raised => first_accepted load accept rest
        end
  end.

(** [extract_single_ldjson] of [bayut_incremental_scraper.py]. *)
Definition extract_single_ldjson_incremental (raws : list str) : exc pyval :=
  match first_accepted load_json_lenient holds_listings raws with
  | Some data => Ok data
  | None =>
      match first_accepted load_json_lenient typed_item_list raws with
      | Some data => Ok data
      | None => Raised
      end
  end.

(** [extract_single_ldjson] of [bayut_ldjson_to_mongo.py], which falls
    back on the first block that parses. *)
Definition extract_single_ldjson (raws : list str) : exc pyval :=
  match first_accepted load_json_lenient holds_listings raws with
  | Some data => Ok data
  | None =>
      match first_accepted load_json_lenient typed_item_list raws with
      | Some data => Ok data
      | None =>
          match first_accepted load_json_lenient (fun _ => true) raws with
          | Some data => Ok data
          | None => Raised
          end
      end
  end.

(** [extract_single_ldjson] of [bayut_csv_scraper.py]. *)
Definition extract_single_ldjson_csv (raws : list str) : exc pyval :=
  match first_accepted csv_load_json_lenient csv_holds_listings raws with
  | Some data => Ok data
  | None =>
      match first_accepted csv_load_json_lenient csv_typed_item_list raws with
      | Some data => Ok data
      | None =>
          match first_accepted csv_load_json_lenient (fun _ => true) raws with
          | Some data => Ok data
          | None => Raised
          end
      end
  end.

(** *** The repair *)

Definition not_comma (c : N) : bool := negb (c =? COMMA)%N.

Lemma drop_keeps_the_rest (txt : str) :
  filter not_comma (drop_trailing_commas txt) = filter not_comma txt.
Proof.
  induction txt as [|c rest IH]; [reflexivity|].
  cbn [drop_trailing_commas filter]. unfold not_comma at 2.
  destruct (c =? COMMA)%N eqn:E; cbn [andb negb].
  - destruct (closes rest); [exact IH|].
    cbn [filter]. unfold not_comma at 1. rewrite E. exact IH.
  - cbn [filter]. unfold not_comma at 1. rewrite E. cbn [negb].
    rewrite IH. reflexivity.
Qed.

Lemma drop_length (txt : str) :
  (length (drop_trailing_commas txt) <= length txt)%nat.
Proof.
  induction txt as [|c rest IH]; [apply le_n|].
  cbn [drop_trailing_commas].
  destruct ((c =? COMMA)%N && closes rest); cbn [length]; lia.
Qed.

Lemma drop_without_close (txt : str) :
  ~ In CLOSE_BRACE txt -> ~ In CLOSE_BRACKET txt ->
  drop_trailing_commas txt = txt.
Proof.
  assert (Hc : forall s, ~ In CLOSE_BRACE s -> ~ In CLOSE_BRACKET s ->
                         closes s = false).
  { induction s as [|c s IH]; intros H1 H2; [reflexivity|].
    cbn [closes].
    destruct (N.eqb_spec c CLOSE_BRACE) as [-> | _];
      [exfalso; apply H1; now left|].
    destruct (N.eqb_spec c CLOSE_BRACKET) as [-> | _];
      [exfalso; apply H2; now left|].
    cbn [orb]. destruct (is_space unicode_space c); [|reflexivity].
    apply IH; intros H; [apply H1 | apply H2]; now right. }
  induction txt as [|c rest IH]; intros H1 H2; [reflexivity|].
  cbn [drop_trailing_commas].
  rewrite Hc, andb_false_r
    by (intros H; first [apply H1; now right | apply H2; now right]).
  rewrite IH by (intros H; first [apply H1; now right | apply H2; now right]).
  reflexivity.
Qed.

(** X18.  The repair that [load_json_lenient] tries on text that does
    not parse only ever deletes commas: every other character of the
    text is kept, in order; the text never grows; and text with no
    closing brace or bracket is left as it is.  Text that parses is not
    repaired at all. *)
Theorem lenient_repair_only_deletes_commas (txt : str) :
  filter not_comma (drop_trailing_commas txt) = filter not_comma txt /\
  (length (drop_trailing_commas txt) <= length txt)%nat /\
  (~ In CLOSE_BRACE txt -> ~ In CLOSE_BRACKET txt ->
   drop_trailing_commas txt = txt) /\
  (forall data, loads txt = Ok data -> load_json_lenient txt = Ok data) /\
  (loads txt = Raised ->
   load_json_lenient txt = loads (drop_trailing_commas txt)).
Proof.
  split; [apply drop_keeps_the_rest|].
  split; [apply drop_length|].
  split; [apply drop_without_close|].
  unfold load_json_lenient. split.
  - intros data ->. reflexivity.
  - intros ->. reflexivity.
Qed.

Lemma csv_match_needs_backslash (s : str) :
  ~ In BACKSLASH s -> csv_match_here s = None.
Proof.
  intros H. unfold csv_match_here.
  destruct s as [|c0 [|c1 s1]]; try reflexivity.
  destruct (N.eqb_spec c1 BACKSLASH) as [-> | _];
    [exfalso; apply H; right; now left|].
  rewrite andb_false_r. reflexivity.
Qed.

Lemma csv_sub_idle (fuel : nat) :
  forall txt, ~ In BACKSLASH txt -> csv_sub fuel txt = txt.
Proof.
  induction fuel as [|fuel IH]; intros txt H; [reflexivity|].
  cbn [csv_sub]. destruct txt as [|c rest]; [reflexivity|].
  rewrite (csv_match_needs_backslash (c :: rest) H).
  rewrite IH by (intros Hin; apply H; now right). reflexivity.
Qed.

(** X19.  In [bayut_csv_scraper.py] the pattern of the repair is
    written with doubled backslashes and asks for a backslash after the
    comma.  So on text that holds no backslash the repair changes
    nothing, and [load_json_lenient] is [json.loads]: a trailing comma
    is not tolerated. *)
Theorem csv_repair_is_idle (txt : str) :
  ~ In BACKSLASH txt ->
  (forall fuel, csv_sub fuel txt = txt) /\
  csv_load_json_lenient txt = loads txt.
Proof.
  intros H. split; [intros fuel; apply csv_sub_idle; exact H|].
  unfold csv_load_json_lenient. rewrite csv_sub_idle by exact H.
  destruct (loads txt); reflexivity.
Qed.

(** *** The choice of a block *)

Lemma first_accepted_sound (load : str -> exc pyval) (accept : pyval -> bool)
    (raws : list str) (data : pyval) :
  first_accepted load accept raws = Some data ->
  accept data = true /\
  exists raw, In raw raws /\ raw <> [] /\ load raw = Ok data.
Proof.
  induction raws as [|raw rest IH]; cbn [first_accepted]; [discriminate|].
  assert (Hrest : first_accepted load accept rest = Some data ->
                  accept data = true /\
                  exists raw0, In raw0 (raw :: rest) /\ raw0 <> [] /\
                               load raw0 = Ok data).
  { intros H. destruct (IH H) as (Ha & raw0 & Hin & Hne & Hl).
    split; [exact Ha|]. exists raw0. split; [now right | split; assumption]. }
  destruct raw as [|c raw]; cbn [is_empty]; [exact Hrest|].
  destruct (load (c :: raw)) as [data0|] eqn:El; [|exact Hrest].
  destruct (accept data0) eqn:Ea; [|exact Hrest].
  intros [= <-]. split; [exact Ea|].
  exists (c :: raw). split; [now left | split; [discriminate | exact El]].
Qed.

Lemma first_accepted_none (load : str -> exc pyval) (accept : pyval -> bool)
    (raws : list str) :
  (forall raw, In raw raws -> raw = [] \/ load raw = Raised) ->
  first_accepted load accept raws = None.
Proof.
  induction raws as [|raw rest IH]; intros H; [reflexivity|].
  cbn [first_accepted].
  rewrite IH by (intros r Hr; apply H; now right).
  destruct (H raw (or_introl eq_refl)) as [-> | ->]; [reflexivity|].
  destruct (is_empty raw); reflexivity.
Qed.

Lemma first_parsed_none (load : str -> exc pyval) (raws : list str) :
  first_accepted load (fun _ => true) raws = None ->
  forall raw, In raw raws -> raw = [] \/ load raw = Raised.
Proof.
  induction raws as [|raw rest IH]; cbn [first_accepted]; [intros _ r []|].
  destruct raw as [|c raw]; cbn [is_empty].
  - intros H r [<- | Hr]; [now left | exact (IH H r Hr)].
  - destruct (load (c :: raw)) eqn:El; [discriminate|].
    intros H r [<- | Hr]; [now right | exact (IH H r Hr)].
Qed.

Lemma accepted_dict (data : pyval) :
  holds_listings data = true \/ typed_item_list data = true ->
  exists d, data = PDict d /\ has_key (lit "itemListElement") d = true.
Proof.
  destruct data as [| | | | | |d]; cbn [holds_listings typed_item_list];
    try (intros [H | H]; discriminate H).
  intros [H | H]; apply andb_true_iff in H; exists d; split; tauto.
Qed.

(** X20.  What [extract_single_ldjson] of the incremental harvester
    returns is always a dict that holds [itemListElement], so it is
    never empty and never of another type: the tests [if not ldjson] of
    [process_page] and [isinstance(ldjson, dict)] of
    [_process_properties] cannot fail on it.  And it is the parse of
    one of the non-empty blocks of the page. *)
Theorem incremental_ldjson_is_an_item_list (raws : list str) (data : pyval) :
  extract_single_ldjson_incremental raws = Ok data ->
  (exists d, data = PDict d /\ has_key (lit "itemListElement") d = true) /\
  truthy data = true /\
  exists raw, In raw raws /\ raw <> [] /\ load_json_lenient raw = Ok data.
Proof.
  unfold extract_single_ldjson_incremental. intros H.
  assert (Hacc : (holds_listings data = true \/ typed_item_list data = true) /\
                 exists raw, In raw raws /\ raw <> [] /\
                             load_json_lenient raw = Ok data).
  { destruct (first_accepted load_json_lenient holds_listings raws) as [d1|] eqn:E1.
    - injection H as ->. apply first_accepted_sound in E1 as [Ha Hr].
      split; [now left | exact Hr].
    - destruct (first_accepted load_json_lenient typed_item_list raws)
        as [d2|] eqn:E2; [|discriminate].
      injection H as ->. apply first_accepted_sound in E2 as [Ha Hr].
      split; [now right | exact Hr]. }
  destruct Hacc as [Ha Hr].
  destruct (accepted_dict data Ha) as (d & -> & Hk).
  split; [exists d; split; [reflexivity | exact Hk]|].
  split; [|exact Hr].
  destruct d; [discriminate Hk | reflexivity].
Qed.

(** X21.  [extract_single_ldjson] of the ldjson harvester returns what
    the incremental one returns whenever that one returns; where that
    one raises it falls back on the first block that parses, and it
    raises exactly when no non-empty block parses.  Its result is
    always the parse of a non-empty block of the page. *)
Theorem ldjson_falls_back_on_any_block (raws : list str) :
  (forall data, extract_single_ldjson_incremental raws = Ok data ->
                extract_single_ldjson raws = Ok data) /\
  (extract_single_ldjson raws = Raised <->
   forall raw, In raw raws -> raw = [] \/ load_json_lenient raw = Raised) /\
  (forall data, extract_single_ldjson raws = Ok data ->
     exists raw, In raw raws /\ raw <> [] /\ load_json_lenient raw = Ok data).
Proof.
  unfold extract_single_ldjson_incremental, extract_single_ldjson.
  split; [|split].
  - intros data.
    destruct (first_accepted load_json_lenient holds_listings raws);
      [intros H; exact H|].
    destruct (first_accepted load_json_lenient typed_item_list raws);
      [intros H; exact H | discriminate].
  - split.
    + destruct (first_accepted load_json_lenient holds_listings raws);
        [discriminate|].
      destruct (first_accepted load_json_lenient typed_item_list raws);
        [discriminate|].
      destruct (first_accepted load_json_lenient (fun _ => true) raws) eqn:E;
        [discriminate|].
      intros _. exact (first_parsed_none load_json_lenient raws E).
    + intros H. rewrite !(first_accepted_none load_json_lenient _ raws H).
      reflexivity.
  - intros data H.
    destruct (first_accepted load_json_lenient holds_listings raws) as [d1|] eqn:E1;
      [injection H as ->; exact (proj2 (first_accepted_sound _ _ _ _ E1))|].
    destruct (first_accepted load_json_lenient typed_item_list raws) as [d2|] eqn:E2;
      [injection H as ->; exact (proj2 (first_accepted_sound _ _ _ _ E2))|].
    destruct (first_accepted load_json_lenient (fun _ => true) raws) as [d3|] eqn:E3;
      [|discriminate].
    injection H as ->. exact (proj2 (first_accepted_sound _ _ _ _ E3)).
Qed.

End Parse.

(** A stand-in for [json.loads] on examples: it knows the text of a
    breadcrumb block and the text of a block of listings, and raises on
    everything else. *)
Definition breadcrumbs : pyval :=
  PDict [(lit "@type", PStr (lit "BreadcrumbList"))].
Definition listings_block : pyval :=
  PDict [(lit "@type", PStr (lit "ItemList"));
         (lit "itemListElement", PList [item_n "8412345"])].
Definition ascii_space : N -> bool := fun _ => false.
Definition toy_loads (txt : str) : exc pyval :=
  if str_eqb txt (lit "{breadcrumbs}") then Ok breadcrumbs
  else if str_eqb txt (lit "{listings}") then Ok listings_block
  else Raised.

Lemma incremental_ldjson_is_an_item_list_witness :
  extract_single_ldjson_incremental ascii_space toy_loads
    [lit "{breadcrumbs}"; []; lit "{listings}"] = Ok listings_block /\
  truthy listings_block = true.
Proof.
  assert (H : extract_single_ldjson_incremental ascii_space toy_loads
                [lit "{breadcrumbs}"; []; lit "{listings}"] = Ok listings_block)
    by (vm_compute; reflexivity).
  split; [exact H|].
  exact (proj1 (proj2 (incremental_ldjson_is_an_item_list ascii_space toy_loads
                         _ _ H))).
Defined.

Lemma csv_repair_is_idle_witness :
  csv_sub 6 (lit "[1, 2,]") = lit "[1, 2,]" /\
  drop_trailing_commas ascii_space (lit "[1, 2,]") = lit "[1, 2]".
Proof.
  split; [|vm_compute; reflexivity].
  apply (csv_repair_is_idle toy_loads (lit "[1, 2,]")).
  vm_compute. intuition discriminate.
Defined.

End LdJson.

(** ** The pages of a sub-location

    The slugs that [run_csv_mode] of [bayut_ldjson_to_mongo.py] and [run]
    of [bayut_csv_scraper.py] cut out of the URL of a CSV row, and the
    URL of a page that they build from them. *)

Module Sublocation.

Definition SLASH : N := 47.

(** [s.rstrip("/")] *)
Fixpoint rstrip_slash (s : str) : str :=
  match s with
  | [] => []
  | c :: s' =>
      match rstrip_slash s' with
      | [] => if (c =? SLASH)%N then [] else [c]
      | r => c :: r
      end
  end.

(** [s.split("/")] *)
Fixpoint split_slash (s : str) : list str :=
  match s with
  | [] => [[]]
  | c :: s' =>
      if (c =? SLASH)%N then [] :: split_slash s'
      else
        match split_slash s' with
        | part :: parts => (c :: part) :: parts
        | [] => [[c]]
        end
  end.

(** [l[-k]], for [k] from 1; it raises when the list is too short. *)
Definition from_end {A} (k : nat) (l : list A) : exc A :=
  match nth_error (rev l) (k - 1) with
  | Some x => Ok x
  | None => Raised
  end.

(** [city_slug] and [sublocation_slug], from
    [url_parts = location_info["url"].rstrip("/").split("/")] on. *)
Definition slugs (url : str) : exc (str * str) :=
  let url_parts := split_slash (rstrip_slash url) in
  city_slug <- from_end 2 url_parts ;;
  sublocation_slug <- from_end 1 url_parts ;;
  Ok (city_slug, sublocation_slug).

Definition SITE : str := lit "https://www.bayut.com/for-sale/property".

Section Pages.

(** A page number as an f-string prints it. *)
Variable decimal : Z -> str.

(** The URL of page [page_num]. *)
Definition page_url (city_slug sublocation_slug : str) (page_num : Z) : str :=
  SITE ++ lit "/" ++ city_slug ++ lit "/" ++ sublocation_slug ++
  lit "/page-" ++ decimal page_num ++ lit "/?sort=date_desc".

End Pages.

(** *** Cutting a URL *)

Definition slash_free (s : str) : Prop := ~ In SLASH s.

Lemma rstrip_slash_slashes (k : nat) : rstrip_slash (repeat SLASH k) = [].
Proof. induction k as [|k IH]; [reflexivity|]. cbn. rewrite IH. reflexivity. Qed.

Lemma rstrip_slash_app (s : str) (c : N) (k : nat) :
  c <> SLASH -> rstrip_slash (s ++ c :: repeat SLASH k) = s ++ [c].
Proof.
  intros Hc. apply N.eqb_neq in Hc.
  induction s as [|x s IH]; cbn [app rstrip_slash].
  - rewrite rstrip_slash_slashes, Hc. reflexivity.
  - rewrite IH. destruct s; reflexivity.
Qed.

Lemma split_slash_nonempty (s : str) : split_slash s <> [].
Proof.
  induction s as [|c s IH]; cbn [split_slash]; [discriminate|].
  destruct (c =? SLASH)%N; [discriminate|].
  destruct (split_slash s); [congruence | discriminate].
Qed.

Lemma split_slash_app (s t : str) :
  split_slash (s ++ SLASH :: t) = split_slash s ++ split_slash t.
Proof.
  induction s as [|c s IH]; cbn [app split_slash]; [reflexivity|].
  rewrite IH. destruct (c =? SLASH)%N; [reflexivity|].
  pose proof (split_slash_nonempty s) as Hne.
  destruct (split_slash s); [congruence | reflexivity].
Qed.

Lemma split_slash_last (s : str) : slash_free s -> split_slash s = [s].
Proof.
  induction s as [|c s IH]; intros H; [reflexivity|].
  cbn [split_slash].
  destruct (N.eqb_spec c SLASH) as [-> | _]; [exfalso; apply H; now left|].
  rewrite IH by (intros Hin; apply H; now right). reflexivity.
Qed.

Lemma from_end_two {A} (front : list A) (a b : A) :
  from_end 2 (front ++ [a; b]) = Ok a /\ from_end 1 (front ++ [a; b]) = Ok b.
Proof. unfold from_end. rewrite rev_app_distr. split; reflexivity. Qed.

Lemma rstrip_slash_tail (t sub : str) (k : nat) :
  slash_free sub -> sub <> [] ->
  rstrip_slash (t ++ sub ++ repeat SLASH k) = t ++ sub.
Proof.
  intros Hfree Hne.
  destruct (exists_last Hne) as (front & c & ->).
  assert (Hc : c <> SLASH).
  { intros ->. apply Hfree. apply in_or_app. right. now left. }
  replace (t ++ (front ++ [c]) ++ repeat SLASH k)
    with ((t ++ front) ++ c :: repeat SLASH k)
    by (rewrite <- !app_assoc; reflexivity).
  rewrite (rstrip_slash_app _ c k Hc), <- app_assoc. reflexivity.
Qed.

Lemma slugs_cut (base city sub : str) (k : nat) :
  slash_free city -> slash_free sub -> sub <> [] ->
  slugs (base ++ SLASH :: city ++ SLASH :: sub ++ repeat SLASH k)
  = Ok (city, sub).
Proof.
  intros Hc Hs Hne. unfold slugs.
  replace (base ++ SLASH :: city ++ SLASH :: sub ++ repeat SLASH k)
    with ((base ++ SLASH :: city ++ [SLASH]) ++ sub ++ repeat SLASH k)
    by (rewrite <- !app_assoc; cbn [app]; rewrite <- app_assoc; reflexivity).
  rewrite (rstrip_slash_tail _ sub k Hs Hne).
  replace ((base ++ SLASH :: city ++ [SLASH]) ++ sub)
    with (base ++ SLASH :: city ++ SLASH :: sub)
    by (rewrite <- !app_assoc; cbn [app]; rewrite <- app_assoc; reflexivity).
  rewrite !split_slash_app, (split_slash_last city Hc), (split_slash_last sub Hs).
  cbn [app].
  destruct (from_end_two (split_slash base) city sub) as [-> ->].
  reflexivity.
Qed.

Lemma slugs_too_short (url : str) :
  slash_free (rstrip_slash url) -> slugs url = Raised.
Proof.
  intros H. unfold slugs. rewrite (split_slash_last _ H). reflexivity.
Qed.

(** X23.  For the URL of a CSV row that ends in [/<city>/<sub>], with
    any number of slashes after it, the two slugs are [<city>] and
    [<sub>]; when the URL is on the site's for-sale tree, the URL
    requested for page [n] is the URL of the row, without its trailing
    slashes, followed by [/page-n/?sort=date_desc].  A URL that holds no
    slash once its trailing slashes are cut has fewer than two parts,
    and cutting the slugs raises. *)
Theorem slugs_of_a_location_url :
  (forall base city sub k,
      slash_free city -> slash_free sub -> sub <> [] ->
      slugs (base ++ SLASH :: city ++ SLASH :: sub ++ repeat SLASH k)
      = Ok (city, sub)) /\
  (forall decimal city sub k page_num,
      slash_free sub -> sub <> [] ->
      page_url decimal city sub page_num =
      rstrip_slash (SITE ++ SLASH :: city ++ SLASH :: sub ++ repeat SLASH k) ++
      lit "/page-" ++ decimal page_num ++ lit "/?sort=date_desc") /\
  (forall url, slash_free (rstrip_slash url) -> slugs url = Raised).
Proof.
  split; [exact slugs_cut|]. split; [|exact slugs_too_short].
  intros decimal city sub k page_num Hs Hne. unfold page_url.
  replace (SITE ++ SLASH :: city ++ SLASH :: sub ++ repeat SLASH k)
    with ((SITE ++ SLASH :: city ++ [SLASH]) ++ sub ++ repeat SLASH k)
    by (rewrite <- !app_assoc; cbn [app]; rewrite <- app_assoc; reflexivity).
  rewrite (rstrip_slash_tail _ sub k Hs Hne).
  rewrite <- !app_assoc. cbn [app]. rewrite <- !app_assoc. reflexivity.
Qed.

End Sublocation.

(** ** Listing harvester: the sub-locations of a run

    The [for loc_idx, location_info in enumerate(sublocations, 1)] loop
    of [run_csv_mode] of [bayut_ldjson_to_mongo.py] and of [run] of
    [bayut_csv_scraper.py], which runs the page loop of each
    sub-location in turn.  The rows are those that the filters of the
    command line have left; each has its four columns. *)

Module CsvRun.

Import Identity Harvester Sublocation.

Definition COMMA : N := 44.

(** [s.replace] of every comma by the empty string. *)
Definition without_commas (s : str) : str :=
  filter (fun c => negb (c =? COMMA)%N) s.

(** [range(1, max_pages + 1)] *)
Definition page_numbers (max_pages : Z) : list Z :=
  map Z.of_nat (seq 1 (Z.to_nat max_pages)).

(** What the run did for one sub-location: the slugs it cut out of the
    URL of the row, the pages it requested, and the empty-page counter
    at the end of the page loop. *)
Record visited := {
  city_slug : str;
  sublocation_slug : str;
  requested : list Z;
  consecutive_empty_pages : nat
}.

Section Run.

Variable unicode_Nd : N -> bool.
Variable dumps : pyval -> str.
Variable md5_hexdigest : list N -> str.
Variable lower : str -> str.
Variable store : Type.
Variable commit : store -> list harvest_doc -> store.

(** [int(s)] on a string; [None] when it raises. *)
Variable py_int : str -> option Z.

(** What the site answers for page [n] of the sub-location that the run
    reaches as its [k]-th. *)
Variable site : nat -> Z -> page_env.

Local Abbreviation empty_page := (empty_page unicode_Nd dumps md5_hexdigest lower).
Local Abbreviation visit := (visit unicode_Nd dumps md5_hexdigest lower store commit).
Local Abbreviation crawl := (crawl unicode_Nd dumps md5_hexdigest lower store commit).
Local Abbreviation empty_run := (empty_run unicode_Nd dumps md5_hexdigest lower).

(** [max_pages], from [try:] to [max_pages = args.max_pages]. *)
Definition max_pages_of (max_pages : Z) (location_info : csv_row) : Z :=
  match py_int (without_commas (listings location_info)) with
  | Some listings_count => Z.min max_pages (listings_count / 24 + 2)
  | None => max_pages
  end.

(** The pages that the world holds for the sub-location reached as the
    [loc_idx]-th. *)
Definition pages_of (max_pages : Z) (loc_idx : nat) (location_info : csv_row)
  : list page_env :=
  map (site loc_idx) (page_numbers (max_pages_of max_pages location_info)).

(** The loop over the sub-locations: what was done for each, the store,
    and whether the loop ran to its end; it does not when the URL of a
    row has fewer than two parts, and cutting the slugs raises. *)
Fixpoint locations_loop (v : script) (max_pages : Z) (loc_idx : nat)
    (sublocations : list csv_row) (st : store) : list visited * store * bool :=
  match sublocations with
  | [] => ([], st, true)
  | location_info :: rest =>
      match slugs (location_url location_info) with
      | Raised => ([], st, false)
      | Ok (city, sub) =>
          let '(log, c, st1) :=
            crawl v location_info 0 st 1 (pages_of max_pages loc_idx location_info) in
          let '(done, st2, finished) :=
            locations_loop v max_pages (S loc_idx) rest st1 in
          ({| city_slug := city; sublocation_slug := sub;
              requested := log; consecutive_empty_pages := c |} :: done,
           st2, finished)
      end
  end.

(** The identity resolver of the script at hand. *)
Definition resolve (v : script) (item : pyval) : exc identified :=
  match v with
  | CsvMode => Identity.identify unicode_Nd dumps md5_hexdigest item
  | CsvScraper => CsvScraper.identify dumps md5_hexdigest item
  end.

(** A site on which every page of every sub-location is empty or
    invalid. *)
Definition barren (v : script) (sublocations : list csv_row) : Prop :=
  forall location_info k n,
    In location_info sublocations -> empty_page v location_info n (site k n).

(** What the run does for a sub-location of a barren site. *)
Definition given_up (max_pages : Z) (location_info : csv_row) (city sub : str)
  : visited :=
  let k := Nat.min EMPTY_PAGES_LIMIT (Z.to_nat (max_pages_of max_pages location_info)) in
  {| city_slug := city; sublocation_slug := sub;
     requested := numbered 1 k; consecutive_empty_pages := k |}.

(** *** Pages that yield items *)

Lemma docs_from_holds (v : script) (elts : list pyval) (page_num t : Z)
    (loc : csv_row) (el : pyval) (r : identified) :
  In el elts -> resolve v el = Ok r ->
  exists doc,
    In doc (docs_from unicode_Nd dumps md5_hexdigest v elts page_num t loc) /\
    property_id doc = i_pid r /\ upsert_key doc = i_pid r /\
    raw_item doc = el /\ page_number doc = page_num /\
    fetched_at doc = t /\ doc_loc doc = LocCsv loc.
Proof.
  intros Hin Hr. induction elts as [|x rest IH]; [destruct Hin|].
  cbn [docs_from]. destruct Hin as [-> | Hin].
  - destruct v; cbn [resolve] in Hr.
    + unfold doc_from_item. rewrite Hr. cbn [bind].
      eexists. split; [left; reflexivity|]. repeat split.
    + unfold CsvScraper.doc_from_item. rewrite Hr. cbn [bind].
      eexists. split; [left; reflexivity|]. repeat split.
  - destruct (IH Hin) as (doc & Hd & Hrest).
    exists doc. split; [|exact Hrest].
    destruct (match v with
              | CsvMode => doc_from_item unicode_Nd dumps md5_hexdigest x page_num t
                             (Some loc) None (lit "for-sale")
              | CsvScraper => CsvScraper.doc_from_item dumps md5_hexdigest x page_num t loc
              end); [right|]; exact Hd.
Qed.

Lemma visit_listing (v : script) (loc : csv_row) (c : nat) (st : store)
    (page_num : Z) (pg : page_env) (html : str) (d : list (str * pyval))
    (elts : list pyval) (el : pyval) (r : identified) :
  fetched pg = Response 200 html ->
  (MIN_BODY <= length html)%nat ->
  (v = CsvScraper -> looks_blocked lower html = false) ->
  parsed pg = Ok (PDict d) ->
  iterate (py_or (get (lit "itemListElement") d) (PList [])) = Ok elts ->
  In el elts ->
  resolve v el = Ok r ->
  exists items doc,
    visit v loc c st page_num pg = (0%nat, commit st items) /\
    In doc items /\
    property_id doc = i_pid r /\ upsert_key doc = i_pid r /\
    raw_item doc = el /\ page_number doc = page_num /\
    fetched_at doc = now pg /\ doc_loc doc = LocCsv loc.
Proof.
  intros Hf Hl Hb Hp Hi Hin Hr.
  destruct (docs_from_holds v elts page_num (now pg) loc el r Hin Hr)
    as (doc & Hd & Hdoc).
  exists (docs_from unicode_Nd dumps md5_hexdigest v elts page_num (now pg) loc), doc.
  split; [|split; [exact Hd | exact Hdoc]].
  apply visit_good. exists html, (PDict d).
  split; [exact Hf|]. split; [exact Hl|]. split; [exact Hb|].
  split; [exact Hp|]. split.
  - cbn [items_of]. rewrite Hi. reflexivity.
  - intros E. rewrite E in Hd. destruct Hd.
Qed.

(** *** A barren site *)

Lemma barren_run (v : script) (loc : csv_row) (k : nat) (len : nat) :
  (forall n, empty_page v loc n (site k n)) ->
  forall a,
  empty_run v loc (Z.of_nat a) (map (site k) (map Z.of_nat (seq a len))).
Proof.
  intros H. induction len as [|len IH]; intros a; cbn [seq map Harvester.empty_run];
    [exact I|].
  split; [apply H|].
  replace (Z.of_nat a + 1)%Z with (Z.of_nat (S a)) by lia. apply IH.
Qed.

Lemma crawl_barren (v : script) (loc : csv_row) (st : store) (pages : list page_env) :
  empty_run v loc 1 pages ->
  crawl v loc 0 st 1 pages =
  (numbered 1 (Nat.min EMPTY_PAGES_LIMIT (length pages)),
   Nat.min EMPTY_PAGES_LIMIT (length pages), st).
Proof.
  intros Hrun.
  destruct (Nat.le_gt_cases (length pages) EMPTY_PAGES_LIMIT) as [Hle | Hgt].
  - rewrite <- (app_nil_r pages) at 1.
    rewrite (crawl_empty_run unicode_Nd dumps md5_hexdigest lower store commit
               v loc st pages [] 0 1 Hrun) by (cbn; lia).
    cbn [Harvester.crawl Nat.add app]. rewrite app_nil_r.
    rewrite Nat.min_r by exact Hle. reflexivity.
  - rewrite <- (firstn_skipn EMPTY_PAGES_LIMIT pages) at 1.
    assert (Hlen : length (firstn EMPTY_PAGES_LIMIT pages) = EMPTY_PAGES_LIMIT)
      by (rewrite length_firstn; lia).
    assert (Hfirst : empty_run v loc 1 (firstn EMPTY_PAGES_LIMIT pages)).
    { clear Hgt Hlen. revert Hrun. generalize 1%Z. generalize EMPTY_PAGES_LIMIT.
      induction pages as [|pg rest IH]; intros n z H; destruct n; cbn; try exact I.
      destruct H as [H1 H2]. split; [exact H1 | apply IH; exact H2]. }
    rewrite (crawl_empty_run unicode_Nd dumps md5_hexdigest lower store commit
               v loc st _ _ 0 1 Hfirst) by (rewrite Hlen; cbn; lia).
    rewrite Hlen, Nat.add_0_l, crawl_stopped by lia.
    rewrite app_nil_r, Nat.min_l by lia. reflexivity.
Qed.

Lemma pages_of_length (max_pages : Z) (k : nat) (loc : csv_row) :
  length (pages_of max_pages k loc) = Z.to_nat (max_pages_of max_pages loc).
Proof. unfold pages_of, page_numbers. rewrite !length_map, length_seq. reflexivity. Qed.

Lemma locations_loop_barren (v : script) (max_pages : Z)
    (sublocations : list csv_row) (st : store) :
  barren v sublocations ->
  forall k,
  exists done,
    locations_loop v max_pages k sublocations st
    = (done, st, forallb (fun row => match slugs (location_url row) with
                                     | Ok _ => true
                                     | Raised => false
                                     end) sublocations) /\
    (Forall (fun row => slugs (location_url row) <> Raised) sublocations ->
     Forall2 (fun row vis =>
                exists city sub,
                  slugs (location_url row) = Ok (city, sub) /\
                  vis = given_up max_pages row city sub)
       sublocations done).
Proof.
  intros Hb.
  induction sublocations as [|row rest IH]; intros k.
  - exists []. split; [reflexivity|]. constructor.
  - cbn [locations_loop forallb].
    destruct (slugs (location_url row)) as [[city sub]|] eqn:Hs.
    + rewrite crawl_barren
        by (apply (barren_run v row k _ (fun n => Hb row k n (or_introl eq_refl)) 1%nat)).
      destruct (IH (fun r k' n H => Hb r k' n (or_intror H)) (S k))
        as (done & -> & Hdone).
      eexists. split; [reflexivity|].
      intros Hall. inversion Hall as [|? ? _ Hrest]; subst.
      constructor; [|apply Hdone; exact Hrest].
      exists city, sub. split; [exact Hs|].
      unfold given_up. rewrite pages_of_length. reflexivity.
    + exists []. split; [reflexivity|].
      intros Hall. inversion Hall as [|? ? Hne _]; subst. congruence.
Qed.

(** *** Every sub-location is visited *)

Lemma locations_loop_visits (v : script) (max_pages : Z)
    (sublocations : list csv_row) :
  Forall (fun row => slugs (location_url row) <> Raised) sublocations ->
  forall k st,
  let '(done, _, finished) := locations_loop v max_pages k sublocations st in
  finished = true /\
  Forall2 (fun row vis =>
             slugs (location_url row) = Ok (city_slug vis, sublocation_slug vis) /\
             requested vis = numbered 1 (length (requested vis)) /\
             (Z.of_nat (length (requested vis))
              <= Z.max 0 (max_pages_of max_pages row))%Z /\
             (consecutive_empty_pages vis <= EMPTY_PAGES_LIMIT)%nat /\
             ((Z.of_nat (length (requested vis))
               < Z.max 0 (max_pages_of max_pages row))%Z ->
              consecutive_empty_pages vis = EMPTY_PAGES_LIMIT))
    sublocations done.
Proof.
  intros Hall. induction Hall as [|row rest Hrow Hrest IH]; intros k st.
  - cbn. split; [reflexivity | constructor].
  - cbn [locations_loop].
    destruct (slugs (location_url row)) as [[city sub]|] eqn:Hs; [|congruence].
    pose proof (crawl_shape unicode_Nd dumps md5_hexdigest lower store commit
                  v row (pages_of max_pages k row) 0%nat st 1%Z) as Hshape.
    destruct (crawl v row 0 st 1 (pages_of max_pages k row)) as [[log c] st1].
    specialize (IH (S k) st1).
    destruct (locations_loop v max_pages (S k) rest st1) as [[done st2] finished].
    destruct IH as [Hfin Hdone].
    destruct Hshape as (Hlog & Hlen & Hstop & Hbound).
    rewrite pages_of_length in Hlen, Hstop.
    split; [exact Hfin|]. constructor; [|exact Hdone].
    cbn [city_slug sublocation_slug requested consecutive_empty_pages].
    split; [exact Hs|]. split; [exact Hlog|].
    split; [lia|]. split; [apply Hbound; unfold EMPTY_PAGES_LIMIT; lia|].
    intros H. assert (Hc : (EMPTY_PAGES_LIMIT <= c)%nat) by (apply Hstop; lia).
    assert (Hc' : (c <= EMPTY_PAGES_LIMIT)%nat)
      by (apply Hbound; unfold EMPTY_PAGES_LIMIT; lia).
    lia.
Qed.


End Run.

(** [int] on a string of ASCII digits. *)
Definition ascii_int (s : str) : option Z :=
  if is_empty s then None
  else
    fold_left (fun acc c =>
                 match acc with
                 | Some n =>
                     if ((48 <=? c) && (c <=? 57))%N
                     then Some (10 * n + Z.of_N (c - 48))%Z
                     else None
                 | None => None
                 end) s (Some 0%Z).

(** A site that has nothing under any URL. *)
Definition nowhere : nat -> Z -> page_env := fun _ _ => not_found.

Definition jvc : csv_row :=
  {| city := lit "Dubai";
     sublocation := lit "Jumeirah Village Circle";
     location_url :=
       lit "https://www.bayut.com/for-sale/property/dubai/jumeirah-village-circle/";
     listings := lit "980" |}.



End CsvRun.

(** ** Listing harvester: location mode

    [run_location_mode] of [bayut_ldjson_to_mongo.py]: the loop over the
    locations and, for each, over the pages from [args.start] to
    [args.end]. *)

Module LocationMode.

Import Identity Store Harvester.

Definition AVAILABLE_LOCATIONS : list str :=
  [lit "dubai"; lit "abu-dhabi"; lit "sharjah"; lit "ajman";
   lit "ras-al-khaimah"; lit "fujairah"; lit "umm-al-quwain"; lit "al-ain"].

(** What the script does to the outside: the request of a page of a
    location, or the sleep between two requests. *)
Inductive effect :=
  | Request (location : str) (page : Z)
  | Sleep.

Definition is_request (ev : effect) : bool :=
  match ev with Request _ _ => true | Sleep => false end.

(** [range(start, stop + 1)] *)
Definition page_range (start stop : Z) : list Z :=
  map (fun k => (start + Z.of_nat k)%Z) (seq 0 (Z.to_nat (stop + 1 - start))).

Section Run.

Variable unicode_Nd : N -> bool.
Variable dumps : pyval -> str.
Variable md5_hexdigest : list N -> str.

(** What the site answers for a page of a location. *)
Variable site : str -> Z -> page_env.

(** The documents of the elements that [doc_from_item] accepts.  The
    purpose is read off the URL, which is on the for-sale tree. *)
Fixpoint docs_from (elts : list pyval) (location : str) (i t : Z)
  : list harvest_doc :=
  match elts with
  | [] => []
  | el :: rest =>
      match doc_from_item unicode_Nd dumps md5_hexdigest el i t
              None (Some location) (lit "for-sale") with
      | Ok d => d :: docs_from rest location i t
      | Raised => docs_from rest location i t
      end
  end.

(** The body of the loop up to the delay: whether control reaches the
    delay (it does not after a [continue]), and the collection. *)
Definition visit (coll : list item_row) (location : str) (i : Z)
  : bool * list item_row :=
  let pg := site location i in
  match fetched pg with
  | FetchRaised => (true, coll)
  | Response status html =>
      if negb (status =? 200)%Z then (false, coll)
      else
        match parsed pg with
        | Raised => (true, coll)
        | Ok ldjson =>
            if negb (truthy ldjson) then (false, coll)
            else
              match ldjson with
              | PDict d =>
                  match iterate (py_or (get (lit "itemListElement") d) (PList [])) with
                  | Raised => (true, coll)
                  | Ok elts =>
                      match docs_from elts location i (now pg) with
                      | [] => (false, coll)
                      | items => (true, bulk_upsert_items Ldjson coll items)
                      end
                  end
              | _ => (false, coll)
              end
        end
  end.

(** [for i in range(args.start, args.end + 1)], with [last] for
    [locations[-1]]. *)
Fixpoint pages_loop (coll : list item_row) (location last : str) (stop : Z)
    (pages : list Z) : list effect * list item_row :=
  match pages with
  | [] => ([], coll)
  | i :: rest =>
      let '(reaches_delay, coll1) := visit coll location i in
      let delay :=
        if reaches_delay && ((i <? stop)%Z || negb (str_eqb location last))
        then [Sleep] else [] in
      let '(evs, coll2) := pages_loop coll1 location last stop rest in
      (Request location i :: delay ++ evs, coll2)
  end.

(** [for location in locations] *)
Fixpoint locations_loop (coll : list item_row) (remaining : list str) (last : str)
    (start stop : Z) : list effect * list item_row :=
  match remaining with
  | [] => ([], coll)
  | location :: rest =>
      let '(evs1, coll1) :=
        pages_loop coll location last stop (page_range start stop) in
      let '(evs2, coll2) := locations_loop coll1 rest last start stop in
      (evs1 ++ evs2, coll2)
  end.

Definition available (location : str) : bool :=
  existsb (str_eqb location) AVAILABLE_LOCATIONS.

(** [run_location_mode], from the validation of the locations on. *)
Definition run_location_mode (coll : list item_row) (locations : list str)
    (start stop : Z) : list effect * list item_row :=
  if forallb available locations
  then locations_loop coll locations (last locations []) start stop
  else ([], coll).

(** *** Every page is asked for *)

Lemma pages_loop_requests (location last : str) (stop : Z) (pages : list Z) :
  forall coll,
  filter is_request (fst (pages_loop coll location last stop pages))
  = map (Request location) pages.
Proof.
  induction pages as [|i rest IH]; intros coll; [reflexivity|].
  cbn [pages_loop].
  destruct (visit coll location i) as [reaches coll1].
  specialize (IH coll1).
  destruct (pages_loop coll1 location last stop rest) as [evs coll2].
  cbn [fst] in *. cbn [filter is_request map]. f_equal.
  rewrite filter_app, IH.
  destruct (reaches && ((i <? stop)%Z || negb (str_eqb location last)));
    reflexivity.
Qed.

Lemma locations_loop_requests (remaining : list str) (last : str) (start stop : Z) :
  forall coll,
  filter is_request (fst (locations_loop coll remaining last start stop))
  = flat_map (fun location => map (Request location) (page_range start stop)) remaining.
Proof.
  induction remaining as [|location rest IH]; intros coll; [reflexivity|].
  cbn [locations_loop flat_map].
  pose proof (pages_loop_requests location last stop (page_range start stop) coll)
    as Hp.
  destruct (pages_loop coll location last stop (page_range start stop))
    as [evs1 coll1].
  specialize (IH coll1).
  destruct (locations_loop coll1 rest last start stop) as [evs2 coll2].
  cbn [fst] in *. rewrite filter_app, Hp, IH. reflexivity.
Qed.

(** X24.  In location mode every page from [start] to [end] of every
    location is requested, once and in order, whatever the site answers:
    there is no empty-page limit and no retry.  When one of the
    locations is not an available one, nothing is requested and the
    collection is left alone. *)
Theorem location_mode_requests_every_page (coll : list item_row)
    (locations : list str) (start stop : Z) :
  (forallb available locations = true ->
   filter is_request (fst (run_location_mode coll locations start stop))
   = flat_map (fun location => map (Request location) (page_range start stop))
       locations) /\
  (forallb available locations = false ->
   run_location_mode coll locations start stop = ([], coll)).
Proof.
  unfold run_location_mode. split; intros ->; [|reflexivity].
  apply locations_loop_requests.
Qed.

(** *** Answers that are not 200 *)

(** Every page of every location is answered with a status other than
    200. *)
Definition refused : Prop :=
  forall location i, exists status html,
    fetched (site location i) = Response status html /\ status <> 200%Z.

Lemma visit_refused (coll : list item_row) (location : str) (i : Z) :
  refused -> visit coll location i = (false, coll).
Proof.
  intros H. destruct (H location i) as (status & html & Hf & Hs).
  unfold visit. rewrite Hf. apply Z.eqb_neq in Hs. rewrite Hs. reflexivity.
Qed.

Lemma pages_loop_refused (location last : str) (stop : Z) (pages : list Z)
    (coll : list item_row) :
  refused ->
  pages_loop coll location last stop pages = (map (Request location) pages, coll).
Proof.
  intros H. induction pages as [|i rest IH]; [reflexivity|].
  cbn [pages_loop]. rewrite (visit_refused coll location i H), IH. reflexivity.
Qed.

Lemma locations_loop_refused (remaining : list str) (last : str) (start stop : Z)
    (coll : list item_row) :
  refused ->
  locations_loop coll remaining last start stop =
  (flat_map (fun location => map (Request location) (page_range start stop)) remaining,
   coll).
Proof.
  intros H. induction remaining as [|location rest IH]; [reflexivity|].
  cbn [locations_loop flat_map]. rewrite (pages_loop_refused _ _ _ _ _ H), IH.
  reflexivity.
Qed.

(** X25.  A status other than 200 sends the loop straight to the next
    page: the [continue] skips the delay.  So when the site refuses
    every request (with 429, say), location mode asks for all the pages
    of all the locations without a single sleep between them, and
    stores nothing. *)
Theorem refused_pages_are_not_delayed (coll : list item_row)
    (locations : list str) (start stop : Z) :
  refused ->
  forallb available locations = true ->
  run_location_mode coll locations start stop =
  (flat_map (fun location => map (Request location) (page_range start stop))
     locations,
   coll).
Proof.
  intros H Hv. unfold run_location_mode. rewrite Hv.
  apply locations_loop_refused. exact H.
Qed.

End Run.

(** A site that answers every request with 429. *)
Definition rate_limited : str -> Z -> page_env :=
  fun _ _ => {| fetched := Response 429 (lit "Too Many Requests");
                parsed := Raised; now := 0 |}.

Lemma refused_pages_are_not_delayed_witness :
  run_location_mode ascii_Nd null_dumps echo_digest rate_limited []
    [lit "dubai"; lit "sharjah"] 1 2
  = ([Request (lit "dubai") 1; Request (lit "dubai") 2;
      Request (lit "sharjah") 1; Request (lit "sharjah") 2], []).
Proof.
  rewrite refused_pages_are_not_delayed; [reflexivity | | reflexivity].
  intros location i. exists 429%Z, (lit "Too Many Requests").
  split; [reflexivity | discriminate].
Defined.

End LocationMode.

(** ** Concurrent detail engine: the batches of a run

    The [async for] loop of [run] of [bayut_detail_scraper_async.py] and
    the lines after it, as far as the choice of what is handed to
    [process_batch] goes. *)

Module AsyncRun.

Definition MAX_CONCURRENT_REQUESTS : nat := 50.

Section Batches.

Variable doc : Type.

(** The batches handed to [process_batch], in order.  Each document of
    the cursor comes with the reading of [SHUTDOWN_REQUESTED] at the
    moment the cursor yields it; [late] is its reading when the loop
    has run to the end of the cursor. *)
Fixpoint batches (batch : list doc) (cursor : list (doc * bool)) (late : bool)
  : list (list doc) :=
  match cursor with
  | [] => if is_empty batch || late then [] else [batch]
  | (property_doc, shutdown) :: rest =>
      if shutdown then (if is_empty batch then [] else [batch])
      else
        let batch := batch ++ [property_doc] in
        if (MAX_CONCURRENT_REQUESTS <=? length batch)%nat
        then batch :: batches [] rest late
        else batches batch rest late
  end.

(** No shutdown is seen while the cursor is read. *)
Definition undisturbed (cursor : list (doc * bool)) : Prop :=
  Forall (fun dw => snd dw = false) cursor.

Lemma batches_sizes (cursor : list (doc * bool)) (late : bool) :
  forall batch,
  (length batch < MAX_CONCURRENT_REQUESTS)%nat ->
  Forall (fun b => (0 < length b <= MAX_CONCURRENT_REQUESTS)%nat)
    (batches batch cursor late).
Proof.
  induction cursor as [|[d shutdown] rest IH]; intros batch Hb; cbn [batches].
  - destruct batch as [|x batch]; cbn [is_empty orb]; [constructor|].
    destruct late; constructor; [cbn [length] in *; lia | constructor].
  - destruct shutdown.
    + destruct batch as [|x batch]; cbn [is_empty]; constructor;
        [cbn [length] in *; lia | constructor].
    + assert (Hl : length (batch ++ [d]) = S (length batch))
        by (rewrite length_app; cbn; lia).
      destruct (MAX_CONCURRENT_REQUESTS <=? length (batch ++ [d]))%nat eqn:E.
      * constructor; [lia|]. apply IH. cbn. unfold MAX_CONCURRENT_REQUESTS. lia.
      * apply Nat.leb_gt in E. apply IH. exact E.
Qed.

Lemma batches_prefix (cursor : list (doc * bool)) (late : bool) :
  forall batch,
  (exists k, concat (batches batch cursor late)
             = batch ++ map fst (firstn k cursor)) \/
  concat (batches batch cursor late) = [].
Proof.
  induction cursor as [|[d shutdown] rest IH]; intros batch; cbn [batches].
  - destruct (is_empty batch || late); [now right|].
    left. exists 0%nat. cbn. reflexivity.
  - destruct shutdown.
    + destruct batch as [|x batch]; cbn [is_empty]; [now right|].
      left. exists 0%nat. cbn. reflexivity.
    + destruct (MAX_CONCURRENT_REQUESTS <=? length (batch ++ [d]))%nat.
      * left. cbn [concat].
        destruct (IH []) as [[k Hk] | Hnil].
        -- exists (S k). rewrite Hk. cbn [firstn map fst app].
           rewrite <- app_assoc. reflexivity.
        -- exists 1%nat. rewrite Hnil. cbn [firstn map fst].
           rewrite app_nil_r. reflexivity.
      * destruct (IH (batch ++ [d])) as [[k Hk] | Hnil]; [|now right].
        left. exists (S k). rewrite Hk. cbn [firstn map fst].
        rewrite <- app_assoc. reflexivity.
Qed.

Lemma batches_all (cursor : list (doc * bool)) :
  undisturbed cursor ->
  forall batch,
  concat (batches batch cursor false) = batch ++ map fst cursor.
Proof.
  induction 1 as [|[d shutdown] rest Hd _ IH]; intros batch; cbn [batches].
  - rewrite orb_false_r. destruct batch; reflexivity.
  - cbn [snd] in Hd. subst shutdown. cbn [map fst].
    destruct (MAX_CONCURRENT_REQUESTS <=? length (batch ++ [d]))%nat.
    + cbn [concat]. rewrite IH, <- app_assoc. reflexivity.
    + rewrite IH, <- app_assoc. reflexivity.
Qed.

Lemma batches_late (cursor : list (doc * bool)) :
  undisturbed cursor ->
  forall batch,
  (length batch < MAX_CONCURRENT_REQUESTS)%nat ->
  Forall (fun b => length b = MAX_CONCURRENT_REQUESTS) (batches batch cursor true).
Proof.
  induction 1 as [|[d shutdown] rest Hd _ IH]; intros batch Hb; cbn [batches].
  - rewrite orb_true_r. constructor.
  - cbn [snd] in Hd. subst shutdown.
    assert (Hl : length (batch ++ [d]) = S (length batch))
      by (rewrite length_app; cbn; lia).
    destruct (MAX_CONCURRENT_REQUESTS <=? length (batch ++ [d]))%nat eqn:E.
    + apply Nat.leb_le in E. constructor; [lia|].
      apply IH. cbn. unfold MAX_CONCURRENT_REQUESTS. lia.
    + apply Nat.leb_gt in E. apply IH. exact E.
Qed.

(** X26.  The concurrent engine hands [process_batch] batches of at
    least one and at most 50 listings which, put end to end, are a
    front part of what the cursor yields, in the cursor's order: no
    listing goes to two batches.  With no shutdown they are all the
    listings of the cursor.  When the shutdown flag goes up only after
    the cursor is read to its end, every batch handed over has exactly
    50 listings: the last, shorter batch is dropped unprocessed. *)
Theorem listings_go_to_batches_in_order (cursor : list (doc * bool))
    (late : bool) :
  Forall (fun b => (0 < length b <= MAX_CONCURRENT_REQUESTS)%nat)
    (batches [] cursor late) /\
  (exists k, concat (batches [] cursor late) = map fst (firstn k cursor)) /\
  (undisturbed cursor -> late = false ->
   concat (batches [] cursor late) = map fst cursor) /\
  (undisturbed cursor -> late = true ->
   Forall (fun b => length b = MAX_CONCURRENT_REQUESTS) (batches [] cursor late)).
Proof.
  split; [apply batches_sizes; cbn; unfold MAX_CONCURRENT_REQUESTS; lia|].
  split; [|split].
  - destruct (batches_prefix cursor late []) as [[k Hk] | Hnil].
    + exists k. exact Hk.
    + exists 0%nat. exact Hnil.
  - intros Hu ->. exact (batches_all cursor Hu []).
  - intros Hu ->. apply batches_late; [exact Hu|].
    cbn. unfold MAX_CONCURRENT_REQUESTS. lia.
Qed.

End Batches.

End AsyncRun.
